(** * gsm: a zero-dependency client for Google Cloud Secret Manager

    Shallow embedding of [secret.go] (package [gsm]) and the properties of
    its retrying request pipeline.

    The Go code talks to two HTTP services (the metadata server and the
    Secret Manager API) and waits between attempts on a cancellable timer.
    Both are modelled as an environment that answers as a function of the
    history of events so far; the program threads that history through a
    state monad, appending one event per request sent and per wait.

    Part I holds the definitions, Part II the lemmas and theorems. *)

From Stdlib Require Import ZArith NArith String Ascii List Lia Bool.
From Stdlib Require Import DecimalString.
Import ListNotations.

Local Open Scope string_scope.
Local Open Scope Z_scope.

(* ================================================================== *)
(** * Part I: definitions *)
(* ================================================================== *)

(** ** Go strings and the [strings] / [fmt] helpers the package uses *)

Module GoStrings.

(** The double-quote character, and a string in double quotes. *)
Definition dquote : string := String "034"%char EmptyString.
Definition quoted (s : string) : string := dquote ++ s ++ dquote.

(** [len(s)] in bytes. *)
Fixpoint len (s : string) : Z :=
  match s with
  | EmptyString => 0
  | String _ s' => 1 + len s'
  end.

(** [strings.HasPrefix]. *)
Fixpoint HasPrefix (s p : string) {struct p} : bool :=
  match p with
  | EmptyString => true
  | String c p' =>
      match s with
      | EmptyString => false
      | String d s' => Ascii.eqb c d && HasPrefix s' p'
      end
  end.

(** [strings.Contains]. *)
Fixpoint Contains (s substr : string) : bool :=
  HasPrefix s substr
  || match s with
     | EmptyString => false
     | String _ s' => Contains s' substr
     end.

(** The [%d] verb of [fmt] on an [int]. *)
Definition itoa (n : Z) : string := NilZero.string_of_int (Z.to_int n).

(** The first [n] bytes of [s] (all of it when it is shorter). *)
Fixpoint take (n : Z) (s : string) : string :=
  match s with
  | EmptyString => EmptyString
  | String c s' => if n <=? 0 then EmptyString else String c (take (n - 1) s')
  end.

Definition is_empty (s : string) : bool :=
  match s with EmptyString => true | _ => false end.

End GoStrings.

(** ** [encoding/base64], [StdEncoding]

    RFC 4648 alphabet with [=] padding, as [EncodeToString] and
    [DecodeString] of the Go library implement it: three source bytes are
    packed into a 24-bit value that is cut into four 6-bit indices; the
    decoder ignores carriage returns and line feeds, insists on padding and
    does not check the unused trailing bits. *)

Module Base64.

Definition encodeStd : string :=
  "ABCDEFGHIJKLMNOPQRSTUVWXYZabcdefghijklmnopqrstuvwxyz0123456789+/".

Definition padChar : ascii := "="%char.

Definition uint_of_byte (c : ascii) : Z := Z.of_N (N_of_ascii c).

(** Conversion [byte(v)]: keeps the low eight bits. *)
Definition byte_of_uint (v : Z) : ascii := ascii_of_N (Z.to_N (v mod 256)).

(** [enc.encode[v]] for a 6-bit index [v]. *)
Definition encode_char (v : Z) : ascii :=
  match String.get (Z.to_nat v) encodeStd with
  | Some c => c
  | None => padChar
  end.

Fixpoint index_from (i : Z) (c : ascii) (alphabet : string) : option Z :=
  match alphabet with
  | EmptyString => None
  | String d rest =>
      if Ascii.eqb c d then Some i else index_from (i + 1) c rest
  end.

(** [enc.decodeMap[c]]: the index of [c] in the alphabet; [None] stands
    for the table's 0xff entry. *)
Definition decodeMap (c : ascii) : option Z := index_from 0 c encodeStd.

(** The 24-bit value of a group of three bytes. *)
Definition pack3 (a b c : Z) : Z :=
  Z.lor (Z.lor (Z.shiftl a 16) (Z.shiftl b 8)) c.

Definition sextet (val : Z) (shift : Z) : ascii :=
  encode_char (Z.land (Z.shiftr val shift) 63).

Fixpoint EncodeToString (src : string) : string :=
  match src with
  | EmptyString => EmptyString
  | String a EmptyString =>
      let val := Z.shiftl (uint_of_byte a) 16 in
      String (sextet val 18) (String (sextet val 12)
        (String padChar (String padChar EmptyString)))
  | String a (String b EmptyString) =>
      let val := Z.lor (Z.shiftl (uint_of_byte a) 16)
                       (Z.shiftl (uint_of_byte b) 8) in
      String (sextet val 18) (String (sextet val 12)
        (String (sextet val 6) (String padChar EmptyString)))
  | String a (String b (String c rest)) =>
      let val := pack3 (uint_of_byte a) (uint_of_byte b) (uint_of_byte c) in
      String (sextet val 18) (String (sextet val 12)
        (String (sextet val 6) (String (sextet val 0)
          (EncodeToString rest))))
  end.

(** The 24-bit value of a quantum of four 6-bit digits. *)
Definition pack4 (d0 d1 d2 d3 : Z) : Z :=
  Z.lor (Z.lor (Z.lor (Z.shiftl d0 18) (Z.shiftl d1 12)) (Z.shiftl d2 6)) d3.

Definition is_newline (c : ascii) : bool :=
  Ascii.eqb c "010"%char || Ascii.eqb c "013"%char.

Fixpoint strip_newlines (s : string) : string :=
  match s with
  | EmptyString => EmptyString
  | String c s' =>
      if is_newline c then strip_newlines s'
      else String c (strip_newlines s')
  end.

Definition is_empty (s : string) : bool :=
  match s with EmptyString => true | _ => false end.

(** Quantum by quantum decoding of input without line breaks. [None] is
    the library's [CorruptInputError]. *)
Fixpoint decodeQuanta (src : string) : option string :=
  match src with
  | EmptyString => Some EmptyString
  | String c0 (String c1 (String c2 (String c3 rest))) =>
      match decodeMap c0, decodeMap c1 with
      | Some d0, Some d1 =>
          match decodeMap c2 with
          | Some d2 =>
              match decodeMap c3 with
              | Some d3 =>
                  let val := pack4 d0 d1 d2 d3 in
                  match decodeQuanta rest with
                  | Some out =>
                      Some (String (byte_of_uint (Z.shiftr val 16))
                             (String (byte_of_uint (Z.shiftr val 8))
                               (String (byte_of_uint (Z.shiftr val 0)) out)))
                  | None => None
                  end
              | None =>
                  if Ascii.eqb c3 padChar && is_empty rest then
                    let val := pack4 d0 d1 d2 0 in
                    Some (String (byte_of_uint (Z.shiftr val 16))
                           (String (byte_of_uint (Z.shiftr val 8))
                             EmptyString))
                  else None
              end
          | None =>
              if Ascii.eqb c2 padChar && Ascii.eqb c3 padChar
                 && is_empty rest then
                let val := pack4 d0 d1 0 0 in
                Some (String (byte_of_uint (Z.shiftr val 16)) EmptyString)
              else None
          end
      | _, _ => None
      end
  | _ => None
  end.

Definition DecodeString (s : string) : option string :=
  decodeQuanta (strip_newlines s).

End Base64.

(** ** [regexp]: the two anchored patterns of the package

    Regular expressions over bytes with character classes and counted
    repetition, matched with Brzozowski derivatives. Both patterns are
    anchored with [^] and [$] (which, without the multi-line flag, is the end
    of the text), so [MatchString] is a match of the whole string. The
    classes are ASCII only, so matching bytes and matching runes agree. *)

Module Regexp.

Inductive regex : Type :=
| Empty                                   (* matches nothing *)
| Eps                                     (* matches the empty string *)
| Class (ranges : list (ascii * ascii))   (* [a-z0-9-] *)
| Cat (r1 r2 : regex)
| Alt (r1 r2 : regex)
| Rep (r : regex) (min max : nat).        (* r{min,max} *)

Definition in_range (c : ascii) (rg : ascii * ascii) : bool :=
  (N_of_ascii (fst rg) <=? N_of_ascii c)%N
  && (N_of_ascii c <=? N_of_ascii (snd rg))%N.

Definition in_class (c : ascii) (ranges : list (ascii * ascii)) : bool :=
  existsb (in_range c) ranges.

Fixpoint nullable (r : regex) : bool :=
  match r with
  | Empty => false
  | Eps => true
  | Class _ => false
  | Cat r1 r2 => nullable r1 && nullable r2
  | Alt r1 r2 => nullable r1 || nullable r2
  | Rep r min max => Nat.leb min max && (Nat.eqb min 0 || nullable r)
  end.

Definition cat (r1 r2 : regex) : regex :=
  match r1 with
  | Empty => Empty
  | Eps => r2
  | _ => Cat r1 r2
  end.

Definition alt (r1 r2 : regex) : regex :=
  match r1, r2 with
  | Empty, _ => r2
  | _, Empty => r1
  | _, _ => Alt r1 r2
  end.

Fixpoint deriv (c : ascii) (r : regex) : regex :=
  match r with
  | Empty => Empty
  | Eps => Empty
  | Class ranges => if in_class c ranges then Eps else Empty
  | Cat r1 r2 =>
      alt (cat (deriv c r1) r2) (if nullable r1 then deriv c r2 else Empty)
  | Alt r1 r2 => alt (deriv c r1) (deriv c r2)
  | Rep r min max =>
      match max with
      | O => Empty
      | S max' => cat (deriv c r) (Rep r (Nat.pred min) max')
      end
  end.

Fixpoint matches (r : regex) (s : string) : bool :=
  match s with
  | EmptyString => nullable r
  | String c s' => matches (deriv c r) s'
  end.

(** [re.MatchString(s)] for a pattern of the form [^r$]. *)
Definition MatchString (r : regex) (s : string) : bool := matches r s.

(** What a pattern denotes: the set of strings it matches, given directly.
    [power l k] is the concatenation of [k] strings of [l]. *)
Fixpoint power (l : string -> Prop) (k : nat) (s : string) : Prop :=
  match k with
  | O => s = EmptyString
  | S k' => exists s1 s2, s = s1 ++ s2 /\ l s1 /\ power l k' s2
  end.

Fixpoint lang (r : regex) (s : string) : Prop :=
  match r with
  | Empty => False
  | Eps => s = EmptyString
  | Class ranges =>
      exists c, s = String c EmptyString /\ in_class c ranges = true
  | Cat r1 r2 => exists s1 s2, s = s1 ++ s2 /\ lang r1 s1 /\ lang r2 s2
  | Alt r1 r2 => lang r1 s \/ lang r2 s
  | Rep r min max => exists k, (min <= k <= max)%nat /\ power (lang r) k s
  end.

(** Every byte of [s] is in the class. *)
Fixpoint all_in (ranges : list (ascii * ascii)) (s : string) : bool :=
  match s with
  | EmptyString => true
  | String c s' => in_class c ranges && all_in ranges s'
  end.

Definition lower : ascii * ascii := ("a"%char, "z"%char).
Definition upper : ascii * ascii := ("A"%char, "Z"%char).
Definition digit : ascii * ascii := ("0"%char, "9"%char).
Definition one (c : ascii) : ascii * ascii := (c, c).

End Regexp.

(** [^[a-z][a-z0-9-]{4,28}[a-z0-9]$] *)
Definition projectIDRegex : Regexp.regex :=
  Regexp.Cat (Regexp.Class [Regexp.lower])
    (Regexp.Cat
       (Regexp.Rep
          (Regexp.Class [Regexp.lower; Regexp.digit; Regexp.one "-"%char])
          4 28)
       (Regexp.Class [Regexp.lower; Regexp.digit])).

(** The project IDs the pattern admits, said without a pattern: a lower
    case letter, then 4 to 28 lower case letters, digits or hyphens, then a
    lower case letter or digit. *)
Definition valid_project_id (s : string) : Prop :=
  exists c mid l,
    s = String c (mid ++ String l EmptyString)
    /\ Regexp.in_class c [Regexp.lower] = true
    /\ (4 <= String.length mid <= 28)%nat
    /\ Regexp.all_in [Regexp.lower; Regexp.digit; Regexp.one "-"%char] mid
       = true
    /\ Regexp.in_class l [Regexp.lower; Regexp.digit] = true.

(** The secret names the pattern admits: 1 to 255 letters, digits,
    underscores or hyphens. *)
Definition valid_secret_name (s : string) : Prop :=
  (1 <= String.length s <= 255)%nat
  /\ Regexp.all_in [Regexp.lower; Regexp.upper; Regexp.digit;
                    Regexp.one "_"%char; Regexp.one "-"%char] s = true.

(** [^[a-zA-Z0-9_-]{1,255}$] *)
Definition secretNameRegex : Regexp.regex :=
  Regexp.Rep
    (Regexp.Class [Regexp.lower; Regexp.upper; Regexp.digit;
                   Regexp.one "_"%char; Regexp.one "-"%char])
    1 255.

(** ** [encoding/json]: marshalling of the two request bodies

    The request bodies are maps with a single key whose values are maps or
    strings; [json.Marshal] writes them compactly. String values are written
    in double quotes with the escapes [Marshal] applies to ASCII (quote,
    backslash, control characters, and the HTML characters [<], [>], [&]). *)

Module JSON.

Inductive value : Type :=
| JString (s : string)
| JObject (fields : members)
with members : Type :=
| MNil
| MCons (key : string) (v : value) (rest : members).

Definition hex_digit (n : N) : ascii :=
  match String.get (N.to_nat n) "0123456789abcdef" with
  | Some c => c
  | None => "0"%char
  end.

Definition escape_u00 (c : ascii) : string :=
  let n := N_of_ascii c in
  "\u00" ++ String (hex_digit (n / 16)) (String (hex_digit (n mod 16)) "").

Definition escape_char (c : ascii) : string :=
  let n := N_of_ascii c in
  if Ascii.eqb c "034"%char then String "\"%char GoStrings.dquote
  else if Ascii.eqb c "\"%char then "\\"
  else if (n =? 8)%N then "\b"
  else if (n =? 12)%N then "\f"
  else if (n =? 10)%N then "\n"
  else if (n =? 13)%N then "\r"
  else if (n =? 9)%N then "\t"
  else if (n <? 32)%N then escape_u00 c
  else if Ascii.eqb c "<"%char || Ascii.eqb c ">"%char
          || Ascii.eqb c "&"%char then escape_u00 c
  else String c "".

Fixpoint escape (s : string) : string :=
  match s with
  | EmptyString => EmptyString
  | String c s' => escape_char c ++ escape s'
  end.

Definition marshal_string (s : string) : string :=
  GoStrings.quoted (escape s).

Fixpoint Marshal (v : value) : string :=
  match v with
  | JString s => marshal_string s
  | JObject fields => "{" ++ marshal_members fields ++ "}"
  end
with marshal_members (fs : members) : string :=
  match fs with
  | MNil => ""
  | MCons k x MNil => marshal_string k ++ ":" ++ Marshal x
  | MCons k x rest =>
      marshal_string k ++ ":" ++ Marshal x ++ "," ++ marshal_members rest
  end.

(** A Go map literal with one key. *)
Definition map1 (key : string) (v : value) : value :=
  JObject (MCons key v MNil).

(** The empty map literal [map[string]any{}]. *)
Definition empty_map : value := JObject MNil.

End JSON.

(** ** Errors

    Go [error] values. [ErrNew] is [errors.New] and [fmt.Errorf] without
    [%w]; [ErrWrap] is [fmt.Errorf] with a trailing [%w]; [ErrCtx] is what
    [ctx.Err()] returns; [ErrExternal] is an error value made by a library
    (transport, body read, JSON decoding) with its text; [ErrCorruptInput] is
    [base64.CorruptInputError]. A nil [error] is [None]. *)

Inductive ctx_error : Type := Canceled | DeadlineExceeded.

Inductive error : Type :=
| ErrNew (msg : string)
| ErrWrap (prefix : string) (cause : error)
| ErrCtx (e : ctx_error)
| ErrExternal (msg : string)
| ErrCorruptInput.

(** The [Error()] method. The byte offset that ends the text of a
    [CorruptInputError] is not tracked; no caller reads that text. *)
Fixpoint Error (e : error) : string :=
  match e with
  | ErrNew msg => msg
  | ErrWrap prefix cause => prefix ++ Error cause
  | ErrCtx Canceled => "context canceled"
  | ErrCtx DeadlineExceeded => "context deadline exceeded"
  | ErrExternal msg => msg
  | ErrCorruptInput => "illegal base64 data"
  end.

(** [fmt.Errorf(prefix + "%w", err)]; with a nil operand [fmt] prints
    [%!w(<nil>)] and wraps nothing. *)
Definition Errorf_w (prefix : string) (err : option error) : error :=
  match err with
  | Some e => ErrWrap prefix e
  | None => ErrNew (prefix ++ "%!w(<nil>)")
  end.

(** ** HTTP requests, responses and the environment *)

Record Request : Type := {
  Method : string;
  URL : string;
  Header : list (string * string);
  Body : string
}.

(** A response body as a reader: the bytes it yields, then end of file or a
    read error. *)
Record Stream : Type := {
  data : string;
  fail : option error
}.

Record Response : Type := {
  StatusCode : Z;
  RespBody : Stream
}.

(** Outcome of the [select] between [time.After(retryDelay)] and
    [ctx.Done()]. *)
Inductive wait_result : Type :=
| TimerFired
| CtxDone (e : ctx_error).

Inductive Event : Type :=
| EvDo (req : Request) (res : error + Response)
| EvWait (w : wait_result).

(** The world outside the package: what [httpClient.Do] returns for a
    request and which branch of the retry [select] is taken, both as
    functions of everything that happened before. *)
Record Env : Type := {
  Do : list Event -> Request -> error + Response;
  Select : list Event -> wait_result
}.

(** Library functions the package calls and whose code is not part of it:
    [strings.TrimSpace], [strconv.Quote] (the [%q] verb), and the two
    decodings of [encoding/json] into the anonymous result structs, each
    returning the one field the caller reads. *)
Record Lib : Type := {
  TrimSpace : string -> string;
  Quote : string -> string;
  DecodeAccessToken : Stream -> error + string;
  UnmarshalPayloadData : string -> error + string
}.

Definition MethodGet : string := "GET".
Definition MethodPost : string := "POST".
Definition NoBody : string := "".

Definition StatusOK : Z := 200.
Definition StatusCreated : Z := 201.
Definition StatusConflict : Z := 409.

Definition valid_method (m : string) : bool :=
  String.eqb m MethodGet || String.eqb m MethodPost.

(** [http.NewRequestWithContext]. The context is never nil and the URLs are
    built from the package's own base URLs and validated identifiers, so the
    only failure kept is the one on the method. *)
Definition NewRequestWithContext (method url body : string)
  : error + Request :=
  if valid_method method then
    inr {| Method := method; URL := url; Header := []; Body := body |}
  else inl (ErrNew ("net/http: invalid method " ++ GoStrings.quoted method)).

Fixpoint set_header (h : list (string * string)) (key v : string)
  : list (string * string) :=
  match h with
  | [] => [(key, v)]
  | (k, x) :: rest =>
      if String.eqb k key then (key, v) :: rest
      else (k, x) :: set_header rest key v
  end.

(** [req.Header.Set(key, v)] *)
Definition Header_Set (req : Request) (key v : string) : Request :=
  {| Method := Method req; URL := URL req;
     Header := set_header (Header req) key v; Body := Body req |}.

(** [io.LimitReader(r, n)]: at most [n] bytes, then end of file. *)
Definition LimitReader (r : Stream) (n : Z) : Stream :=
  if n <=? GoStrings.len (data r)
  then {| data := GoStrings.take n (data r); fail := None |}
  else r.

(** [io.ReadAll(r)]: the bytes read and the read error, if any. *)
Definition ReadAll (r : Stream) : string * option error := (data r, fail r).

(** ** Package-level variables and constants *)

Definition metadataURL : string :=
  "http://metadata.google.internal/computeMetadata/v1".
Definition apiURL : string := "https://secretmanager.googleapis.com/v1".
Definition maxRetries : nat := 3.
Definition maxBodySize : Z := 10 * 1024 * 1024.

(** ** The state monad over the event history, and the [for] loop *)

Definition M (A : Type) : Type := list Event -> A * list Event.

Definition ret {A : Type} (a : A) : M A := fun h => (a, h).

Definition bind {A B : Type} (m : M A) (k : A -> M B) : M B :=
  fun h => let (a, h') := m h in k a h'.

Declare Scope gsm_scope.
Delimit Scope gsm_scope with gsm.
Notation "x <- m ;; k" := (bind m (fun x => k))
  (at level 61, m at next level, right associativity) : gsm_scope.
Local Open Scope gsm_scope.

(** How one iteration of a loop body ends: [continue] (or falling off the
    end of the body), [break], or [return] from the enclosing function. *)
Inductive flow (S R : Type) : Type :=
| Continue (s : S)
| Break (s : S)
| Return (r : R).
Arguments Continue {S R} s.
Arguments Break {S R} s.
Arguments Return {S R} r.

(** [n] iterations starting at index [attempt]; [inl] carries the loop
    variables when the loop is left normally, [inr] the returned value. *)
Fixpoint for_range_from {S R : Type} (n attempt : nat)
  (body : nat -> S -> M (flow S R)) (s : S) : M (S + R) :=
  match n with
  | O => ret (inl s)
  | Datatypes.S n' =>
      f <- body attempt s ;;
      match f with
      | Continue s' => for_range_from n' (Datatypes.S attempt) body s'
      | Break s' => ret (inl s')
      | Return r => ret (inr r)
      end
  end.

(** [for attempt := range n { body }] *)
Definition for_range {S R : Type} (n : nat)
  (body : nat -> S -> M (flow S R)) (s : S) : M (S + R) :=
  for_range_from n 0 body s.

(** ** The package [gsm] *)

Section Package.

Variable L : Lib.
Variable E : Env.

(** [httpClient.Do(req)] *)
Definition httpClient_Do (req : Request) : M (error + Response) :=
  fun h => let r := Do E h req in (r, (h ++ [EvDo req r])%list).

(** The [select] on [time.After(retryDelay)] and [ctx.Done()]. *)
Definition select_retryDelay : M wait_result :=
  fun h => let w := Select E h in (w, (h ++ [EvWait w])%list).

(** The guard that opens every loop body:
    [if attempt > 0 { select { ... } }]. *)
Definition wait_before (attempt : nat) : M wait_result :=
  if (0 <? attempt)%nat then select_retryDelay else ret TimerFired.

Definition is_4xx (code : Z) : bool := (400 <=? code) && (code <? 500).

(** Body of the loop of [getProjectID]; the loop variables are [p] and
    [lastErr]. *)
Definition getProjectID_attempt (attempt : nat) (st : string * option error)
  : M (flow (string * option error) (string * option error)) :=
  let '(p, lastErr) := st in
  w <- wait_before attempt ;;
  match w with
  | CtxDone e => ret (Return ("", Some (ErrCtx e)))
  | TimerFired =>
      match NewRequestWithContext MethodGet
              (metadataURL ++ "/project/project-id") NoBody with
      | inl err => ret (Return ("", Some err))
      | inr req =>
          let req := Header_Set req "Metadata-Flavor" "Google" in
          r <- httpClient_Do req ;;
          match r with
          | inl err => ret (Continue (p, Some err))
          | inr resp =>
              if negb (StatusCode resp =? StatusOK) then
                ret (Continue
                       (p, Some (ErrNew ("metadata server status "
                                         ++ GoStrings.itoa (StatusCode resp)))))
              else
                let (body, err) :=
                  ReadAll (LimitReader (RespBody resp) maxBodySize) in
                match err with
                | Some e => ret (Continue (p, Some e))
                | None =>
                    let p := TrimSpace L body in
                    if negb (GoStrings.is_empty p)
                    then ret (Break (p, lastErr))
                    else ret (Continue (p, Some (ErrNew "empty project ID")))
                end
          end
      end
  end.

(** [getProjectID] fetches the project ID from the metadata server. *)
Definition getProjectID : M (string * option error) :=
  r <- for_range maxRetries getProjectID_attempt ("", None) ;;
  match r with
  | inr res => ret res
  | inl (p, lastErr) =>
      if GoStrings.is_empty p
      then ret ("", Some (Errorf_w "failed to get project ID: " lastErr))
      else ret (p, None)
  end.

(** Body of the loop of [getAccessToken]; loop variables [t], [lastErr]. *)
Definition getAccessToken_attempt (attempt : nat) (st : string * option error)
  : M (flow (string * option error) (string * option error)) :=
  let '(t, lastErr) := st in
  w <- wait_before attempt ;;
  match w with
  | CtxDone e => ret (Return ("", Some (ErrCtx e)))
  | TimerFired =>
      match NewRequestWithContext MethodGet
              (metadataURL ++ "/instance/service-accounts/default/token")
              NoBody with
      | inl err => ret (Return ("", Some err))
      | inr req =>
          let req := Header_Set req "Metadata-Flavor" "Google" in
          r <- httpClient_Do req ;;
          match r with
          | inl err => ret (Continue (t, Some err))
          | inr resp =>
              if negb (StatusCode resp =? StatusOK) then
                ret (Continue
                       (t, Some (ErrNew ("metadata server status "
                                         ++ GoStrings.itoa (StatusCode resp)))))
              else
                match DecodeAccessToken L
                        (LimitReader (RespBody resp) maxBodySize) with
                | inl err => ret (Continue (t, Some err))
                | inr AccessToken =>
                    if negb (GoStrings.is_empty AccessToken)
                    then ret (Break (AccessToken, lastErr))
                    else ret (Continue (t, Some (ErrNew "empty access token")))
                end
          end
      end
  end.

(** [getAccessToken] fetches an access token from the metadata server. *)
Definition getAccessToken : M (string * option error) :=
  r <- for_range maxRetries getAccessToken_attempt ("", None) ;;
  match r with
  | inr res => ret res
  | inl (t, lastErr) =>
      if GoStrings.is_empty t
      then ret ("", Some (Errorf_w "failed to get access token: " lastErr))
      else ret (t, None)
  end.

(** Body of the loop of [FetchFromProject]; loop variable [lastErr]. *)
Definition access_attempt (t url : string) (attempt : nat)
  (lastErr : option error)
  : M (flow (option error) (string * option error)) :=
  w <- wait_before attempt ;;
  match w with
  | CtxDone e => ret (Return ("", Some (ErrCtx e)))
  | TimerFired =>
      match NewRequestWithContext MethodGet url NoBody with
      | inl err => ret (Return ("", Some err))
      | inr req =>
          let req := Header_Set req "Authorization" ("Bearer " ++ t) in
          r <- httpClient_Do req ;;
          match r with
          | inl err => ret (Continue (Some err))
          | inr resp =>
              if is_4xx (StatusCode resp) then
                ret (Return
                       ("", Some (ErrNew ("failed to access secret: status "
                                          ++ GoStrings.itoa (StatusCode resp)))))
              else if negb (StatusCode resp =? StatusOK) then
                ret (Continue
                       (Some (ErrNew ("status "
                                      ++ GoStrings.itoa (StatusCode resp)))))
              else
                let (body, err) :=
                  ReadAll (LimitReader (RespBody resp) maxBodySize) in
                match err with
                | Some e => ret (Continue (Some e))
                | None =>
                    match UnmarshalPayloadData L body with
                    | inl e => ret (Continue (Some e))
                    | inr Data =>
                        match Base64.DecodeString Data with
                        | None =>
                            ret (Continue
                                   (Some (ErrWrap
                                            "failed to decode secret data: "
                                            ErrCorruptInput)))
                        | Some decoded => ret (Return (decoded, None))
                        end
                    end
                end
          end
      end
  end.

Definition accessURL (pid name : string) : string :=
  apiURL ++ "/projects/" ++ pid ++ "/secrets/" ++ name
  ++ "/versions/latest:access".

(** [FetchFromProject] retrieves the latest version of a secret from a
    specific project. *)
Definition FetchFromProject (pid name : string) : M (string * option error) :=
  if negb (Regexp.MatchString projectIDRegex pid) then
    ret ("", Some (ErrNew ("invalid project ID format: " ++ Quote L pid)))
  else if negb (Regexp.MatchString secretNameRegex name) then
    ret ("", Some (ErrNew "invalid secret name format"))
  else
    tr <- getAccessToken ;;
    match tr with
    | (_, Some err) => ret ("", Some err)
    | (t, None) =>
        let url := accessURL pid name in
        r <- for_range maxRetries (access_attempt t url) None ;;
        match r with
        | inr res => ret res
        | inl lastErr =>
            ret ("", Some (Errorf_w "failed to access secret: " lastErr))
        end
    end.

(** [Fetch] retrieves the latest version of a secret from the current
    project. *)
Definition Fetch (name : string) : M (string * option error) :=
  if negb (Regexp.MatchString secretNameRegex name) then
    ret ("", Some (ErrNew "invalid secret name format"))
  else
    pr <- getProjectID ;;
    match pr with
    | (_, Some err) => ret ("", Some err)
    | (p, None) => FetchFromProject p name
    end.

(** Body of the create loop of [StoreInProject]; loop variable
    [createErr]. *)
Definition create_attempt (tok createURL createData : string)
  (attempt : nat) (createErr : option error)
  : M (flow (option error) (option error)) :=
  w <- wait_before attempt ;;
  match w with
  | CtxDone e => ret (Return (Some (ErrCtx e)))
  | TimerFired =>
      match NewRequestWithContext MethodPost createURL createData with
      | inl err => ret (Return (Some err))
      | inr req =>
          let req := Header_Set req "Authorization" ("Bearer " ++ tok) in
          let req := Header_Set req "Content-Type" "application/json" in
          r <- httpClient_Do req ;;
          match r with
          | inl err => ret (Continue (Some err))
          | inr resp =>
              if (StatusCode resp =? StatusOK)
                 || (StatusCode resp =? StatusCreated) then
                ret (Break createErr)
              else
                let (body, _) :=
                  ReadAll (LimitReader (RespBody resp) maxBodySize) in
                if StatusCode resp =? StatusConflict then
                  ret (Break
                         (Some (ErrNew ("secret already exists: status "
                                        ++ GoStrings.itoa (StatusCode resp)))))
                else if is_4xx (StatusCode resp) then
                  ret (Return
                         (Some (ErrNew ("failed to create secret: status "
                                        ++ GoStrings.itoa (StatusCode resp)
                                        ++ ": " ++ body))))
                else
                  ret (Continue
                         (Some (ErrNew ("status "
                                        ++ GoStrings.itoa (StatusCode resp)
                                        ++ ": " ++ body))))
          end
      end
  end.

(** Body of the add-version loop of [StoreInProject]; loop variable
    [lastErr]. *)
Definition addVersion_attempt (tok versionURL versionData : string)
  (attempt : nat) (lastErr : option error)
  : M (flow (option error) (option error)) :=
  w <- wait_before attempt ;;
  match w with
  | CtxDone e => ret (Return (Some (ErrCtx e)))
  | TimerFired =>
      match NewRequestWithContext MethodPost versionURL versionData with
      | inl err => ret (Return (Some err))
      | inr req =>
          let req := Header_Set req "Authorization" ("Bearer " ++ tok) in
          let req := Header_Set req "Content-Type" "application/json" in
          r <- httpClient_Do req ;;
          match r with
          | inl err => ret (Continue (Some err))
          | inr resp =>
              if StatusCode resp =? StatusOK then ret (Return None)
              else
                let (body, _) :=
                  ReadAll (LimitReader (RespBody resp) maxBodySize) in
                if is_4xx (StatusCode resp) then
                  ret (Return
                         (Some (ErrNew ("failed to add secret version: status "
                                        ++ GoStrings.itoa (StatusCode resp)
                                        ++ ": " ++ body))))
                else
                  ret (Continue
                         (Some (ErrNew ("status "
                                        ++ GoStrings.itoa (StatusCode resp)
                                        ++ ": " ++ body))))
          end
      end
  end.

Definition createURL (pid name : string) : string :=
  apiURL ++ "/projects/" ++ pid ++ "/secrets?secretId=" ++ name.

Definition versionURL (pid name : string) : string :=
  apiURL ++ "/projects/" ++ pid ++ "/secrets/" ++ name ++ ":addVersion".

(** [versionReqBody]: the payload map with the base64 text of the value. *)
Definition versionReqBody (value : string) : JSON.value :=
  JSON.map1 "payload"
    (JSON.map1 "data" (JSON.JString (Base64.EncodeToString value))).

(** The test that follows the create loop:
    [createErr != nil && !strings.Contains(createErr.Error(), ...)]. *)
Definition create_failed (createErr : option error) : bool :=
  match createErr with
  | Some e => negb (GoStrings.Contains (Error e) "secret already exists")
  | None => false
  end.

(** [StoreInProject], with the map literal marshalled into the create
    request left as a parameter: the two copies of the function in
    [secret.go] differ in nothing else. [json.Marshal] cannot fail on
    these maps, so its error branch is not kept. *)
Definition StoreInProject_with (createReqBody : JSON.value)
  (pid name value : string) : M (option error) :=
  if negb (Regexp.MatchString projectIDRegex pid) then
    ret (Some (ErrNew ("invalid project ID format: " ++ Quote L pid)))
  else if negb (Regexp.MatchString secretNameRegex name) then
    ret (Some (ErrNew "invalid secret name format"))
  else
    tr <- getAccessToken ;;
    match tr with
    | (_, Some err) => ret (Some err)
    | (tok, None) =>
        let createData := JSON.Marshal createReqBody in
        c <- for_range maxRetries
               (create_attempt tok (createURL pid name) createData) None ;;
        match c with
        | inr res => ret res
        | inl createErr =>
            if create_failed createErr then
              ret (Some (Errorf_w "failed to create secret: " createErr))
            else
              let versionData := JSON.Marshal (versionReqBody value) in
              a <- for_range maxRetries
                     (addVersion_attempt tok (versionURL pid name)
                        versionData) None ;;
              match a with
              | inr res => ret res
              | inl lastErr =>
                  ret (Some (Errorf_w "failed to add secret version: "
                               lastErr))
              end
        end
    end.

(** [createReqBody] of the first copy of [StoreInProject] (lines 296-300):
    [{"replication": {"automatic": map[string]any{}}}]. *)
Definition createReqBody : JSON.value :=
  JSON.map1 "replication" (JSON.map1 "automatic" JSON.empty_map).

(** [createReqBody] of the second copy (lines 714-718), whose inner map is
    a [map[string]string] holding the two-character string [{}]. *)
Definition createReqBody_inlined : JSON.value :=
  JSON.map1 "replication" (JSON.map1 "automatic" (JSON.JString "{}")).

(** [StoreInProject] as in the first copy of [secret.go]. *)
Definition StoreInProject : string -> string -> string -> M (option error) :=
  StoreInProject_with createReqBody.

(** [StoreInProject] as in the second copy of [secret.go]. *)
Definition StoreInProject_inlined
  : string -> string -> string -> M (option error) :=
  StoreInProject_with createReqBody_inlined.

(** [Store] creates or updates a secret in the current project; like
    [StoreInProject_with], for either copy of the file. *)
Definition Store_with (createReqBody : JSON.value) (name value : string)
  : M (option error) :=
  if negb (Regexp.MatchString secretNameRegex name) then
    ret (Some (ErrNew "invalid secret name format"))
  else
    pr <- getProjectID ;;
    match pr with
    | (_, Some err) => ret (Some err)
    | (p, None) => StoreInProject_with createReqBody p name value
    end.

Definition Store : string -> string -> M (option error) :=
  Store_with createReqBody.

Definition Store_inlined : string -> string -> M (option error) :=
  Store_with createReqBody_inlined.

End Package.

(** ** The retrying executor

    The five loops of the package repeat one scheme: wait (except before the
    first attempt), send one fixed request, and decide from the outcome
    whether to go on, leave the loop or return. [retry_attempt] is that
    scheme with the decision left as a parameter; the decisions of the five
    loops follow, read off the loop bodies above. Part II shows that every
    loop body is the instance of the scheme named here. *)

Definition retry_attempt (E : Env) {S R : Type} (req : Request)
  (cancelled : ctx_error -> R)
  (classify : S -> error + Response -> flow S R)
  (attempt : nat) (s : S) : M (flow S R) :=
  w <- wait_before E attempt ;;
  match w with
  | CtxDone e => ret (Return (cancelled e))
  | TimerFired => r <- httpClient_Do E req ;; ret (classify s r)
  end.

Definition metadata_request (path : string) : Request :=
  {| Method := MethodGet; URL := metadataURL ++ path;
     Header := [("Metadata-Flavor", "Google")]; Body := NoBody |}.

Definition projectID_request : Request :=
  metadata_request "/project/project-id".

Definition token_request : Request :=
  metadata_request "/instance/service-accounts/default/token".

Definition access_request (t url : string) : Request :=
  {| Method := MethodGet; URL := url;
     Header := [("Authorization", "Bearer " ++ t)]; Body := NoBody |}.

(** The shape shared by the create and the add-version requests. *)
Definition post_request (tok url body : string) : Request :=
  {| Method := MethodPost; URL := url;
     Header := [("Authorization", "Bearer " ++ tok);
                ("Content-Type", "application/json")];
     Body := body |}.

Definition cancelled_fetch (e : ctx_error) : string * option error :=
  ("", Some (ErrCtx e)).

Definition cancelled_store (e : ctx_error) : option error :=
  Some (ErrCtx e).

Definition classify_projectID (L : Lib) (st : string * option error)
  (r : error + Response) : flow (string * option error) (string * option error) :=
  let '(p, lastErr) := st in
  match r with
  | inl err => Continue (p, Some err)
  | inr resp =>
      if negb (StatusCode resp =? StatusOK) then
        Continue (p, Some (ErrNew ("metadata server status "
                                   ++ GoStrings.itoa (StatusCode resp))))
      else
        let (body, err) := ReadAll (LimitReader (RespBody resp) maxBodySize) in
        match err with
        | Some e => Continue (p, Some e)
        | None =>
            let p := TrimSpace L body in
            if negb (GoStrings.is_empty p) then Break (p, lastErr)
            else Continue (p, Some (ErrNew "empty project ID"))
        end
  end.

Definition classify_token (L : Lib) (st : string * option error)
  (r : error + Response) : flow (string * option error) (string * option error) :=
  let '(t, lastErr) := st in
  match r with
  | inl err => Continue (t, Some err)
  | inr resp =>
      if negb (StatusCode resp =? StatusOK) then
        Continue (t, Some (ErrNew ("metadata server status "
                                   ++ GoStrings.itoa (StatusCode resp))))
      else
        match DecodeAccessToken L (LimitReader (RespBody resp) maxBodySize) with
        | inl err => Continue (t, Some err)
        | inr AccessToken =>
            if negb (GoStrings.is_empty AccessToken)
            then Break (AccessToken, lastErr)
            else Continue (t, Some (ErrNew "empty access token"))
        end
  end.

Definition classify_access (L : Lib) (lastErr : option error)
  (r : error + Response) : flow (option error) (string * option error) :=
  match r with
  | inl err => Continue (Some err)
  | inr resp =>
      if is_4xx (StatusCode resp) then
        Return ("", Some (ErrNew ("failed to access secret: status "
                                  ++ GoStrings.itoa (StatusCode resp))))
      else if negb (StatusCode resp =? StatusOK) then
        Continue (Some (ErrNew ("status " ++ GoStrings.itoa (StatusCode resp))))
      else
        let (body, err) := ReadAll (LimitReader (RespBody resp) maxBodySize) in
        match err with
        | Some e => Continue (Some e)
        | None =>
            match UnmarshalPayloadData L body with
            | inl e => Continue (Some e)
            | inr Data =>
                match Base64.DecodeString Data with
                | None =>
                    Continue (Some (ErrWrap "failed to decode secret data: "
                                      ErrCorruptInput))
                | Some decoded => Return (decoded, None)
                end
            end
        end
  end.

Definition classify_create (createErr : option error)
  (r : error + Response) : flow (option error) (option error) :=
  match r with
  | inl err => Continue (Some err)
  | inr resp =>
      if (StatusCode resp =? StatusOK) || (StatusCode resp =? StatusCreated)
      then Break createErr
      else
        let (body, _) := ReadAll (LimitReader (RespBody resp) maxBodySize) in
        if StatusCode resp =? StatusConflict then
          Break (Some (ErrNew ("secret already exists: status "
                               ++ GoStrings.itoa (StatusCode resp))))
        else if is_4xx (StatusCode resp) then
          Return (Some (ErrNew ("failed to create secret: status "
                                ++ GoStrings.itoa (StatusCode resp)
                                ++ ": " ++ body)))
        else
          Continue (Some (ErrNew ("status " ++ GoStrings.itoa (StatusCode resp)
                                  ++ ": " ++ body)))
  end.

Definition classify_addVersion (lastErr : option error)
  (r : error + Response) : flow (option error) (option error) :=
  match r with
  | inl err => Continue (Some err)
  | inr resp =>
      if StatusCode resp =? StatusOK then Return None
      else
        let (body, _) := ReadAll (LimitReader (RespBody resp) maxBodySize) in
        if is_4xx (StatusCode resp) then
          Return (Some (ErrNew ("failed to add secret version: status "
                                ++ GoStrings.itoa (StatusCode resp)
                                ++ ": " ++ body)))
        else
          Continue (Some (ErrNew ("status " ++ GoStrings.itoa (StatusCode resp)
                                  ++ ": " ++ body)))
  end.

(** ** Runs and properties of event traces *)

(** [m], started after the history [h], ends with the result [a] and has
    added the events [evs]. *)
Definition runs {A : Type} (m : M A) (h : list Event) (a : A)
  (evs : list Event) : Prop :=
  m h = (a, (h ++ evs)%list).

(** Every event [m] adds satisfies [P]. *)
Definition all_events {A : Type} (P : Event -> Prop) (m : M A) : Prop :=
  forall h, exists a evs, runs m h a evs /\ Forall P evs.

(** Whenever [m] adds an event satisfying [F], that event is the last one
    and the result is related to it by [Q]. *)
Definition stops_at {A : Type} (F : Event -> Prop) (Q : Event -> A -> Prop)
  (m : M A) : Prop :=
  forall h, exists a evs,
    runs m h a evs
    /\ forall pre ev post,
         evs = (pre ++ ev :: post)%list -> F ev -> post = [] /\ Q ev a.

(** What leaves the loop when an iteration ends in [f]. *)
Definition exit_of {S R : Type} (f : flow S R) : option (S + R) :=
  match f with
  | Continue _ => None
  | Break s => Some (inl s)
  | Return r => Some (inr r)
  end.

(** ** Cancellation *)




(** ** Outcomes that end an operation *)

(** Whenever [m] adds an event satisfying [F], nothing happens after it and
    the result is related to that event by [Q]. *)
Definition ends_on {A : Type} (F : Event -> Prop) (Q : Event -> A -> Prop)
  (m : M A) : Prop :=
  forall h res h',
    m h = (res, h') ->
    forall pre ev post,
      h' = (h ++ pre ++ ev :: post)%list -> F ev -> post = [] /\ Q ev res.

(** The body of a response as the package reads it for its error texts:
    through the 10 MiB cap, a read error being ignored. *)
Definition read_body (resp : Response) : string :=
  fst (ReadAll (LimitReader (RespBody resp) maxBodySize)).

(** A response with a 4xx status to a request for [url]. *)
Definition is_4xx_from (url : string) (ev : Event) : Prop :=
  exists req resp,
    ev = EvDo req (inr resp) /\ URL req = url
    /\ is_4xx (StatusCode resp) = true.

(** The same, the status not being 409 Conflict. *)
Definition is_4xx_not_conflict_from (url : string) (ev : Event) : Prop :=
  exists req resp,
    ev = EvDo req (inr resp) /\ URL req = url
    /\ is_4xx (StatusCode resp) = true
    /\ StatusCode resp <> StatusConflict.

(** A 409 Conflict response to a request for [url]. *)
Definition is_conflict_from (url : string) (ev : Event) : Prop :=
  exists req resp,
    ev = EvDo req (inr resp) /\ URL req = url
    /\ StatusCode resp = StatusConflict.

(** The errors the three Secret Manager calls return on a client error. *)
Definition access_denied (ev : Event) (res : string * option error) : Prop :=
  forall req resp,
    ev = EvDo req (inr resp) ->
    res = ("", Some (ErrNew ("failed to access secret: status "
                             ++ GoStrings.itoa (StatusCode resp)))).

Definition create_denied (ev : Event) (res : option error) : Prop :=
  forall req resp,
    ev = EvDo req (inr resp) ->
    res = Some (ErrNew ("failed to create secret: status "
                        ++ GoStrings.itoa (StatusCode resp)
                        ++ ": " ++ read_body resp)).

Definition addVersion_denied (ev : Event) (res : option error) : Prop :=
  forall req resp,
    ev = EvDo req (inr resp) ->
    res = Some (ErrNew ("failed to add secret version: status "
                        ++ GoStrings.itoa (StatusCode resp)
                        ++ ": " ++ read_body resp)).

(** The events a call to the metadata server for [req] can add. *)
Definition metadata_event (req : Request) (ev : Event) : Prop :=
  (exists w, ev = EvWait w) \/ (exists r, ev = EvDo req r).


(** Any response with a 4xx status. *)
Definition is_4xx_response (ev : Event) : Prop :=
  exists req resp, ev = EvDo req (inr resp) /\ is_4xx (StatusCode resp) = true.

(** Whenever [m] adds an event satisfying [F], another event follows it, and
    that event, what comes after it and the result are related by [N]. *)
Definition followed_by {A : Type} (F : Event -> Prop)
  (N : Event -> list Event -> A -> Prop) (m : M A) : Prop :=
  forall h res h',
    m h = (res, h') ->
    forall pre ev post,
      h' = (h ++ pre ++ ev :: post)%list -> F ev ->
      exists ev' post', post = ev' :: post' /\ N ev' post' res.

(** The same for every start, with the run given by [m] itself. *)
Definition then_starts {A : Type} (F : Event -> Prop)
  (N : Event -> list Event -> A -> Prop) (m : M A) : Prop :=
  forall h, exists a evs,
    runs m h a evs
    /\ forall pre ev post,
         evs = (pre ++ ev :: post)%list -> F ev ->
         exists ev' post', post = ev' :: post' /\ N ev' post' a.

(** The add-version request for [value] is sent; if it is answered 200 that
    is the end and the store succeeds. *)
Definition addVersion_attempted (pid name value : string)
  (ev : Event) (post : list Event) (res : option error) : Prop :=
  exists tok r,
    ev = EvDo (post_request tok (versionURL pid name)
                 (JSON.Marshal (versionReqBody value))) r
    /\ forall resp, r = inr resp -> StatusCode resp = StatusOK ->
                    res = None /\ post = [].

(** What leaves the create and add-version loops on a client error. *)
Definition create_out (r : error + Response) : option error + option error :=
  match r with
  | inr resp =>
      inr (Some (ErrNew ("failed to create secret: status "
                         ++ GoStrings.itoa (StatusCode resp)
                         ++ ": " ++ read_body resp)))
  | inl _ => inl None
  end.

Definition addVersion_out (r : error + Response)
  : option error + option error :=
  match r with
  | inr resp =>
      inr (Some (ErrNew ("failed to add secret version: status "
                         ++ GoStrings.itoa (StatusCode resp)
                         ++ ": " ++ read_body resp)))
  | inl _ => inl None
  end.

(** One iteration of a loop whose wait is not cut short and whose request
    [req] is answered by a response satisfying [T] ends in [continue], the
    loop variables becoming [next s resp]. *)
Definition retried_with (E : Env) {S R : Type}
  (attempt_fn : nat -> S -> M (flow S R)) (req : Request)
  (T : Response -> Prop) (next : S -> Response -> S) : Prop :=
  forall attempt s h resp,
    fst (wait_before E attempt h) = TimerFired ->
    Do E (snd (wait_before E attempt h)) req = inr resp ->
    T resp ->
    attempt_fn attempt s h
    = (Continue (next s resp),
       (snd (wait_before E attempt h) ++ [EvDo req (inr resp)])%list).

(** The error the metadata calls remember for a status other than 200. *)
Definition metadata_status_error (st : string * option error)
  (resp : Response) : string * option error :=
  (fst st, Some (ErrNew ("metadata server status "
                         ++ GoStrings.itoa (StatusCode resp)))).

(** ** Validation *)

(** [m] fails with [e] at once: for every history it returns [e] and adds no
    event, so no request is sent. *)
Definition rejected_unsent {A : Type} (err_of : A -> option error)
  (m : M A) (e : error) : Prop :=
  forall h, exists res, m h = (res, h) /\ err_of res = Some e.

Definition invalid_name : error := ErrNew "invalid secret name format".

Definition invalid_project (L : Lib) (pid : string) : error :=
  ErrNew ("invalid project ID format: " ++ Quote L pid).

(** ** The requests of [StoreInProject] *)

(** The events [StoreInProject] can add: waits, exchanges of the token
    request, and exchanges of the create and add-version requests, both
    POSTs with the bearer token and the JSON content type. *)
Definition store_event (createReqBody : JSON.value) (pid name value : string)
  (ev : Event) : Prop :=
  (exists w, ev = EvWait w)
  \/ (exists r, ev = EvDo token_request r)
  \/ (exists tok r,
        ev = EvDo (post_request tok (createURL pid name)
                     (JSON.Marshal createReqBody)) r)
  \/ (exists tok r,
        ev = EvDo (post_request tok (versionURL pid name)
                     (JSON.Marshal (versionReqBody value))) r).

(** The JSON text [{"replication":{"automatic":{}}}]. *)
Definition automatic_replication_json : string :=
  "{" ++ GoStrings.quoted "replication" ++ ":{"
  ++ GoStrings.quoted "automatic" ++ ":{}}}".

(** The JSON text [{"replication":{"automatic":"{}"}}], in which the value
    of [automatic] is a string. *)
Definition automatic_as_string_json : string :=
  "{" ++ GoStrings.quoted "replication" ++ ":{"
  ++ GoStrings.quoted "automatic" ++ ":" ++ GoStrings.quoted "{}" ++ "}}".

(** Every create request [m] sends is a POST to the create URL with the
    bearer and content-type headers, and its body is [json]. *)
Definition create_requests_carry (pid name json : string)
  (m : M (option error)) : Prop :=
  forall h res h',
    m h = (res, h') ->
    forall pre req r post,
      h' = (h ++ pre ++ EvDo req r :: post)%list ->
      URL req = createURL pid name ->
      Method req = MethodPost
      /\ Body req = json
      /\ exists tok,
           Header req = [("Authorization", "Bearer " ++ tok);
                         ("Content-Type", "application/json")].

(** ** The access token *)

(** A token response with status 200 whose body decodes to an empty
    [access_token], as [{"access_token":""}] does. *)
Definition empty_token_response (L : Lib) (resp : Response) : Prop :=
  StatusCode resp = StatusOK
  /\ DecodeAccessToken L (LimitReader (RespBody resp) maxBodySize) = inr "".

Definition empty_token_error (st : string * option error) (resp : Response)
  : string * option error :=
  (fst st, Some (ErrNew "empty access token")).

(** The environment never cuts a retry wait short. *)
Definition never_cancelled (E : Env) : Prop :=
  forall h, Select E h = TimerFired.

(** ** Counting requests *)

(** How many exchanges of requests satisfying [p] the history holds. *)
Fixpoint exchanges (p : Request -> bool) (h : list Event) : nat :=
  match h with
  | [] => O
  | EvDo req _ :: h' => ((if p req then 1 else 0) + exchanges p h')%nat
  | EvWait _ :: h' => exchanges p h'
  end.

(** How many requests were sent. *)
Definition requests (h : list Event) : nat := exchanges (fun _ => true) h.

(** ** Decoding the secret payload *)

(** A response to the access request with status 200 and a body that was
    read in full but does not decode: either the JSON decoding fails with
    [e], or it yields a [data] field that is not base64, [e] then being the
    wrapped [CorruptInputError]. *)
Definition decode_failure (L : Lib) (resp : Response) (e : error) : Prop :=
  StatusCode resp = StatusOK
  /\ fail (LimitReader (RespBody resp) maxBodySize) = None
  /\ (UnmarshalPayloadData L (read_body resp) = inl e
      \/ exists Data,
           UnmarshalPayloadData L (read_body resp) = inr Data
           /\ Base64.DecodeString Data = None
           /\ e = ErrWrap "failed to decode secret data: " ErrCorruptInput).


(** ** Server errors on create *)

(** A 5xx response whose body, as read, contains the text the store
    function looks for in the create error. *)
Definition server_error_naming_conflict (resp : Response) : Prop :=
  500 <= StatusCode resp < 600
  /\ GoStrings.Contains (read_body resp) "secret already exists" = true.

(** A 5xx response whose recorded error text, "status N: body", does not
    contain the text the store function looks for. *)
Definition server_error_without_conflict (resp : Response) : Prop :=
  500 <= StatusCode resp < 600
  /\ GoStrings.Contains
       ("status " ++ GoStrings.itoa (StatusCode resp) ++ ": "
        ++ read_body resp) "secret already exists" = false.

(** ** The attempt cap *)

(** [m] sends at most [n] requests. *)
Definition sends_at_most {A : Type} (n : nat) (m : M A) : Prop :=
  forall h, exists a evs, runs m h a evs /\ (requests evs <= n)%nat.

(** The create request of [StoreInProject]. *)
Definition create_request (tok pid name : string) (createReqBody : JSON.value)
  : Request :=
  post_request tok (createURL pid name) (JSON.Marshal createReqBody).

(** ** Budgets: requests and waits *)

(** How many retry waits the history holds. *)
Fixpoint waits (h : list Event) : nat :=
  match h with
  | [] => O
  | EvWait _ :: h' => Datatypes.S (waits h')
  | EvDo _ _ :: h' => waits h'
  end.

(** [m] sends at most [n] requests and waits at most [w] times. *)
Definition within_budget {A : Type} (n w : nat) (m : M A) : Prop :=
  forall h, exists a evs,
    runs m h a evs /\ (requests evs <= n)%nat /\ (waits evs <= w)%nat.

(** ** Histories of retried attempts *)

(** The history after [k] iterations of a loop that sends [req], none of
    which was cancelled or left the loop; the first of them has index
    [attempt] and starts after [h]. *)
Fixpoint after_attempts (E : Env) (req : Request) (k attempt : nat)
  (h : list Event) : list Event :=
  match k with
  | O => h
  | Datatypes.S k' =>
      let h1 := snd (wait_before E attempt h) in
      after_attempts E req k' (Datatypes.S attempt)
        (h1 ++ [EvDo req (Do E h1 req)])%list
  end.

(** The answer to the request of iteration [k] (counted from 0) of a loop
    that starts after [h]. *)
Definition answer_at (E : Env) (req : Request) (k : nat) (h : list Event)
  : error + Response :=
  Do E (snd (wait_before E k (after_attempts E req k 0 h))) req.

(** ** Answers on which a loop goes on, and the error it then remembers *)

(** What the read of a response body through the cap ended with. *)
Definition read_error (resp : Response) : option error :=
  snd (ReadAll (LimitReader (RespBody resp) maxBodySize)).

(** The answers [getProjectID] retries on: a transport error, a status
    other than 200, a body that cannot be read, a blank body. *)
Definition projectID_failure (L : Lib) (r : error + Response) (e : error)
  : Prop :=
  match r with
  | inl err => e = err
  | inr resp =>
      (StatusCode resp <> StatusOK
       /\ e = ErrNew ("metadata server status "
                      ++ GoStrings.itoa (StatusCode resp)))
      \/ (StatusCode resp = StatusOK /\ read_error resp = Some e)
      \/ (StatusCode resp = StatusOK /\ read_error resp = None
          /\ TrimSpace L (read_body resp) = ""
          /\ e = ErrNew "empty project ID")
  end.

(** The answers [getAccessToken] retries on: a transport error, a status
    other than 200, a body that does not decode, an empty token. *)
Definition token_failure (L : Lib) (r : error + Response) (e : error)
  : Prop :=
  match r with
  | inl err => e = err
  | inr resp =>
      (StatusCode resp <> StatusOK
       /\ e = ErrNew ("metadata server status "
                      ++ GoStrings.itoa (StatusCode resp)))
      \/ (StatusCode resp = StatusOK
          /\ DecodeAccessToken L (LimitReader (RespBody resp) maxBodySize)
             = inl e)
      \/ (StatusCode resp = StatusOK
          /\ DecodeAccessToken L (LimitReader (RespBody resp) maxBodySize)
             = inr ""
          /\ e = ErrNew "empty access token")
  end.

(** The answers the access loop retries on: a transport error, a status
    that is neither 200 nor 4xx, a body that cannot be read, a body that
    does not decode. *)
Definition access_failure (L : Lib) (r : error + Response) (e : error)
  : Prop :=
  match r with
  | inl err => e = err
  | inr resp =>
      (is_4xx (StatusCode resp) = false /\ StatusCode resp <> StatusOK
       /\ e = ErrNew ("status " ++ GoStrings.itoa (StatusCode resp)))
      \/ (StatusCode resp = StatusOK /\ read_error resp = Some e)
      \/ decode_failure L resp e
  end.

(** The answers the add-version loop retries on: a transport error, or a
    status that is neither 200 nor 4xx (201 included). *)
Definition addVersion_failure (r : error + Response) (e : error) : Prop :=
  match r with
  | inl err => e = err
  | inr resp =>
      is_4xx (StatusCode resp) = false /\ StatusCode resp <> StatusOK
      /\ e = ErrNew ("status " ++ GoStrings.itoa (StatusCode resp)
                     ++ ": " ++ read_body resp)
  end.

(** A 200 answer to the access request whose payload decodes to [v]. *)
Definition serves (L : Lib) (resp : Response) (v : string) : Prop :=
  StatusCode resp = StatusOK
  /\ read_error resp = None
  /\ exists Data,
       UnmarshalPayloadData L (read_body resp) = inr Data
       /\ Base64.DecodeString Data = Some v.

(** A 200 answer of the metadata server with the project ID [p]. *)
Definition names_project (L : Lib) (resp : Response) (p : string) : Prop :=
  StatusCode resp = StatusOK
  /\ read_error resp = None
  /\ TrimSpace L (read_body resp) = p
  /\ p <> "".

(** A 200 answer of the metadata server with the access token [t]. *)
Definition grants_token (L : Lib) (resp : Response) (t : string) : Prop :=
  StatusCode resp = StatusOK
  /\ DecodeAccessToken L (LimitReader (RespBody resp) maxBodySize) = inr t
  /\ t <> "".

(** An answer to the create request after which the store goes on to add
    a version at once: 200, 201 or 409. *)
Definition create_settled (resp : Response) : Prop :=
  StatusCode resp = StatusOK \/ StatusCode resp = StatusCreated
  \/ StatusCode resp = StatusConflict.

(** ** How the operations end

    Each way an operation can end, given by its result and by the events it
    has added to the history [h]; the last event is the one the result
    comes from. *)

(** A metadata fetch sending [req]: the value granted by a 200 answer, the
    error of the context after a wait cut short, or, after [maxRetries]
    requests, the cause of the last failure under the call's prefix. *)
Inductive metadata_outcome (req : Request)
  (granted : Response -> string -> Prop)
  (failure : error + Response -> error -> Prop) (prefix : string)
  (h : list Event) : string * option error -> list Event -> Prop :=
| metadata_granted pre resp v :
    granted resp v ->
    metadata_outcome req granted failure prefix h
      (v, None) (h ++ pre ++ [EvDo req (inr resp)])%list
| metadata_cancelled pre e :
    metadata_outcome req granted failure prefix h
      ("", Some (ErrCtx e)) (h ++ pre ++ [EvWait (CtxDone e)])%list
| metadata_gave_up pre x cause :
    failure x cause ->
    requests (pre ++ [EvDo req x]) = maxRetries ->
    metadata_outcome req granted failure prefix h
      ("", Some (ErrWrap prefix cause)) (h ++ pre ++ [EvDo req x])%list.

(** [FetchFromProject]. *)
Inductive fetch_outcome (L : Lib) (pid name : string) (h : list Event)
  : string * option error -> list Event -> Prop :=
| fetch_invalid_project :
    Regexp.MatchString projectIDRegex pid = false ->
    fetch_outcome L pid name h ("", Some (invalid_project L pid)) h
| fetch_invalid_name :
    Regexp.MatchString secretNameRegex name = false ->
    fetch_outcome L pid name h ("", Some invalid_name) h
| fetch_cancelled pre e :
    fetch_outcome L pid name h
      ("", Some (ErrCtx e)) (h ++ pre ++ [EvWait (CtxDone e)])%list
| fetch_no_token pre x cause :
    token_failure L x cause ->
    fetch_outcome L pid name h
      ("", Some (ErrWrap "failed to get access token: " cause))
      (h ++ pre ++ [EvDo token_request x])%list
| fetch_denied pre tok resp :
    is_4xx (StatusCode resp) = true ->
    fetch_outcome L pid name h
      ("", Some (ErrNew ("failed to access secret: status "
                         ++ GoStrings.itoa (StatusCode resp))))
      (h ++ pre
         ++ [EvDo (access_request tok (accessURL pid name)) (inr resp)])%list
| fetch_gave_up pre tok x cause :
    access_failure L x cause ->
    fetch_outcome L pid name h
      ("", Some (ErrWrap "failed to access secret: " cause))
      (h ++ pre ++ [EvDo (access_request tok (accessURL pid name)) x])%list
| fetch_served pre tok resp v :
    serves L resp v ->
    fetch_outcome L pid name h
      (v, None)
      (h ++ pre
         ++ [EvDo (access_request tok (accessURL pid name)) (inr resp)])%list.

(** [StoreInProject], for the create body [body]. *)
Inductive store_outcome (L : Lib) (body : JSON.value)
  (pid name value : string) (h : list Event)
  : option error -> list Event -> Prop :=
| store_invalid_project :
    Regexp.MatchString projectIDRegex pid = false ->
    store_outcome L body pid name value h (Some (invalid_project L pid)) h
| store_invalid_name :
    Regexp.MatchString secretNameRegex name = false ->
    store_outcome L body pid name value h (Some invalid_name) h
| store_cancelled pre e :
    store_outcome L body pid name value h
      (Some (ErrCtx e)) (h ++ pre ++ [EvWait (CtxDone e)])%list
| store_no_token pre x cause :
    token_failure L x cause ->
    store_outcome L body pid name value h
      (Some (ErrWrap "failed to get access token: " cause))
      (h ++ pre ++ [EvDo token_request x])%list
| store_create_denied pre tok resp :
    is_4xx (StatusCode resp) = true -> StatusCode resp <> StatusConflict ->
    store_outcome L body pid name value h
      (Some (ErrNew ("failed to create secret: status "
                     ++ GoStrings.itoa (StatusCode resp)
                     ++ ": " ++ read_body resp)))
      (h ++ pre ++ [EvDo (create_request tok pid name body) (inr resp)])%list
| store_create_failed pre tok x cause :
    GoStrings.Contains (Error cause) "secret already exists" = false ->
    store_outcome L body pid name value h
      (Some (ErrWrap "failed to create secret: " cause))
      (h ++ pre ++ [EvDo (create_request tok pid name body) x])%list
| store_version_denied pre tok resp :
    is_4xx (StatusCode resp) = true ->
    store_outcome L body pid name value h
      (Some (ErrNew ("failed to add secret version: status "
                     ++ GoStrings.itoa (StatusCode resp)
                     ++ ": " ++ read_body resp)))
      (h ++ pre
         ++ [EvDo (post_request tok (versionURL pid name)
                     (JSON.Marshal (versionReqBody value))) (inr resp)])%list
| store_version_gave_up pre tok x cause :
    addVersion_failure x cause ->
    store_outcome L body pid name value h
      (Some (ErrWrap "failed to add secret version: " cause))
      (h ++ pre
         ++ [EvDo (post_request tok (versionURL pid name)
                     (JSON.Marshal (versionReqBody value))) x])%list
| store_done pre tok resp :
    StatusCode resp = StatusOK ->
    store_outcome L body pid name value h
      None
      (h ++ pre
         ++ [EvDo (post_request tok (versionURL pid name)
                     (JSON.Marshal (versionReqBody value))) (inr resp)])%list.

(** ** The requests of [FetchFromProject] *)

(** The events [FetchFromProject] can add: waits, exchanges of the token
    request, and exchanges of the access request, a GET without body whose
    only header is the bearer token. *)
Definition fetch_event (pid name : string) (ev : Event) : Prop :=
  (exists w, ev = EvWait w)
  \/ (exists r, ev = EvDo token_request r)
  \/ (exists tok r,
        ev = EvDo (access_request tok (accessURL pid name)) r).

(** The JSON text [{"payload":{"data":"<b64>"}}]. *)
Definition payload_json (b64 : string) : string :=
  "{" ++ GoStrings.quoted "payload" ++ ":{" ++ GoStrings.quoted "data"
  ++ ":" ++ GoStrings.quoted b64 ++ "}}".

(** Every add-version request [m] sends is a POST to the add-version URL
    with the bearer and content-type headers, and its body is [json]. *)
Definition version_requests_carry (pid name json : string)
  (m : M (option error)) : Prop :=
  forall h res h',
    m h = (res, h') ->
    forall pre req r post,
      h' = (h ++ pre ++ EvDo req r :: post)%list ->
      URL req = versionURL pid name ->
      Method req = MethodPost
      /\ Body req = json
      /\ exists tok,
           Header req = [("Authorization", "Bearer " ++ tok);
                         ("Content-Type", "application/json")].

(** ** [Fetch] and [Store]: the project ID comes from the metadata server

    [inner p h1 res h'] being how the function that takes a project ID ends
    when called with [p] after [h1], the function that asks the metadata
    server first ends in one of three ways: the name is rejected and no
    event added; no project ID is obtained and the error of [getProjectID]
    is returned as it is; or the metadata server names [p] and the
    operation ends as the inner function does for [p]. *)
Inductive via_metadata {A : Type} (L : Lib) (name : string)
  (failed : error -> A)
  (inner : string -> list Event -> A -> list Event -> Prop)
  (h : list Event) : A -> list Event -> Prop :=
| via_invalid_name :
    Regexp.MatchString secretNameRegex name = false ->
    via_metadata L name failed inner h (failed invalid_name) h
| via_no_project e h' :
    metadata_outcome projectID_request (names_project L)
      (projectID_failure L) "failed to get project ID: " h
      ("", Some e) h' ->
    via_metadata L name failed inner h (failed e) h'
| via_project pre resp p res h' :
    names_project L resp p ->
    inner p (h ++ pre ++ [EvDo projectID_request (inr resp)])%list res h' ->
    via_metadata L name failed inner h res h'.

(** ** The three calls to the Secret Manager API and their URLs *)

Inductive api_call : Type := AccessCall | CreateCall | VersionCall.

Definition call_url (c : api_call) (pid name : string) : string :=
  match c with
  | AccessCall => accessURL pid name
  | CreateCall => createURL pid name
  | VersionCall => versionURL pid name
  end.

(** ** The bearer token *)

(** Every request of [m] other than the token request follows a token
    exchange that was answered by a grant, and carries the granted token
    in its [Authorization] header. *)
Definition signed_with_granted_token {A : Type} (L : Lib) (m : M A) : Prop :=
  forall h res h',
    m h = (res, h') ->
    forall pre req r post,
      h' = (h ++ pre ++ EvDo req r :: post)%list ->
      req <> token_request ->
      exists pre1 resp tok pre2,
        pre = (pre1 ++ EvDo token_request (inr resp) :: pre2)%list
        /\ grants_token L resp tok
        /\ In ("Authorization", "Bearer " ++ tok) (Header req).

(** ** Answers that end an operation with success *)

(** An answer to a request for [url] that serves the secret. *)
Definition served_from (L : Lib) (url : string) (ev : Event) : Prop :=
  exists req resp v,
    ev = EvDo req (inr resp) /\ URL req = url /\ serves L resp v.

(** The result is the value the answer serves, with a nil error. *)
Definition fetched (L : Lib) (ev : Event) (res : string * option error)
  : Prop :=
  forall req resp v,
    ev = EvDo req (inr resp) -> serves L resp v -> res = (v, None).

(** A 200 answer to a request for [url]. *)
Definition ok_from (url : string) (ev : Event) : Prop :=
  exists req resp,
    ev = EvDo req (inr resp) /\ URL req = url /\ StatusCode resp = StatusOK.

(** The store returns nil. *)
Definition stored (ev : Event) (res : option error) : Prop := res = None.

(** ** The order of the phases of [StoreInProject] *)

(** Every add-version request of [m] comes after a create request, and
    what follows it are only retry waits and further add-version
    requests. *)
Definition create_precedes_version (pid name : string)
  (m : M (option error)) : Prop :=
  forall h res h',
    m h = (res, h') ->
    forall pre req r post,
      h' = (h ++ pre ++ EvDo req r :: post)%list ->
      URL req = versionURL pid name ->
      (exists pre1 creq cr pre2,
          pre = (pre1 ++ EvDo creq cr :: pre2)%list
          /\ URL creq = createURL pid name)
      /\ Forall (fun ev => forall rq x,
                     ev = EvDo rq x -> URL rq = versionURL pid name) post.

(** ** Answers seen through the body cap *)

(** A 200 answer whose body, cut at [maxBodySize] bytes, decodes to [v]:
    the body is at least that long, or it ends without a read error. *)
Definition serves_within_cap (L : Lib) (resp : Response) (v : string)
  : Prop :=
  StatusCode resp = StatusOK
  /\ (maxBodySize <= GoStrings.len (data (RespBody resp))
      \/ fail (RespBody resp) = None)
  /\ exists Data,
       UnmarshalPayloadData L
         (GoStrings.take maxBodySize (data (RespBody resp))) = inr Data
       /\ Base64.DecodeString Data = Some v.

Definition served_within_cap_from (L : Lib) (url : string) (ev : Event)
  : Prop :=
  exists req resp v,
    ev = EvDo req (inr resp) /\ URL req = url /\ serves_within_cap L resp v.

Definition fetched_within_cap (L : Lib) (ev : Event)
  (res : string * option error) : Prop :=
  forall req resp v,
    ev = EvDo req (inr resp) -> serves_within_cap L resp v -> res = (v, None).

(** The errors of a denied create and a denied add-version, their body text
    being the first [maxBodySize] bytes of the answer's body. *)
Definition create_denied_within_cap (ev : Event) (res : option error)
  : Prop :=
  forall req resp,
    ev = EvDo req (inr resp) ->
    res = Some (ErrNew ("failed to create secret: status "
                        ++ GoStrings.itoa (StatusCode resp) ++ ": "
                        ++ GoStrings.take maxBodySize
                             (data (RespBody resp)))).

Definition addVersion_denied_within_cap (ev : Event) (res : option error)
  : Prop :=
  forall req resp,
    ev = EvDo req (inr resp) ->
    res = Some (ErrNew ("failed to add secret version: status "
                        ++ GoStrings.itoa (StatusCode resp) ++ ": "
                        ++ GoStrings.take maxBodySize
                             (data (RespBody resp)))).

(** ** Sample library functions and environments

    Simple stand-ins for the library functions, good enough for the bodies
    the examples use, and environments scripted by the request and by how
    many exchanges there have been. *)

Module Sample.

Definition is_space (c : ascii) : bool :=
  let n := N_of_ascii c in ((9 <=? n) && (n <=? 13) || (n =? 32))%N.

Fixpoint trim_left (s : string) : string :=
  match s with
  | EmptyString => EmptyString
  | String c s' => if is_space c then trim_left s' else s
  end.

Fixpoint trim_right (s : string) : string :=
  match s with
  | EmptyString => EmptyString
  | String c s' =>
      let t := trim_right s' in
      if GoStrings.is_empty t && is_space c then EmptyString else String c t
  end.

Fixpoint strip_prefix (p s : string) {struct p} : option string :=
  match p with
  | EmptyString => Some s
  | String c p' =>
      match s with
      | EmptyString => None
      | String d s' => if Ascii.eqb c d then strip_prefix p' s' else None
      end
  end.

Fixpoint until_quote (s : string) : string :=
  match s with
  | EmptyString => EmptyString
  | String c s' =>
      if Ascii.eqb c "034"%char then EmptyString
      else String c (until_quote s')
  end.

(** Reads [{"access_token":"..."}]. *)
Definition decode_token (body : Stream) : error + string :=
  match strip_prefix
          ("{" ++ GoStrings.quoted "access_token" ++ ":" ++ GoStrings.dquote)
          (data body) with
  | Some rest => inr (until_quote rest)
  | None => inl (ErrExternal "unexpected end of JSON input")
  end.

(** Reads [{"payload":{"data":"..."}}]. *)
Definition unmarshal_payload (body : string) : error + string :=
  match strip_prefix
          ("{" ++ GoStrings.quoted "payload" ++ ":{"
           ++ GoStrings.quoted "data" ++ ":" ++ GoStrings.dquote) body with
  | Some rest => inr (until_quote rest)
  | None => inl (ErrExternal "unexpected end of JSON input")
  end.

Definition lib : Lib := {|
  TrimSpace := fun s => trim_right (trim_left s);
  Quote := GoStrings.quoted;
  DecodeAccessToken := decode_token;
  UnmarshalPayloadData := unmarshal_payload
|}.

Definition response (code : Z) (body : string) : error + Response :=
  inr {| StatusCode := code; RespBody := {| data := body; fail := None |} |}.

Definition token_body (tok : string) : string :=
  "{" ++ GoStrings.quoted "access_token" ++ ":" ++ GoStrings.quoted tok ++ "}".

Definition payload_body (b64 : string) : string :=
  "{" ++ GoStrings.quoted "payload" ++ ":{" ++ GoStrings.quoted "data"
  ++ ":" ++ GoStrings.quoted b64 ++ "}}".

Definition is_metadata (req : Request) : bool :=
  GoStrings.HasPrefix (URL req) metadataURL.

Definition is_project_id (req : Request) : bool :=
  String.eqb (URL req) (metadataURL ++ "/project/project-id").

Definition is_create (req : Request) : bool :=
  GoStrings.Contains (URL req) "?secretId=".

(** A healthy metadata server: project [test-project], token
    [test-token]. *)
Definition metadata (req : Request) : error + Response :=
  if is_project_id req then response 200 "test-project"
  else response 200 (token_body "test-token").


(** The metadata server answers every request 404; no wait is cut short. *)
Definition env_metadata_404 : Env := {|
  Do := fun _ _ => response 404 "not found";
  Select := fun _ => TimerFired
|}.

(** The secret exists already: create is answered 409, add-version 200. *)
Definition env_existing_secret : Env := {|
  Do := fun h req =>
    if is_metadata req then metadata req
    else if is_create req then response 409 "error message"
    else response 200 "";
  Select := fun _ => TimerFired
|}.

(** The secret does not exist: the API answers 404. *)
Definition env_not_found : Env := {|
  Do := fun h req =>
    if is_metadata req then metadata req else response 404 "";
  Select := fun _ => TimerFired
|}.

(** Permission denied on create: the API answers 403, as in the test
    "secret creation permission denied". *)
Definition env_forbidden : Env := {|
  Do := fun h req =>
    if is_metadata req then metadata req else response 403 "error message";
  Select := fun _ => TimerFired
|}.

(** A new secret: create is answered 201, add-version 200. *)
Definition env_new_secret : Env := {|
  Do := fun h req =>
    if is_metadata req then metadata req
    else if is_create req then response 201 ""
    else response 200 "";
  Select := fun _ => TimerFired
|}.

(** The token endpoint answers 200 with [{"access_token":""}]. *)
Definition env_empty_token : Env := {|
  Do := fun _ _ => response 200 (token_body "");
  Select := fun _ => TimerFired
|}.


(** The create endpoint is down and its 503 page happens to say "secret
    already exists"; add-version is answered 200. *)
Definition env_create_down : Env := {|
  Do := fun h req =>
    if is_metadata req then metadata req
    else if is_create req
         then response 503 "upstream said: secret already exists"
         else response 200 "";
  Select := fun _ => TimerFired
|}.

(** Create fails once with 503 and then succeeds with 201; add-version is
    answered 200. *)
Definition env_create_flaky : Env := {|
  Do := fun h req =>
    if is_metadata req then metadata req
    else if is_create req then
      if (exchanges is_create h =? 0)%nat then response 503 "unavailable"
      else response 201 ""
    else response 200 "";
  Select := fun _ => TimerFired
|}.

(** The secret exists; add-version fails twice with 500 and then succeeds,
    as in the test "retry on 5xx errors during add version". *)
Definition env_addVersion_flaky : Env := {|
  Do := fun h req =>
    if is_metadata req then metadata req
    else if is_create req then response 409 ""
    else if (exchanges (fun rq => negb (is_metadata rq) && negb (is_create rq))
               h <? 2)%nat
         then response 500 ""
         else response 200 "";
  Select := fun _ => TimerFired
|}.

Definition is_api (req : Request) : bool := negb (is_metadata req).

(** The secret [secret-value] is there; the API answers 500 to the first
    [failures] requests, as in the test "retry on 5xx errors". *)
Definition env_access_flaky (failures : nat) : Env := {|
  Do := fun h req =>
    if is_metadata req then metadata req
    else if (exchanges is_api h <? failures)%nat then response 500 ""
    else response 200 (payload_body (Base64.EncodeToString "secret-value"));
  Select := fun _ => TimerFired
|}.

(** The API is down: every request is answered 503. *)
Definition env_api_down : Env := {|
  Do := fun h req =>
    if is_metadata req then metadata req else response 503 "";
  Select := fun _ => TimerFired
|}.

(** The metadata server answers the project ID request with white space
    only, as in the test "empty project ID response". *)
Definition env_blank_project : Env := {|
  Do := fun _ _ => response 200 (String " " (String "010"%char " "));
  Select := fun _ => TimerFired
|}.

(** The metadata server answers 503 to the first [failures] requests and
    is healthy afterwards. *)
Definition env_metadata_flaky (failures : nat) : Env := {|
  Do := fun h req =>
    if (requests h <? failures)%nat then response 503 ""
    else metadata req;
  Select := fun _ => TimerFired
|}.

(** The metadata server names a project whose ID does not match the
    pattern. *)
Definition env_bad_project : Env := {|
  Do := fun h req =>
    if is_project_id req then response 200 "My_Project"
    else response 200 (token_body "test-token");
  Select := fun _ => TimerFired
|}.

End Sample.

(* ================================================================== *)
(** * Part II: lemmas and theorems *)
(* ================================================================== *)

(** ** Strings *)

Module GoStringsFacts.
Import GoStrings.

Lemma append_assoc (a b c : string) : (a ++ b) ++ c = a ++ (b ++ c).
Proof. induction a as [|x a IH]; simpl; [reflexivity | now rewrite IH]. Qed.

Lemma append_inv_head (a x y : string) : a ++ x = a ++ y -> x = y.
Proof.
  induction a as [|c a IH]; simpl; intros H; [exact H|].
  injection H as H. now apply IH.
Qed.

Lemma HasPrefix_append (p s : string) : HasPrefix (p ++ s) p = true.
Proof.
  induction p as [|c p IH]; simpl; [reflexivity|].
  now rewrite Ascii.eqb_refl, IH.
Qed.

Lemma Contains_cons (c : ascii) (s sub : string) :
  Contains s sub = true -> Contains (String c s) sub = true.
Proof.
  intros H. change (Contains (String c s) sub)
    with (HasPrefix (String c s) sub || Contains s sub).
  rewrite H. apply orb_true_r.
Qed.

(** A substring of the tail is a substring of the whole. *)
Lemma Contains_append_r (a s sub : string) :
  Contains s sub = true -> Contains (a ++ s) sub = true.
Proof.
  intros H. induction a as [|c a IH]; simpl append; [exact H|].
  now apply Contains_cons.
Qed.

Lemma Contains_prefix (p s : string) : Contains (p ++ s) p = true.
Proof.
  destruct p as [|c p]; [destruct s; reflexivity|].
  change (Contains (String c p ++ s) (String c p))
    with (HasPrefix (String c p ++ s) (String c p)
          || Contains (p ++ s) (String c p)).
  now rewrite HasPrefix_append.
Qed.

Lemma is_empty_true (s : string) : is_empty s = true <-> s = "".
Proof. destruct s; simpl; split; congruence. Qed.

Lemma is_empty_false (s : string) : is_empty s = false <-> s <> "".
Proof. destruct s; simpl; split; congruence. Qed.

End GoStringsFacts.

(** ** Patterns: the matcher decides what the pattern denotes *)

Module RegexpFacts.
Import Regexp.

Lemma append_nil_r (s : string) : s ++ "" = s.
Proof. induction s as [|c s IH]; simpl; [reflexivity | now rewrite IH]. Qed.

Lemma append_eq_nil (s1 s2 : string) : s1 ++ s2 = "" -> s1 = "" /\ s2 = "".
Proof. destruct s1; simpl; [auto | discriminate]. Qed.

Lemma append_eq_cons (s1 s2 : string) (c : ascii) (s : string) :
  s1 ++ s2 = String c s ->
  (s1 = "" /\ s2 = String c s)
  \/ (exists s1', s1 = String c s1' /\ s = s1' ++ s2).
Proof.
  destruct s1 as [|d s1]; simpl; intros H; [now left|].
  injection H as -> <-. right. now exists s1.
Qed.

Lemma length_append (s1 s2 : string) :
  String.length (s1 ++ s2) = (String.length s1 + String.length s2)%nat.
Proof. induction s1 as [|c s1 IH]; simpl; [reflexivity | now rewrite IH]. Qed.

Lemma all_in_append cs (s1 s2 : string) :
  all_in cs (s1 ++ s2) = all_in cs s1 && all_in cs s2.
Proof.
  induction s1 as [|c s1 IH]; simpl; [reflexivity|].
  now rewrite IH, andb_assoc.
Qed.

Lemma power_nil (l : string -> Prop) (k : nat) : l "" -> power l k "".
Proof.
  intros Hl. induction k as [|k IH]; simpl; [reflexivity|].
  exists "", "". auto.
Qed.

(** With the empty string in [l], more factors are no restriction. *)
Lemma power_pad (l : string -> Prop) (j k : nat) (s : string) :
  l "" -> (j <= k)%nat -> power l j s -> power l k s.
Proof.
  intros Hl Hjk Hp. induction Hjk as [|k Hjk IH]; [exact Hp|].
  simpl. exists "", s. auto.
Qed.

(** The first non-empty factor of a non-empty member of a power. *)
Lemma power_cons (l : string -> Prop) (k : nat) (c : ascii) (s : string) :
  power l k (String c s) ->
  exists s1 s2 j,
    s = s1 ++ s2 /\ l (String c s1) /\ power l j s2
    /\ (Datatypes.S j <= k)%nat /\ (Datatypes.S j = k \/ l "").
Proof.
  induction k as [|k IH]; simpl; [discriminate|].
  intros (s1 & s2 & Heq & Hl & Hp). symmetry in Heq.
  destruct (append_eq_cons _ _ _ _ Heq) as [[-> ->]|(s1' & -> & ->)].
  - destruct (IH Hp) as (t1 & t2 & j & -> & Ht & Hpj & Hle & _).
    exists t1, t2, j. repeat split; auto.
  - exists s1', s2, k. repeat split; auto.
Qed.

Lemma nullable_spec (r : regex) : nullable r = true <-> lang r "".
Proof.
  induction r as [| |cs|r1 IH1 r2 IH2|r1 IH1 r2 IH2|r IH m n]; simpl.
  - split; [discriminate | contradiction].
  - now split.
  - split; [discriminate | intros (c & H & _); discriminate].
  - rewrite andb_true_iff, IH1, IH2. split.
    + intros [H1 H2]. now exists "", "".
    + intros (s1 & s2 & Heq & H1 & H2). symmetry in Heq.
      apply append_eq_nil in Heq as [-> ->]. now split.
  - rewrite orb_true_iff, IH1, IH2. reflexivity.
  - rewrite andb_true_iff, orb_true_iff, Nat.leb_le, Nat.eqb_eq, IH. split.
    + intros [Hle [->|Hr]].
      * exists O. split; [lia | reflexivity].
      * exists m. split; [lia | now apply power_nil].
    + intros (k & Hk & Hp). split; [lia|].
      destruct m as [|m]; [now left|right].
      destruct k as [|k]; [lia|]. simpl in Hp.
      destruct Hp as (s1 & s2 & Heq & Hl & _). symmetry in Heq.
      now apply append_eq_nil in Heq as [-> _].
Qed.

Lemma cat_spec (r1 r2 : regex) (s : string) :
  lang (cat r1 r2) s <-> lang (Cat r1 r2) s.
Proof.
  destruct r1; simpl; try reflexivity.
  - split; [contradiction | intros (s1 & s2 & _ & [] & _)].
  - split.
    + intros H. now exists "", s.
    + intros (s1 & s2 & -> & -> & H). exact H.
Qed.

Lemma alt_spec (r1 r2 : regex) (s : string) :
  lang (alt r1 r2) s <-> lang r1 s \/ lang r2 s.
Proof. destruct r1, r2; simpl; tauto. Qed.

(** The derivative denotes the strings that complete [c]. *)
Lemma deriv_spec (r : regex) :
  forall c s, lang (deriv c r) s <-> lang r (String c s).
Proof.
  induction r as [| |cs|r1 IH1 r2 IH2|r1 IH1 r2 IH2|r IH m n]; intros c s.
  - reflexivity.
  - simpl. split; [contradiction | discriminate].
  - simpl. destruct (in_class c cs) eqn:Hc; simpl.
    + split.
      * intros ->. now exists c.
      * intros (c' & Heq & _). now injection Heq.
    + split; [contradiction|].
      intros (c' & Heq & Hc'). injection Heq as <- _. congruence.
  - cbn [deriv]. rewrite alt_spec, cat_spec. cbn [lang]. split.
    + intros [(s1 & s2 & -> & H1 & H2)|H].
      * exists (String c s1), s2. rewrite <- IH1. auto.
      * destruct (nullable r1) eqn:Hn; [|contradiction].
        exists "", (String c s). rewrite <- nullable_spec, <- IH2. auto.
    + intros (s1 & s2 & Heq & H1 & H2). symmetry in Heq.
      destruct (append_eq_cons _ _ _ _ Heq) as [[-> ->]|(s1' & -> & ->)].
      * right. apply nullable_spec in H1. rewrite H1. now apply IH2.
      * left. exists s1', s2. rewrite IH1. auto.
  - cbn [deriv]. rewrite alt_spec. cbn [lang]. now rewrite IH1, IH2.
  - cbn [deriv]. destruct n as [|n].
    + simpl. split; [contradiction|].
      intros (k & Hk & Hp). assert (k = O) by lia. subst k. discriminate Hp.
    + rewrite cat_spec. cbn [lang]. split.
      * intros (s1 & s2 & -> & H1 & k & Hk & Hp).
        exists (Datatypes.S k). split; [lia|]. simpl.
        exists (String c s1), s2. rewrite <- IH. auto.
      * intros (k & Hk & Hp).
        destruct (power_cons _ _ _ _ Hp)
          as (s1 & s2 & j & -> & Hl & Hpj & Hle & Hj).
        exists s1, s2. split; [reflexivity|]. split; [now apply IH|].
        exists (Nat.pred k). split; [lia|].
        destruct Hj as [<-|Hnil]; [exact Hpj|].
        apply (power_pad _ j); [exact Hnil | lia | exact Hpj].
Qed.

Lemma matches_spec (s : string) :
  forall r, matches r s = true <-> lang r s.
Proof.
  induction s as [|c s IH]; intros r; simpl.
  - apply nullable_spec.
  - rewrite IH. apply deriv_spec.
Qed.

(** A power of a class: all bytes in the class, as many as factors. *)
Lemma power_class cs (k : nat) :
  forall s, power (lang (Class cs)) k s
            <-> String.length s = k /\ all_in cs s = true.
Proof.
  induction k as [|k IH]; intros s; simpl.
  - split.
    + intros ->. now split.
    + intros [H _]. now destruct s.
  - split.
    + intros (s1 & s2 & -> & (c & -> & Hc) & Hp).
      apply IH in Hp as [<- Ha]. simpl. now rewrite Hc, Ha.
    + intros [Hlen Ha]. destruct s as [|c s]; [discriminate|].
      simpl in Ha. apply andb_true_iff in Ha as [Hc Ha].
      exists (String c ""), s. split; [reflexivity|].
      split; [now exists c|]. apply IH. split; [|exact Ha].
      simpl in Hlen. lia.
Qed.

Lemma secretNameRegex_spec (s : string) :
  MatchString secretNameRegex s = true <-> valid_secret_name s.
Proof.
  unfold MatchString. rewrite matches_spec.
  unfold secretNameRegex, valid_secret_name. cbn [lang]. split.
  - intros (k & Hk & Hp). apply power_class in Hp as [<- Ha]. now split.
  - intros [Hlen Ha]. exists (String.length s). split; [exact Hlen|].
    apply power_class. now split.
Qed.

Lemma projectIDRegex_spec (s : string) :
  MatchString projectIDRegex s = true <-> valid_project_id s.
Proof.
  unfold MatchString. rewrite matches_spec.
  unfold projectIDRegex, valid_project_id. cbn [lang]. split.
  - intros (s1 & s2 & -> & (c & -> & Hc) & s3 & s4 & -> & (k & Hk & Hp)
            & (l & -> & Hl)).
    apply power_class in Hp as [<- Ha].
    exists c, s3, l. repeat split; auto; lia.
  - intros (c & mid & l & -> & Hc & Hlen & Ha & Hl).
    exists (String c ""), (mid ++ String l ""). split; [reflexivity|].
    split; [now exists c|].
    exists mid, (String l ""). split; [reflexivity|]. split.
    + exists (String.length mid). split; [exact Hlen|].
      apply power_class. now split.
    + now exists l.
Qed.

End RegexpFacts.

(** ** Base64: decoding inverts encoding *)

Module Base64Facts.
Import Base64.

Lemma uint_of_byte_range (c : ascii) : 0 <= uint_of_byte c < 256.
Proof.
  unfold uint_of_byte. pose proof (N_ascii_bounded c). lia.
Qed.

Lemma byte_of_uint_of_byte (c : ascii) : byte_of_uint (uint_of_byte c) = c.
Proof.
  unfold byte_of_uint. pose proof (uint_of_byte_range c) as H.
  rewrite Z.mod_small by exact H.
  unfold uint_of_byte. rewrite N2Z.id. apply ascii_N_embedding.
Qed.

(** Disjoint bit ranges: or-ing a value below [2^n] into a value shifted
    left by [n] adds them. *)
Lemma lor_shiftl_add (hi lo n : Z) :
  0 <= n -> 0 <= lo < 2 ^ n ->
  Z.lor (Z.shiftl hi n) lo = hi * 2 ^ n + lo.
Proof.
  intros Hn Hlo.
  assert (Hdisj : Z.land (Z.shiftl hi n) lo = 0).
  { apply Z.bits_inj'. intros i Hi.
    rewrite Z.land_spec, Z.bits_0.
    destruct (Z.ltb_spec i n) as [Hlt|Hge].
    - rewrite Z.shiftl_spec_low by exact Hlt. reflexivity.
    - replace lo with (lo mod 2 ^ n) by (apply Z.mod_small; exact Hlo).
      rewrite Z.mod_pow2_bits_high by lia. apply andb_false_r. }
  rewrite <- Z.lxor_lor by exact Hdisj.
  rewrite <- Z.add_nocarry_lxor by exact Hdisj.
  now rewrite Z.shiftl_mul_pow2 by exact Hn.
Qed.

Lemma land_63 (x : Z) : Z.land x 63 = x mod 64.
Proof. change 63 with (Z.ones 6). now rewrite Z.land_ones by lia. Qed.

Lemma pack3_arith (a b c : Z) :
  0 <= a < 256 -> 0 <= b < 256 -> 0 <= c < 256 ->
  pack3 a b c = a * 65536 + b * 256 + c.
Proof.
  intros Ha Hb Hc. unfold pack3.
  replace (Z.shiftl a 16) with (Z.shiftl (Z.shiftl a 8) 8)
    by (rewrite Z.shiftl_shiftl by lia; reflexivity).
  rewrite <- Z.shiftl_lor.
  rewrite (lor_shiftl_add a b 8) by (simpl; lia).
  rewrite lor_shiftl_add by (simpl; lia).
  change (2 ^ 8) with 256. lia.
Qed.

Lemma pack4_arith (d0 d1 d2 d3 : Z) :
  0 <= d0 < 64 -> 0 <= d1 < 64 -> 0 <= d2 < 64 -> 0 <= d3 < 64 ->
  pack4 d0 d1 d2 d3 = d0 * 262144 + d1 * 4096 + d2 * 64 + d3.
Proof.
  intros H0 H1 H2 H3. unfold pack4.
  replace (Z.shiftl d0 18) with (Z.shiftl (Z.shiftl (Z.shiftl d0 6) 6) 6)
    by (rewrite !Z.shiftl_shiftl by lia; reflexivity).
  replace (Z.shiftl d1 12) with (Z.shiftl (Z.shiftl d1 6) 6)
    by (rewrite !Z.shiftl_shiftl by lia; reflexivity).
  rewrite <- !Z.shiftl_lor.
  rewrite (lor_shiftl_add d0 d1 6) by (simpl; lia).
  rewrite (lor_shiftl_add _ d2 6) by (simpl; lia).
  rewrite lor_shiftl_add by (simpl; lia).
  change (2 ^ 6) with 64. lia.
Qed.

Lemma pack3_0_r (a b : Z) :
  Z.lor (Z.shiftl a 16) (Z.shiftl b 8) = pack3 a b 0.
Proof. unfold pack3. now rewrite Z.lor_0_r. Qed.

Lemma pack3_0_0 (a : Z) : Z.shiftl a 16 = pack3 a 0 0.
Proof. unfold pack3. now rewrite Z.shiftl_0_l, !Z.lor_0_r. Qed.

(** The table lookups invert each other on 6-bit indices. *)
Lemma decodeMap_encode_char (v : Z) :
  0 <= v < 64 -> decodeMap (encode_char v) = Some v.
Proof.
  intros Hv.
  assert (Hall : forallb
            (fun n => match decodeMap (encode_char (Z.of_nat n)) with
                      | Some w => w =? Z.of_nat n
                      | None => false
                      end) (seq 0 64) = true) by (vm_compute; reflexivity).
  rewrite forallb_forall in Hall.
  specialize (Hall (Z.to_nat v)).
  rewrite Z2Nat.id in Hall by lia.
  assert (Hin : In (Z.to_nat v) (seq 0 64)) by (apply in_seq; lia).
  specialize (Hall Hin).
  destruct (decodeMap (encode_char v)) as [w|]; [|discriminate].
  apply Z.eqb_eq in Hall. now subst.
Qed.

Lemma decodeMap_sextet (val shift : Z) :
  0 <= shift ->
  decodeMap (sextet val shift) = Some ((val / 2 ^ shift) mod 64).
Proof.
  intros Hs. unfold sextet.
  rewrite land_63, Z.shiftr_div_pow2 by exact Hs.
  apply decodeMap_encode_char. apply Z.mod_pos_bound. lia.
Qed.

Lemma decodeMap_padChar : decodeMap padChar = None.
Proof. reflexivity. Qed.

(** A character of the alphabet is not a line break. *)
Lemma alphabet_not_newline (c : ascii) (v : Z) :
  decodeMap c = Some v -> is_newline c = false.
Proof.
  intros H. unfold is_newline.
  destruct (Ascii.eqb_spec c "010"%char) as [->|_]; [discriminate H|].
  destruct (Ascii.eqb_spec c "013"%char) as [->|_]; [discriminate H|].
  reflexivity.
Qed.

Lemma sextet_not_newline (val shift : Z) :
  0 <= shift -> is_newline (sextet val shift) = false.
Proof.
  intros Hs. eapply alphabet_not_newline. now apply decodeMap_sextet.
Qed.

(** Induction on strings three bytes at a time, the step of the encoder. *)
Lemma string_ind3 (P : string -> Prop) :
  P "" ->
  (forall a, P (String a "")) ->
  (forall a b, P (String a (String b ""))) ->
  (forall a b c rest, P rest -> P (String a (String b (String c rest)))) ->
  forall s, P s.
Proof.
  intros H0 H1 H2 H3.
  assert (H : forall s, P s /\ (forall a, P (String a s))
                        /\ (forall a b, P (String a (String b s)))).
  { induction s as [|c s [IH0 [IH1 IH2]]].
    - repeat split; auto.
    - repeat split; auto. }
  intros s. apply H.
Qed.

Lemma strip_newlines_encoded (s : string) :
  strip_newlines (EncodeToString s) = EncodeToString s.
Proof.
  induction s as [|a|a b|a b c rest IH] using string_ind3.
  - reflexivity.
  - cbn [EncodeToString strip_newlines].
    rewrite !sextet_not_newline by lia. reflexivity.
  - cbn [EncodeToString strip_newlines].
    rewrite !sextet_not_newline by lia. reflexivity.
  - cbn [EncodeToString strip_newlines].
    rewrite !sextet_not_newline by lia. now rewrite IH.
Qed.

(** Cutting a 24-bit value into sextets and packing them again. *)
Lemma repack (val : Z) :
  0 <= val < 16777216 ->
  pack4 ((val / 2 ^ 18) mod 64) ((val / 2 ^ 12) mod 64)
        ((val / 2 ^ 6) mod 64) ((val / 2 ^ 0) mod 64) = val.
Proof.
  intros Hv.
  rewrite pack4_arith by (apply Z.mod_pos_bound; lia).
  change (2 ^ 18) with 262144. change (2 ^ 12) with 4096.
  change (2 ^ 6) with 64. change (2 ^ 0) with 1.
  Z.div_mod_to_equations. lia.
Qed.

Lemma repack3 (val : Z) :
  0 <= val < 16777216 -> val mod 64 = 0 ->
  pack4 ((val / 2 ^ 18) mod 64) ((val / 2 ^ 12) mod 64)
        ((val / 2 ^ 6) mod 64) 0 = val.
Proof.
  intros Hv H0. etransitivity; [|apply (repack val Hv)].
  f_equal. change (2 ^ 0) with 1. now rewrite Z.div_1_r, H0.
Qed.

Lemma repack2 (val : Z) :
  0 <= val < 16777216 -> val mod 4096 = 0 ->
  pack4 ((val / 2 ^ 18) mod 64) ((val / 2 ^ 12) mod 64) 0 0 = val.
Proof.
  intros Hv H0.
  assert (H64 : val mod 64 = 0) by (Z.div_mod_to_equations; lia).
  etransitivity; [|apply (repack3 val Hv H64)].
  f_equal. change (2 ^ 6) with 64. Z.div_mod_to_equations. lia.
Qed.

Lemma byte_of_uint_eq (v : Z) (c : ascii) :
  v mod 256 = uint_of_byte c -> byte_of_uint v = c.
Proof.
  intros H. unfold byte_of_uint. rewrite H. unfold uint_of_byte.
  rewrite N2Z.id. apply ascii_N_embedding.
Qed.

Lemma unpack3 (x y z : Z) :
  0 <= x < 256 -> 0 <= y < 256 -> 0 <= z < 256 ->
  0 <= pack3 x y z < 16777216
  /\ Z.shiftr (pack3 x y z) 16 mod 256 = x
  /\ Z.shiftr (pack3 x y z) 8 mod 256 = y
  /\ Z.shiftr (pack3 x y z) 0 mod 256 = z.
Proof.
  intros Hx Hy Hz. rewrite pack3_arith by assumption.
  rewrite !Z.shiftr_div_pow2 by lia.
  change (2 ^ 16) with 65536. change (2 ^ 8) with 256.
  change (2 ^ 0) with 1.
  repeat split; Z.div_mod_to_equations; lia.
Qed.

Lemma pack3_zero_low (a b : ascii) :
  pack3 (uint_of_byte a) (uint_of_byte b) 0 mod 64 = 0.
Proof.
  pose proof (uint_of_byte_range a). pose proof (uint_of_byte_range b).
  rewrite pack3_arith by lia. Z.div_mod_to_equations. lia.
Qed.

Lemma pack3_zero_mid (a : ascii) :
  pack3 (uint_of_byte a) 0 0 mod 4096 = 0.
Proof.
  pose proof (uint_of_byte_range a).
  rewrite pack3_arith by lia. Z.div_mod_to_equations. lia.
Qed.

(** Decoding what the encoder wrote, when there are no line breaks to
    skip. *)
Lemma decodeQuanta_encoded (s : string) :
  decodeQuanta (EncodeToString s) = Some s.
Proof.
  induction s as [|a|a b|a b c rest IH] using string_ind3.
  - reflexivity.
  - cbn [EncodeToString decodeQuanta]. rewrite pack3_0_0.
    rewrite !decodeMap_sextet by lia. rewrite decodeMap_padChar.
    rewrite Ascii.eqb_refl. cbn [is_empty andb].
    pose proof (uint_of_byte_range a) as Ha.
    destruct (unpack3 (uint_of_byte a) 0 0) as (Hv & H16 & _); try lia.
    rewrite repack2 by (exact Hv || apply pack3_zero_mid).
    now rewrite (byte_of_uint_eq _ a H16).
  - cbn [EncodeToString decodeQuanta]. rewrite pack3_0_r.
    rewrite !decodeMap_sextet by lia. rewrite decodeMap_padChar.
    rewrite Ascii.eqb_refl. cbn [is_empty andb].
    pose proof (uint_of_byte_range a) as Ha.
    pose proof (uint_of_byte_range b) as Hb.
    destruct (unpack3 (uint_of_byte a) (uint_of_byte b) 0)
      as (Hv & H16 & H8 & _); try lia.
    rewrite repack3 by (exact Hv || apply pack3_zero_low).
    now rewrite (byte_of_uint_eq _ a H16), (byte_of_uint_eq _ b H8).
  - cbn [EncodeToString decodeQuanta].
    rewrite !decodeMap_sextet by lia. rewrite IH.
    destruct (unpack3 (uint_of_byte a) (uint_of_byte b) (uint_of_byte c))
      as (Hv & H16 & H8 & H0); try apply uint_of_byte_range.
    rewrite repack by exact Hv.
    now rewrite (byte_of_uint_eq _ a H16), (byte_of_uint_eq _ b H8),
      (byte_of_uint_eq _ c H0).
Qed.

Lemma DecodeString_EncodeToString (s : string) :
  DecodeString (EncodeToString s) = Some s.
Proof.
  unfold DecodeString. rewrite strip_newlines_encoded.
  apply decodeQuanta_encoded.
Qed.

End Base64Facts.

(** ** The monad: runs, and how trace properties compose *)

Section MonadFacts.

Lemma runs_ret {A : Type} (a : A) (h : list Event) : runs (ret a) h a [].
Proof. unfold runs, ret. now rewrite app_nil_r. Qed.

Lemma runs_bind {A B : Type} (m : M A) (k : A -> M B) h a e1 b e2 :
  runs m h a e1 -> runs (k a) (h ++ e1) b e2 ->
  runs (bind m k) h b (e1 ++ e2).
Proof.
  unfold runs, bind. intros -> ->. now rewrite app_assoc.
Qed.

Lemma runs_inj {A : Type} (m : M A) h a e a' e' :
  runs m h a e -> runs m h a' e' -> a = a' /\ e = e'.
Proof.
  unfold runs. intros H H'. rewrite H in H'. injection H' as -> H'.
  split; [reflexivity|]. now apply app_inv_head in H'.
Qed.

(** Where an element of a concatenation lies. *)
Lemma split_app {X : Type} (l1 l2 pre post : list X) (x : X) :
  (l1 ++ l2 = pre ++ x :: post)%list ->
  (exists post1, l1 = pre ++ x :: post1 /\ post = post1 ++ l2)%list
  \/ (exists pre2, l2 = pre2 ++ x :: post /\ pre = l1 ++ pre2)%list.
Proof.
  revert pre. induction l1 as [|y l1 IH]; intros pre H.
  - right. exists pre. now split.
  - destruct pre as [|z pre]; simpl in H.
    + injection H as -> H. left. exists l1. now split.
    + injection H as -> H. destruct (IH _ H) as [(p1 & -> & ->)|(p2 & -> & ->)].
      * left. exists p1. now split.
      * right. exists p2. now split.
Qed.

Lemma all_events_ret {A : Type} (P : Event -> Prop) (a : A) :
  all_events P (ret a).
Proof. intros h. exists a, []. split; [apply runs_ret | constructor]. Qed.

Lemma all_events_bind {A B : Type} (P : Event -> Prop)
  (m : M A) (k : A -> M B) :
  all_events P m -> (forall a, all_events P (k a)) ->
  all_events P (bind m k).
Proof.
  intros Hm Hk h.
  destruct (Hm h) as (a & e1 & R1 & F1).
  destruct (Hk a (h ++ e1)%list) as (b & e2 & R2 & F2).
  exists b, (e1 ++ e2)%list. split.
  - eapply runs_bind; eassumption.
  - apply Forall_app. now split.
Qed.

Lemma all_events_weaken {A : Type} (P P' : Event -> Prop) (m : M A) :
  (forall ev, P ev -> P' ev) -> all_events P m -> all_events P' m.
Proof.
  intros HP Hm h. destruct (Hm h) as (a & evs & R & F).
  exists a, evs. split; [exact R|]. eapply Forall_impl; eassumption.
Qed.

Lemma all_events_for {S R : Type} (P : Event -> Prop)
  (body : nat -> S -> M (flow S R)) :
  (forall a s, all_events P (body a s)) ->
  forall n a s, all_events P (for_range_from n a body s).
Proof.
  intros Hb. induction n as [|n IH]; intros a s; simpl.
  - apply all_events_ret.
  - apply all_events_bind; [apply Hb|].
    intros [s'|s'|r]; [apply IH | apply all_events_ret | apply all_events_ret].
Qed.

Lemma stops_at_ret {A : Type} F (Q : Event -> A -> Prop) (a : A) :
  stops_at F Q (ret a).
Proof.
  intros h. exists a, []. split; [apply runs_ret|].
  intros pre ev post H. now destruct pre.
Qed.

Lemma stops_at_never {A : Type} F (Q : Event -> A -> Prop) (m : M A) :
  all_events (fun ev => ~ F ev) m -> stops_at F Q m.
Proof.
  intros Hm h. destruct (Hm h) as (a & evs & R & Hall).
  exists a, evs. split; [exact R|].
  intros pre ev post -> HF. exfalso.
  rewrite Forall_forall in Hall. apply (Hall ev); [|exact HF].
  apply in_elt.
Qed.

Lemma stops_at_weaken {A : Type} F (Q Q' : Event -> A -> Prop) (m : M A) :
  (forall ev a, F ev -> Q ev a -> Q' ev a) ->
  stops_at F Q m -> stops_at F Q' m.
Proof.
  intros HQ Hm h. destruct (Hm h) as (a & evs & R & Hlast).
  exists a, evs. split; [exact R|].
  intros pre ev post Hs HF. destruct (Hlast _ _ _ Hs HF). auto.
Qed.

(** Sequencing: after an event of [F] in [m], the continuation must add
    nothing and carry [Q1] over to [Q]. *)
Lemma stops_at_bind {A B : Type} F (Q1 : Event -> A -> Prop)
  (Q : Event -> B -> Prop) (m : M A) (k : A -> M B) :
  stops_at F Q1 m ->
  (forall a, stops_at F Q (k a)) ->
  (forall ev a, F ev -> Q1 ev a ->
                forall h, exists b, k a h = (b, h) /\ Q ev b) ->
  stops_at F Q (bind m k).
Proof.
  intros Hm Hk Hsilent h.
  destruct (Hm h) as (a & e1 & R1 & L1).
  destruct (Hk a (h ++ e1)%list) as (b & e2 & R2 & L2).
  exists b, (e1 ++ e2)%list. split; [eapply runs_bind; eassumption|].
  intros pre ev post Hs HF.
  destruct (split_app _ _ _ _ _ Hs) as [(p1 & He1 & ->)|(p2 & He2 & ->)].
  - destruct (L1 _ _ _ He1 HF) as [-> HQ1].
    destruct (Hsilent ev a HF HQ1 (h ++ e1)%list) as (b' & Hb' & HQ).
    unfold runs in R2. rewrite Hb' in R2. injection R2 as -> R2.
    rewrite <- (app_nil_r (h ++ e1)) in R2 at 1.
    apply app_inv_head in R2. subst e2. now split.
  - apply (L2 _ _ _ He2 HF).
Qed.

(** The loop: an event of [F] in an iteration must end the loop. *)
Lemma stops_at_for {S R : Type} F (Q : Event -> S + R -> Prop)
  (body : nat -> S -> M (flow S R)) :
  (forall a s,
      stops_at F (fun ev f => exists out, exit_of f = Some out /\ Q ev out)
        (body a s)) ->
  forall n a s, stops_at F Q (for_range_from n a body s).
Proof.
  intros Hb. induction n as [|n IH]; intros a s; simpl.
  - apply stops_at_ret.
  - eapply stops_at_bind; [apply Hb| |].
    + intros [s'|s'|r]; [apply IH | apply stops_at_ret | apply stops_at_ret].
    + intros ev f HF (out & Hout & HQ) h.
      destruct f as [s'|s'|r]; simpl in Hout; [discriminate| |];
        injection Hout as <-; eexists; split; try reflexivity; exact HQ.
Qed.

End MonadFacts.

(** ** Every loop body is an instance of the retrying executor *)

Section LoopsAreExecutors.

Variable L : Lib.
Variable E : Env.

Ltac by_cases :=
  repeat match goal with
    | |- context [match ?x with _ => _ end] =>
        lazymatch x with
        | context [match _ with _ => _ end] => fail
        | _ => destruct x eqn:?
        end
    end; reflexivity.

Lemma NewRequest_get url body :
  NewRequestWithContext MethodGet url body
  = inr {| Method := MethodGet; URL := url; Header := []; Body := body |}.
Proof. reflexivity. Qed.

Lemma NewRequest_post url body :
  NewRequestWithContext MethodPost url body
  = inr {| Method := MethodPost; URL := url; Header := []; Body := body |}.
Proof. reflexivity. Qed.

Lemma getProjectID_attempt_executor attempt st h :
  getProjectID_attempt L E attempt st h
  = retry_attempt E projectID_request cancelled_fetch
      (classify_projectID L) attempt st h.
Proof.
  destruct st as [p lastErr].
  unfold getProjectID_attempt, retry_attempt, classify_projectID, bind, ret.
  rewrite NewRequest_get.
  change (Header_Set _ _ _) with projectID_request.
  by_cases.
Qed.

Lemma getAccessToken_attempt_executor attempt st h :
  getAccessToken_attempt L E attempt st h
  = retry_attempt E token_request cancelled_fetch
      (classify_token L) attempt st h.
Proof.
  destruct st as [t lastErr].
  unfold getAccessToken_attempt, retry_attempt, classify_token, bind, ret.
  rewrite NewRequest_get.
  change (Header_Set _ _ _) with token_request.
  by_cases.
Qed.

Lemma access_attempt_executor t url attempt lastErr h :
  access_attempt L E t url attempt lastErr h
  = retry_attempt E (access_request t url) cancelled_fetch
      (classify_access L) attempt lastErr h.
Proof.
  unfold access_attempt, retry_attempt, classify_access, bind, ret.
  rewrite NewRequest_get.
  change (Header_Set _ _ _) with (access_request t url).
  by_cases.
Qed.

Lemma create_attempt_executor tok url body attempt createErr h :
  create_attempt E tok url body attempt createErr h
  = retry_attempt E (post_request tok url body) cancelled_store
      classify_create attempt createErr h.
Proof.
  unfold create_attempt, retry_attempt, classify_create, bind, ret.
  rewrite NewRequest_post.
  change (Header_Set _ _ _) with (post_request tok url body).
  by_cases.
Qed.

Lemma addVersion_attempt_executor tok url body attempt lastErr h :
  addVersion_attempt E tok url body attempt lastErr h
  = retry_attempt E (post_request tok url body) cancelled_store
      classify_addVersion attempt lastErr h.
Proof.
  unfold addVersion_attempt, retry_attempt, classify_addVersion, bind, ret.
  rewrite NewRequest_post.
  change (Header_Set _ _ _) with (post_request tok url body).
  by_cases.
Qed.

End LoopsAreExecutors.

(** ** What holds of every loop built from the executor *)

Section ExecutorFacts.

Variable E : Env.

Lemma runs_Do (req : Request) (h : list Event) :
  runs (httpClient_Do E req) h (Do E h req) [EvDo req (Do E h req)].
Proof. reflexivity. Qed.

Lemma runs_select (h : list Event) :
  runs (select_retryDelay E) h (Select E h) [EvWait (Select E h)].
Proof. reflexivity. Qed.

Lemma stops_at_single {A : Type} F (m : M A) (mk : A -> Event) :
  (forall h, exists a, runs m h a [mk a]) ->
  stops_at F (fun ev a => ev = mk a) m.
Proof.
  intros Hm h. destruct (Hm h) as (a & Ha). exists a, [mk a].
  split; [exact Ha|]. intros pre ev post Hs _.
  destruct pre as [|x [|y pre]]; simpl in Hs; try discriminate.
  injection Hs as -> <-. now split.
Qed.

Lemma stops_at_Do F (req : Request) :
  stops_at F (fun ev r => ev = EvDo req r) (httpClient_Do E req).
Proof.
  apply (stops_at_single F _ (EvDo req)). intros h.
  eexists. apply runs_Do.
Qed.

(** The wait adds at most one event, the outcome of the [select]; before
    the first attempt it adds none and yields [TimerFired]. *)
Lemma stops_at_wait F (attempt : nat) :
  stops_at F (fun ev w => ev = EvWait w) (wait_before E attempt).
Proof.
  unfold wait_before. destruct (0 <? attempt)%nat.
  - apply (stops_at_single F _ EvWait). intros h.
    eexists. apply runs_select.
  - apply stops_at_ret.
Qed.

Lemma all_events_Do (P : Event -> Prop) (req : Request) :
  (forall r, P (EvDo req r)) -> all_events P (httpClient_Do E req).
Proof.
  intros HP h. eexists _, _. split; [apply runs_Do|]. repeat constructor.
  apply HP.
Qed.

Lemma all_events_wait (P : Event -> Prop) (attempt : nat) :
  (forall w, P (EvWait w)) -> all_events P (wait_before E attempt).
Proof.
  intros HP. unfold wait_before. destruct (0 <? attempt)%nat.
  - intros h. eexists _, _. split; [apply runs_select|].
    repeat constructor. apply HP.
  - apply all_events_ret.
Qed.

Context {S R : Type}.
Variable req : Request.
Variable cancelled : ctx_error -> R.
Variable classify : S -> error + Response -> flow S R.

Let body := retry_attempt E req cancelled classify.

(** The loop adds only waits and exchanges of its own request. *)
Lemma executor_events (P : Event -> Prop) :
  (forall w, P (EvWait w)) -> (forall r, P (EvDo req r)) ->
  forall n a s, all_events P (for_range_from n a body s).
Proof.
  intros Hw Hd. apply all_events_for. intros a s.
  apply all_events_bind; [now apply all_events_wait|].
  intros [|e]; [|apply all_events_ret].
  apply all_events_bind; [now apply all_events_Do|].
  intros r. apply all_events_ret.
Qed.


(** An outcome of the exchange on which the decision is to leave the
    loop, whatever the loop variables hold, is the last event. *)
Lemma executor_verdict (T : Request -> error + Response -> Prop)
  (out : error + Response -> S + R) :
  (forall s r, T req r -> exit_of (classify s r) = Some (out r)) ->
  forall n a s,
    stops_at (fun ev => exists rq r, ev = EvDo rq r /\ T rq r)
      (fun ev o => forall rq r, ev = EvDo rq r -> o = out r)
      (for_range_from n a body s).
Proof.
  intros Hc. apply stops_at_for. intros a s.
  eapply stops_at_bind; [apply stops_at_wait| |].
  - intros [|e]; [|apply stops_at_ret].
    eapply stops_at_bind; [apply stops_at_Do| |].
    + intros r. apply stops_at_ret.
    + intros ev r (rq & r' & -> & HT) Hr h. injection Hr as <- <-.
      eexists. split; [reflexivity|]. exists (out r'). split; [now apply Hc|].
      intros rq2 r2 Hr. now injection Hr as _ <-.
  - intros ev w (rq & r & -> & _) Hw. discriminate.
Qed.

(** One iteration whose wait is not cut short. *)
Lemma executor_step a s h :
  fst (wait_before E a h) = TimerFired ->
  body a s h
  = (classify s (Do E (snd (wait_before E a h)) req),
     (snd (wait_before E a h)
      ++ [EvDo req (Do E (snd (wait_before E a h)) req)])%list).
Proof.
  unfold body, retry_attempt, bind. destruct (wait_before E a h) as [w h1].
  simpl. intros ->. reflexivity.
Qed.

Lemma wait_before_0 h : wait_before E 0 h = (TimerFired, h).
Proof. reflexivity. Qed.

Lemma wait_before_S a h :
  wait_before E (Datatypes.S a) h
  = (Select E h, (h ++ [EvWait (Select E h)])%list).
Proof. reflexivity. Qed.

(** An iteration that ends in [continue] hands over to the rest of the
    loop. *)
Lemma executor_continue n a s s' h :
  fst (wait_before E a h) = TimerFired ->
  classify s (Do E (snd (wait_before E a h)) req) = Continue s' ->
  for_range_from (Datatypes.S n) a body s h
  = for_range_from n (Datatypes.S a) body s'
      (snd (wait_before E a h)
       ++ [EvDo req (Do E (snd (wait_before E a h)) req)])%list.
Proof.
  intros Hw Hc. simpl. unfold bind at 1.
  rewrite (executor_step a s h Hw), Hc. reflexivity.
Qed.

(** An iteration that ends the loop. *)
Lemma executor_exit n a s h out :
  fst (wait_before E a h) = TimerFired ->
  exit_of (classify s (Do E (snd (wait_before E a h)) req)) = Some out ->
  for_range_from (Datatypes.S n) a body s h
  = (out,
     (snd (wait_before E a h)
      ++ [EvDo req (Do E (snd (wait_before E a h)) req)])%list).
Proof.
  intros Hw Hc. simpl. unfold bind at 1.
  rewrite (executor_step a s h Hw).
  destruct (classify s _); simpl in Hc; [discriminate| |];
    now injection Hc as <-.
Qed.

(** Where the value that leaves the loop comes from. *)
Lemma executor_result n a s h :
  match fst (for_range_from n a body s h) with
  | inr r =>
      (exists e, r = cancelled e)
      \/ (exists s0 x, classify s0 x = Return r)
  | inl s' =>
      s' = s \/ (exists s0 x, classify s0 x = Continue s')
      \/ (exists s0 x, classify s0 x = Break s')
  end.
Proof.
  revert a s h. induction n as [|n IH]; intros a s h; simpl.
  - now left.
  - unfold bind, body at 1, retry_attempt, bind.
    destruct (wait_before E a h) as [[|e] h1]; simpl.
    + destruct (classify s (Do E h1 req)) as [s'|s'|r] eqn:Hc; simpl.
      * specialize (IH (Datatypes.S a) s'
                       (h1 ++ [EvDo req (Do E h1 req)])%list).
        fold body.
        destruct (fst (for_range_from n (Datatypes.S a) body s' _))
          as [s2|r2] eqn:Hf.
        -- destruct (for_range_from n (Datatypes.S a) body s' _) as [o h2].
           simpl in *. subst o.
           destruct IH as [->|IH]; [|now right].
           right. left. eauto.
        -- destruct (for_range_from n (Datatypes.S a) body s' _) as [o h2].
           simpl in *. subst o. exact IH.
      * right. right. eauto.
      * right. eauto.
    + left. eauto.
Qed.

Lemma exchanges_app p (l1 l2 : list Event) :
  exchanges p (l1 ++ l2) = (exchanges p l1 + exchanges p l2)%nat.
Proof.
  induction l1 as [|[rq r|w] l1 IH]; simpl; [reflexivity| |exact IH].
  rewrite IH. lia.
Qed.

(** When no wait is cut short and every outcome means [continue], the loop
    runs all its iterations: [n] requests, and the loop variables are those
    the last iteration left. [I] is what the loop variables keep satisfying,
    [J] what they satisfy after an iteration. *)
Lemma executor_exhausted (I J : S -> Prop) :
  (forall h, Select E h = TimerFired) ->
  (forall s h, I s ->
     exists s', classify s (Do E h req) = Continue s' /\ J s' /\ I s') ->
  forall n a s h, I s ->
    exists s' evs,
      for_range_from n a body s h = (inl s', (h ++ evs)%list)
      /\ (n = O -> s' = s) /\ ((0 < n)%nat -> J s')
      /\ exchanges (fun _ => true) evs = n
      /\ Forall (fun ev => ev = EvWait TimerFired
                            \/ exists h0, ev = EvDo req (Do E h0 req))
           evs.
Proof.
  intros Hsel Hcont. induction n as [|n IH]; intros a s h Hs.
  - exists s, []. simpl. unfold ret. rewrite app_nil_r.
    repeat split; auto. lia.
  - assert (Hw : fst (wait_before E a h) = TimerFired).
    { destruct a; [reflexivity|]. rewrite wait_before_S. apply Hsel. }
    destruct (Hcont s (snd (wait_before E a h)) Hs) as (s1 & Hc & HJ & HI).
    rewrite (executor_continue n a s s1 h Hw Hc).
    destruct (IH (Datatypes.S a) s1
                (snd (wait_before E a h)
                 ++ [EvDo req (Do E (snd (wait_before E a h)) req)])%list HI)
      as (s' & evs & Hrun & H0 & HJ' & Hcount & Hall).
    assert (Hh1 : exists ws, snd (wait_before E a h) = (h ++ ws)%list
                             /\ Forall (fun ev => ev = EvWait TimerFired) ws).
    { destruct a.
      - exists []. simpl. now rewrite app_nil_r.
      - exists [EvWait TimerFired]. rewrite wait_before_S. simpl.
        rewrite Hsel. split; [reflexivity|]. now repeat constructor. }
    destruct Hh1 as (ws & Hh1 & Hws).
    exists s',
      (ws ++ EvDo req (Do E (snd (wait_before E a h)) req) :: evs)%list.
    split; [|split; [|split; [|split]]].
    + rewrite Hrun. f_equal. rewrite Hh1. rewrite <- !app_assoc. reflexivity.
    + discriminate.
    + intros _. destruct n; [|apply HJ'; lia].
      rewrite (H0 eq_refl). exact HJ.
    + rewrite exchanges_app. simpl. rewrite Hcount.
      assert (Hz : exchanges (fun _ => true) ws = O).
      { clear - Hws. induction Hws as [|x l Hx _ IHl]; [reflexivity|].
        subst x. exact IHl. }
      rewrite Hz. reflexivity.
    + apply Forall_app. split.
      * eapply Forall_impl; [|exact Hws]. intros ev ->. now left.
      * constructor; [right; eauto | exact Hall].
Qed.

(** The loop sends at most one request per iteration. *)
Lemma executor_cap n a s : sends_at_most n (for_range_from n a body s).
Proof.
  revert a s. induction n as [|n IH]; intros a s h.
  - exists (inl s), []. split; [apply runs_ret | apply Nat.le_refl].
  - assert (Hw : exists w ws, wait_before E a h = (w, (h ++ ws)%list)
                              /\ requests ws = O).
    { destruct a.
      - exists TimerFired, []. rewrite app_nil_r. now split.
      - exists (Select E h), [EvWait (Select E h)]. now split. }
    destruct Hw as (w & ws & Hwait & Hws).
    unfold runs. cbn [for_range_from].
    unfold bind, body at 1, retry_attempt, bind, ret. rewrite Hwait.
    destruct w as [|e].
    + unfold httpClient_Do.
      set (r := Do E (h ++ ws)%list req).
      destruct (classify s r) as [s'|s'|x].
      * fold body.
        destruct (IH (Datatypes.S a) s' ((h ++ ws) ++ [EvDo req r])%list)
          as (o & evs & Hr & Hn).
        exists o, (ws ++ EvDo req r :: evs)%list. split.
        -- unfold runs in *. rewrite Hr. f_equal.
           now rewrite <- !app_assoc.
        -- unfold requests in *. rewrite exchanges_app. simpl.
           rewrite Hws. lia.
      * exists (inl s'), (ws ++ [EvDo req r])%list. split.
        -- unfold runs. now rewrite app_assoc.
        -- unfold requests in *. rewrite exchanges_app. simpl.
           rewrite Hws. lia.
      * exists (inr x), (ws ++ [EvDo req r])%list. split.
        -- unfold runs. now rewrite app_assoc.
        -- unfold requests in *. rewrite exchanges_app. simpl.
           rewrite Hws. lia.
    + exists (inr (cancelled e)), ws. split; [reflexivity|]. lia.
Qed.

(** The first attempt sends the request at once. *)
Lemma executor_first n s h :
  exists out rest,
    runs (for_range_from (Datatypes.S n) 0 body s) h out
      (EvDo req (Do E h req) :: rest)
    /\ forall o, exit_of (classify s (Do E h req)) = Some o ->
                 out = o /\ rest = [].
Proof.
  destruct (exit_of (classify s (Do E h req))) as [o|] eqn:Hx.
  - exists o, []. split.
    + unfold runs. simpl. unfold body, retry_attempt, bind, ret. simpl.
      destruct (classify s (Do E h req)); simpl in Hx;
        [discriminate| |]; now injection Hx as <-.
    + intros o' Ho'. now injection Ho' as <-.
  - destruct (classify s (Do E h req)) as [s'| |] eqn:Hc; try discriminate.
    destruct (executor_events (fun _ => True) (fun _ => I) (fun _ => I)
                n 1%nat s' (h ++ [EvDo req (Do E h req)])%list)
      as (out & rest & Hr & _).
    exists out, rest. split; [|discriminate].
    unfold runs in *. simpl. unfold body at 1, retry_attempt, bind, ret.
    simpl. rewrite Hc. fold body. rewrite Hr.
    now rewrite <- app_assoc.
Qed.

End ExecutorFacts.

(** ** From the executor to the loops and functions of the package *)

Section Transfer.

Lemma for_range_from_ext {S R : Type} (body body' : nat -> S -> M (flow S R)) :
  (forall a s h, body a s h = body' a s h) ->
  forall n a s h,
    for_range_from n a body s h = for_range_from n a body' s h.
Proof.
  intros Hb. induction n as [|n IH]; intros a s h; simpl; [reflexivity|].
  unfold bind. rewrite Hb. destruct (body' a s h) as [[s'|s'|r] h1]; auto.
Qed.

Lemma stops_at_ext {A : Type} F (Q : Event -> A -> Prop) (m m' : M A) :
  (forall h, m h = m' h) -> stops_at F Q m' -> stops_at F Q m.
Proof.
  intros Heq Hm h. destruct (Hm h) as (a & evs & Hr & Hl).
  exists a, evs. split; [|exact Hl]. unfold runs. now rewrite Heq.
Qed.

Lemma all_events_ext {A : Type} P (m m' : M A) :
  (forall h, m h = m' h) -> all_events P m' -> all_events P m.
Proof.
  intros Heq Hm h. destruct (Hm h) as (a & evs & Hr & Hl).
  exists a, evs. split; [|exact Hl]. unfold runs. now rewrite Heq.
Qed.

(** Reading a property of the added events off a concrete run. *)
Lemma stops_at_run {A : Type} F (Q : Event -> A -> Prop) (m : M A) :
  stops_at F Q m ->
  forall h res h', m h = (res, h') ->
  forall pre ev post, h' = (h ++ pre ++ ev :: post)%list -> F ev ->
                      post = [] /\ Q ev res.
Proof.
  intros Hm h res h' Hrun pre ev post Hh' HF.
  destruct (Hm h) as (a & evs & Hr & Hl).
  unfold runs in Hr. rewrite Hr in Hrun. injection Hrun as -> <-.
  apply app_inv_head in Hh'. now apply (Hl pre ev post).
Qed.

Lemma all_events_run {A : Type} P (m : M A) :
  all_events P m ->
  forall h res h', m h = (res, h') ->
  exists evs, h' = (h ++ evs)%list /\ Forall P evs.
Proof.
  intros Hm h res h' Hrun. destruct (Hm h) as (a & evs & Hr & Hl).
  unfold runs in Hr. rewrite Hr in Hrun. injection Hrun as -> <-.
  now exists evs.
Qed.

End Transfer.

(** Closes goals about continuations that add no event. *)
Ltac pure_stops :=
  repeat match goal with
    | |- stops_at _ _ (ret _) => apply stops_at_ret
    | |- stops_at _ _ (match ?x with _ => _ end) => destruct x
    | |- stops_at _ _ (if ?c then _ else _) => destruct c
    end.

Ltac pure_events :=
  repeat match goal with
    | |- all_events _ (ret _) => apply all_events_ret
    | |- all_events _ (match ?x with _ => _ end) => destruct x
    | |- all_events _ (if ?c then _ else _) => destruct c
    end.

(** ** Cancellation during a retry wait *)

Section Cancellation.

Variable L : Lib.
Variable E : Env.









End Cancellation.

(** ** The URLs of the five calls are pairwise distinct where it matters *)

Section URLs.

Lemma metadata_url_not_api (path rest : string) :
  metadataURL ++ path <> apiURL ++ rest.
Proof. unfold metadataURL, apiURL. simpl. discriminate. Qed.

Lemma createURL_not_versionURL (pid name : string) :
  createURL pid name <> versionURL pid name.
Proof.
  unfold createURL, versionURL. intros H.
  apply GoStringsFacts.append_inv_head in H.
  apply GoStringsFacts.append_inv_head in H.
  apply GoStringsFacts.append_inv_head in H.
  simpl in H. discriminate H.
Qed.

Lemma token_url_not_access pid name :
  URL token_request <> accessURL pid name.
Proof. apply metadata_url_not_api. Qed.

Lemma token_url_not_create pid name :
  URL token_request <> createURL pid name.
Proof. apply metadata_url_not_api. Qed.

Lemma token_url_not_version pid name :
  URL token_request <> versionURL pid name.
Proof. apply metadata_url_not_api. Qed.

End URLs.

(** ** The events of the two metadata calls *)

Section MetadataEvents.

Variable L : Lib.
Variable E : Env.

Lemma loop_events {S R : Type} (body : nat -> S -> M (flow S R))
  req (cancelled : ctx_error -> R) classify (P : Event -> Prop) :
  (forall a s h, body a s h = retry_attempt E req cancelled classify a s h) ->
  (forall w, P (EvWait w)) -> (forall r, P (EvDo req r)) ->
  forall n a s, all_events P (for_range_from n a body s).
Proof.
  intros Hb Hw Hd n a s. eapply all_events_ext.
  - intros h. apply for_range_from_ext. exact Hb.
  - now apply executor_events.
Qed.

Lemma getProjectID_events :
  all_events (metadata_event projectID_request) (getProjectID L E).
Proof.
  unfold getProjectID, for_range. apply all_events_bind.
  - apply (loop_events _ _ _ _ _ (getProjectID_attempt_executor L E)).
    + intros w. left. now exists w.
    + intros r. right. now exists r.
  - intros [[p lastErr]|res]; pure_events.
Qed.

Lemma getAccessToken_events :
  all_events (metadata_event token_request) (getAccessToken L E).
Proof.
  unfold getAccessToken, for_range. apply all_events_bind.
  - apply (loop_events _ _ _ _ _ (getAccessToken_attempt_executor L E)).
    + intros w. left. now exists w.
    + intros r. right. now exists r.
  - intros [[p lastErr]|res]; pure_events.
Qed.

(** No event of the token fetch is an exchange with the Secret Manager
    API. *)
Lemma getAccessToken_never (F : Event -> Prop) :
  (forall ev, F ev -> exists req r rest,
        ev = EvDo req r /\ URL req = apiURL ++ rest) ->
  all_events (fun ev => ~ F ev) (getAccessToken L E).
Proof.
  intros HF. eapply all_events_weaken; [|apply getAccessToken_events].
  intros ev [(w & ->)|(r & ->)] Hev;
    destruct (HF _ Hev) as (req & r' & rest & Heq & Hurl); [discriminate|].
  injection Heq as <- <-. now apply metadata_url_not_api in Hurl.
Qed.

End MetadataEvents.


(** ** Client errors from the Secret Manager API *)

Section ClientErrors.

Variable L : Lib.
Variable E : Env.

Lemma stops_at_subset {A : Type} (F F' : Event -> Prop)
  (Q : Event -> A -> Prop) (m : M A) :
  (forall ev, F ev -> F' ev) -> stops_at F' Q m -> stops_at F Q m.
Proof.
  intros HF Hm h. destruct (Hm h) as (a & evs & Hr & Hl).
  exists a, evs. split; [exact Hr|].
  intros pre ev post Hs Hev. apply (Hl _ _ _ Hs). now apply HF.
Qed.

Lemma ends_on_of_stops {A : Type} F (Q : Event -> A -> Prop) (m : M A) :
  stops_at F Q m -> ends_on F Q m.
Proof.
  intros Hm h res h' Hrun pre ev post Hh' HF.
  exact (stops_at_run _ _ _ Hm h res h' Hrun pre ev post Hh' HF).
Qed.

Lemma loop_verdict {S R : Type} (body : nat -> S -> M (flow S R))
  req (cancelled : ctx_error -> R) classify
  (T : Request -> error + Response -> Prop) (out : error + Response -> S + R) :
  (forall a s h, body a s h = retry_attempt E req cancelled classify a s h) ->
  (forall s r, T req r -> exit_of (classify s r) = Some (out r)) ->
  forall n a s,
    stops_at (fun ev => exists rq r, ev = EvDo rq r /\ T rq r)
      (fun ev o => forall rq r, ev = EvDo rq r -> o = out r)
      (for_range_from n a body s).
Proof.
  intros Hb Hc n a s. eapply stops_at_ext.
  - intros h. apply for_range_from_ext. exact Hb.
  - now apply executor_verdict.
Qed.

(** The decisions on client errors, read off the three loops. *)

Lemma classify_access_4xx lastErr resp :
  is_4xx (StatusCode resp) = true ->
  classify_access L lastErr (inr resp)
  = Return ("", Some (ErrNew ("failed to access secret: status "
                              ++ GoStrings.itoa (StatusCode resp)))).
Proof. intros H. unfold classify_access. now rewrite H. Qed.

Lemma is_4xx_not_success code :
  is_4xx code = true ->
  (code =? StatusOK) = false /\ (code =? StatusCreated) = false.
Proof.
  unfold is_4xx, StatusOK, StatusCreated. intros H.
  apply andb_true_iff in H as [H1 H2].
  apply Z.leb_le in H1. split; apply Z.eqb_neq; lia.
Qed.

Lemma classify_create_4xx createErr resp :
  is_4xx (StatusCode resp) = true -> StatusCode resp <> StatusConflict ->
  classify_create createErr (inr resp)
  = Return (Some (ErrNew ("failed to create secret: status "
                          ++ GoStrings.itoa (StatusCode resp)
                          ++ ": " ++ read_body resp))).
Proof.
  intros H Hc. unfold classify_create, read_body.
  destruct (is_4xx_not_success _ H) as [-> ->]. cbn [orb].
  apply Z.eqb_neq in Hc. rewrite Hc, H. reflexivity.
Qed.

Lemma classify_create_conflict createErr resp :
  StatusCode resp = StatusConflict ->
  classify_create createErr (inr resp)
  = Break (Some (ErrNew "secret already exists: status 409")).
Proof.
  intros H. unfold classify_create. rewrite H. reflexivity.
Qed.

Lemma classify_addVersion_4xx lastErr resp :
  is_4xx (StatusCode resp) = true ->
  classify_addVersion lastErr (inr resp)
  = Return (Some (ErrNew ("failed to add secret version: status "
                          ++ GoStrings.itoa (StatusCode resp)
                          ++ ": " ++ read_body resp))).
Proof.
  intros H. unfold classify_addVersion, read_body.
  destruct (is_4xx_not_success _ H) as [-> _]. now rewrite H.
Qed.

(** [FetchFromProject]: a 4xx answer to the access request ends it. *)
Lemma FetchFromProject_4xx pid name :
  stops_at (is_4xx_from (accessURL pid name)) access_denied
    (FetchFromProject L E pid name).
Proof.
  unfold FetchFromProject, for_range.
  destruct (negb _); [apply stops_at_ret|].
  destruct (negb _); [apply stops_at_ret|].
  eapply stops_at_bind with (Q1 := fun _ _ => False).
  - apply stops_at_never. apply getAccessToken_never.
    intros ev (req & resp & -> & Hurl & _).
    eexists _, _, _. split; [reflexivity | exact Hurl].
  - intros [t [err|]]; [apply stops_at_ret|].
    eapply stops_at_bind.
    + eapply stops_at_subset;
        [|apply (loop_verdict _ _ _ _
                   (fun rq r => exists resp, r = inr resp
                                             /\ is_4xx (StatusCode resp) = true)
                   (fun r => match r with
                             | inr resp =>
                                 inr ("", Some (ErrNew
                                    ("failed to access secret: status "
                                     ++ GoStrings.itoa (StatusCode resp))))
                             | inl _ => inl None
                             end)
                   (access_attempt_executor L E t _))].
      * intros ev (req & resp & -> & _ & H4). eexists _, _. split; eauto.
      * intros s r (resp & -> & H4). now rewrite classify_access_4xx.
    + intros [lastErr|res]; pure_stops.
    + intros ev o (req & resp & -> & _) Ho h.
      rewrite (Ho _ _ eq_refl). eexists. split; [reflexivity|].
      intros req' resp' Heq. now injection Heq as _ <-.
  - intros ev a _ [].
Qed.

(** No event of a loop on [req] is an exchange on another URL. *)
Lemma loop_never {S R : Type} (body : nat -> S -> M (flow S R))
  req (cancelled : ctx_error -> R) classify (F : Event -> Prop) url :
  (forall a s h, body a s h = retry_attempt E req cancelled classify a s h) ->
  (forall ev, F ev -> exists rq r, ev = EvDo rq r /\ URL rq = url) ->
  URL req <> url ->
  forall n a s, all_events (fun ev => ~ F ev) (for_range_from n a body s).
Proof.
  intros Hb HF Hne. apply (loop_events _ _ _ _ _ _ Hb).
  - intros w Hev. destruct (HF _ Hev) as (rq & r & Heq & _). discriminate.
  - intros r Hev. destruct (HF _ Hev) as (rq & r' & Heq & Hurl).
    injection Heq as <- <-. contradiction.
Qed.

(** [StoreInProject]: a 4xx answer other than 409 to the create request
    ends it. *)
Lemma StoreInProject_create_4xx body pid name value :
  stops_at (is_4xx_not_conflict_from (createURL pid name)) create_denied
    (StoreInProject_with L E body pid name value).
Proof.
  unfold StoreInProject_with, for_range.
  destruct (negb _); [apply stops_at_ret|].
  destruct (negb _); [apply stops_at_ret|].
  eapply stops_at_bind with (Q1 := fun _ _ => False).
  - apply stops_at_never. apply getAccessToken_never.
    intros ev (req & resp & -> & Hurl & _).
    eexists _, _, _. split; [reflexivity | exact Hurl].
  - intros [tok [err|]]; [apply stops_at_ret|].
    eapply stops_at_bind.
    + eapply stops_at_subset;
        [|apply (loop_verdict _ _ _ _
                   (fun rq r => exists resp,
                        r = inr resp /\ is_4xx (StatusCode resp) = true
                        /\ StatusCode resp <> StatusConflict)
                   create_out
                   (create_attempt_executor E tok _ _))].
      * intros ev (req & resp & -> & _ & H4 & Hc). eexists _, _. split; eauto.
      * intros s r (resp & -> & H4 & Hc). now rewrite classify_create_4xx.
    + intros [createErr|res]; [|apply stops_at_ret].
      destruct (create_failed createErr); [apply stops_at_ret|].
      apply stops_at_never. apply all_events_bind.
      * apply (loop_never _ _ _ _ _ (createURL pid name)
                 (addVersion_attempt_executor E tok _ _)).
        -- intros ev (req & resp & -> & Hurl & _).
           eexists _, _. split; [reflexivity | exact Hurl].
        -- simpl. intros H. symmetry in H.
           now apply createURL_not_versionURL in H.
      * intros [lastErr|res]; pure_events.
    + intros ev o (req & resp & -> & _) Ho h.
      rewrite (Ho _ _ eq_refl). eexists. split; [reflexivity|].
      intros req' resp' Heq. now injection Heq as _ <-.
  - intros ev a _ [].
Qed.

(** [StoreInProject]: a 4xx answer to the add-version request ends it. *)
Lemma StoreInProject_addVersion_4xx body pid name value :
  stops_at (is_4xx_from (versionURL pid name)) addVersion_denied
    (StoreInProject_with L E body pid name value).
Proof.
  unfold StoreInProject_with, for_range.
  destruct (negb _); [apply stops_at_ret|].
  destruct (negb _); [apply stops_at_ret|].
  eapply stops_at_bind with (Q1 := fun _ _ => False).
  - apply stops_at_never. apply getAccessToken_never.
    intros ev (req & resp & -> & Hurl & _).
    eexists _, _, _. split; [reflexivity | exact Hurl].
  - intros [tok [err|]]; [apply stops_at_ret|].
    eapply stops_at_bind with (Q1 := fun _ _ => False).
    + apply stops_at_never.
      apply (loop_never _ _ _ _ _ (versionURL pid name)
               (create_attempt_executor E tok _ _)).
      * intros ev (req & resp & -> & Hurl & _).
           eexists _, _. split; [reflexivity | exact Hurl].
      * simpl. apply createURL_not_versionURL.
    + intros [createErr|res]; [|apply stops_at_ret].
      destruct (create_failed createErr); [apply stops_at_ret|].
      eapply stops_at_bind.
      * eapply stops_at_subset;
          [|apply (loop_verdict _ _ _ _
                     (fun rq r => exists resp,
                          r = inr resp /\ is_4xx (StatusCode resp) = true)
                     addVersion_out
                     (addVersion_attempt_executor E tok _ _))].
        -- intros ev (req & resp & -> & _ & H4). eexists _, _. split; eauto.
        -- intros s r (resp & -> & H4). now rewrite classify_addVersion_4xx.
      * intros [lastErr|res]; pure_stops.
      * intros ev o (req & resp & -> & _) Ho h.
        rewrite (Ho _ _ eq_refl). eexists. split; [reflexivity|].
        intros req' resp' Heq. now injection Heq as _ <-.
    + intros ev a _ [].
  - intros ev a _ [].
Qed.

End ClientErrors.


(** ** What follows a 409 Conflict on create *)

Section Conflict.

Variable L : Lib.
Variable E : Env.

Lemma followed_by_of_then {A : Type} F N (m : M A) :
  then_starts F N m -> followed_by F N m.
Proof.
  intros Hm h res h' Hrun pre ev post Hh' HF.
  destruct (Hm h) as (a & evs & Hr & Hl).
  unfold runs in Hr. rewrite Hr in Hrun. injection Hrun as -> <-.
  apply app_inv_head in Hh'. now apply (Hl pre ev post).
Qed.

Lemma then_starts_ret {A : Type} F N (a : A) : then_starts F N (ret a).
Proof.
  intros h. exists a, []. split; [apply runs_ret|].
  intros pre ev post H. now destruct pre.
Qed.

(** The event of [F] comes later: the first part has none. *)
Lemma then_starts_later {A B : Type} F (N : Event -> list Event -> B -> Prop)
  (m : M A) (k : A -> M B) :
  all_events (fun ev => ~ F ev) m ->
  (forall a, then_starts F N (k a)) ->
  then_starts F N (bind m k).
Proof.
  intros Hm Hk h.
  destruct (Hm h) as (a & e1 & R1 & N1).
  destruct (Hk a (h ++ e1)%list) as (b & e2 & R2 & L2).
  exists b, (e1 ++ e2)%list. split; [eapply runs_bind; eassumption|].
  intros pre ev post Hs HF.
  destruct (split_app _ _ _ _ _ Hs) as [(p1 & He1 & ->)|(p2 & He2 & ->)].
  - exfalso. rewrite Forall_forall in N1. apply (N1 ev); [|exact HF].
    rewrite He1. apply in_elt.
  - apply (L2 _ _ _ He2 HF).
Qed.

(** The event of [F] ends the first part, and the continuation opens with
    the event wanted. *)
Lemma then_starts_now {A B : Type} F (Q1 : Event -> A -> Prop)
  (N : Event -> list Event -> B -> Prop) (m : M A) (k : A -> M B) :
  stops_at F Q1 m ->
  (forall a, all_events (fun ev => ~ F ev) (k a)) ->
  (forall ev a, F ev -> Q1 ev a ->
     forall h, exists b ev' rest, runs (k a) h b (ev' :: rest) /\ N ev' rest b) ->
  then_starts F N (bind m k).
Proof.
  intros Hm Hk Hnext h.
  destruct (Hm h) as (a & e1 & R1 & L1).
  destruct (Hk a (h ++ e1)%list) as (b & e2 & R2 & N2).
  exists b, (e1 ++ e2)%list. split; [eapply runs_bind; eassumption|].
  intros pre ev post Hs HF.
  destruct (split_app _ _ _ _ _ Hs) as [(p1 & He1 & ->)|(p2 & He2 & ->)].
  - destruct (L1 _ _ _ He1 HF) as [-> HQ1].
    destruct (Hnext ev a HF HQ1 (h ++ e1)%list) as (b' & ev' & rest & R' & HN).
    destruct (runs_inj _ _ _ _ _ _ R2 R') as [-> ->].
    now exists ev', rest.
  - exfalso. rewrite Forall_forall in N2. apply (N2 ev); [|exact HF].
    rewrite He2. apply in_elt.
Qed.

Lemma runs_ext {A : Type} (m m' : M A) h a evs :
  (forall h, m h = m' h) -> runs m' h a evs -> runs m h a evs.
Proof. unfold runs. intros Heq. now rewrite Heq. Qed.

Lemma create_failed_conflict :
  create_failed (Some (ErrNew "secret already exists: status 409")) = false.
Proof. reflexivity. Qed.

Lemma classify_addVersion_ok lastErr resp :
  StatusCode resp = StatusOK ->
  classify_addVersion lastErr (inr resp) = Return None.
Proof. intros H. unfold classify_addVersion. now rewrite H. Qed.

(** The code that follows the create loop adds no create exchange. *)
Lemma after_create_never tok pid name value
  (c : option error + option error) (F : Event -> Prop) :
  (forall ev, F ev ->
     exists rq r, ev = EvDo rq r /\ URL rq = createURL pid name) ->
  all_events (fun ev => ~ F ev)
    (match c with
     | inr res => ret res
     | inl createErr =>
         if create_failed createErr then
           ret (Some (Errorf_w "failed to create secret: " createErr))
         else
           bind (for_range maxRetries
                   (addVersion_attempt E tok (versionURL pid name)
                      (JSON.Marshal (versionReqBody value))) None)
             (fun a => match a with
                       | inr res => ret res
                       | inl lastErr =>
                           ret (Some (Errorf_w
                                        "failed to add secret version: "
                                        lastErr))
                       end)
     end).
Proof.
  intros HF. destruct c as [createErr|res]; [|apply all_events_ret].
  destruct (create_failed createErr); [apply all_events_ret|].
  apply all_events_bind.
  - apply (loop_never _ _ _ _ _ _ (createURL pid name)
             (addVersion_attempt_executor E tok _ _)); [exact HF|].
    simpl. intros H. symmetry in H. now apply createURL_not_versionURL in H.
  - intros [lastErr|res]; pure_events.
Qed.

Lemma StoreInProject_conflict body pid name value :
  then_starts (is_conflict_from (createURL pid name))
    (addVersion_attempted pid name value)
    (StoreInProject_with L E body pid name value).
Proof.
  unfold StoreInProject_with.
  destruct (negb _); [apply then_starts_ret|].
  destruct (negb _); [apply then_starts_ret|].
  apply then_starts_later.
  - apply getAccessToken_never.
    intros ev (req & resp & -> & Hurl & _).
    eexists _, _, _. split; [reflexivity | exact Hurl].
  - intros [tok [err|]]; [apply then_starts_ret|].
    eapply then_starts_now
      with (Q1 := fun ev o =>
                    forall rq r, ev = EvDo rq r ->
                      o = inl (Some (ErrNew "secret already exists: status 409"))).
    + eapply stops_at_subset;
        [|apply (loop_verdict _ _ _ _ _
                   (fun rq r => exists resp,
                        r = inr resp /\ StatusCode resp = StatusConflict)
                   (fun _ => inl (Some (ErrNew
                                          "secret already exists: status 409")))
                   (create_attempt_executor E tok _ _))].
      * intros ev (req & resp & -> & _ & Hc). eexists _, _. split; eauto.
      * intros s r (resp & -> & Hc). now rewrite classify_create_conflict.
    + intros c. apply after_create_never.
      intros ev (req & resp & -> & Hurl & _).
      eexists _, _. split; [reflexivity | exact Hurl].
    + intros ev o (req & resp & -> & _) Ho h.
      rewrite (Ho _ _ eq_refl). rewrite create_failed_conflict.
      unfold for_range, maxRetries.
      destruct (executor_first E
                  (post_request tok (versionURL pid name)
                     (JSON.Marshal (versionReqBody value)))
                  cancelled_store classify_addVersion 2 None h)
        as (out & rest & Hr & Hx).
      eapply runs_ext in Hr;
        [|intros h0; apply for_range_from_ext;
          apply addVersion_attempt_executor].
      set (addreq := post_request tok (versionURL pid name)
                       (JSON.Marshal (versionReqBody value))) in *.
      exists (match out with
              | inr res => res
              | inl lastErr =>
                  Some (Errorf_w "failed to add secret version: " lastErr)
              end), (EvDo addreq (Do E h addreq)), rest.
      split.
      * unfold runs in *. cbv beta in Hr.
        unfold bind, for_range, maxRetries. rewrite Hr.
        destruct out; reflexivity.
      * exists tok, (Do E h addreq). split; [reflexivity|].
        intros resp0 Hr0 Hok.
        destruct (Hx (inr None)) as [-> ->].
        -- rewrite Hr0. now rewrite classify_addVersion_ok.
        -- now split.
Qed.

End Conflict.


(** ** The metadata calls retry on every status other than 200 *)

Section MetadataStatus.

Variable L : Lib.
Variable E : Env.

Lemma retried_with_executor {S R : Type} (attempt_fn : nat -> S -> M (flow S R))
  req (cancelled : ctx_error -> R) classify
  (T : Response -> Prop) (next : S -> Response -> S) :
  (forall a s h,
      attempt_fn a s h = retry_attempt E req cancelled classify a s h) ->
  (forall s resp, T resp -> classify s (inr resp) = Continue (next s resp)) ->
  retried_with E attempt_fn req T next.
Proof.
  intros Hb Hc attempt s h resp Hw HDo HT.
  rewrite Hb, executor_step by exact Hw. rewrite HDo. now rewrite Hc.
Qed.

Lemma getProjectID_status_retried :
  retried_with E (getProjectID_attempt L E) projectID_request
    (fun resp => StatusCode resp <> StatusOK) metadata_status_error.
Proof.
  apply (retried_with_executor _ _ _ _ _ _ (getProjectID_attempt_executor L E)).
  intros [p lastErr] resp Hs. unfold classify_projectID.
  apply Z.eqb_neq in Hs. now rewrite Hs.
Qed.

Lemma getAccessToken_status_retried :
  retried_with E (getAccessToken_attempt L E) token_request
    (fun resp => StatusCode resp <> StatusOK) metadata_status_error.
Proof.
  apply (retried_with_executor _ _ _ _ _ _ (getAccessToken_attempt_executor L E)).
  intros [p lastErr] resp Hs. unfold classify_token.
  apply Z.eqb_neq in Hs. now rewrite Hs.
Qed.

End MetadataStatus.


(** ** The requests of [StoreInProject] *)

Section StoreRequests.

Variable L : Lib.
Variable E : Env.

Lemma StoreInProject_events body pid name value :
  all_events (store_event body pid name value)
    (StoreInProject_with L E body pid name value).
Proof.
  unfold StoreInProject_with, for_range.
  destruct (negb _); [apply all_events_ret|].
  destruct (negb _); [apply all_events_ret|].
  apply all_events_bind.
  - eapply all_events_weaken; [|apply getAccessToken_events].
    intros ev [Hw|Hd]; [now left | right; now left].
  - intros [tok [err|]]; [apply all_events_ret|].
    apply all_events_bind.
    + apply (loop_events _ _ _ _ _ _ (create_attempt_executor E tok _ _)).
      * intros w. left. now exists w.
      * intros r. right. right. left. now exists tok, r.
    + intros [createErr|res]; [|apply all_events_ret].
      destruct (create_failed createErr); [apply all_events_ret|].
      apply all_events_bind.
      * apply (loop_events _ _ _ _ _ _ (addVersion_attempt_executor E tok _ _)).
        -- intros w. left. now exists w.
        -- intros r. right. right. right. now exists tok, r.
      * intros [lastErr|res]; pure_events.
Qed.

Lemma StoreInProject_create_requests body pid name value :
  create_requests_carry pid name (JSON.Marshal body)
    (StoreInProject_with L E body pid name value).
Proof.
  intros h res h' Hrun pre req r post Hh' Hurl.
  destruct (all_events_run _ _ (StoreInProject_events body pid name value)
              h res h' Hrun) as (evs & Hevs & Hall).
  rewrite Hevs in Hh'. apply app_inv_head in Hh'. subst evs.
  rewrite Forall_forall in Hall.
  destruct (Hall (EvDo req r) (in_elt _ _ _))
    as [(w & Hw)|[(r' & Hd)|[(tok & r' & Hd)|(tok & r' & Hd)]]].
  - discriminate.
  - injection Hd as -> _. now apply token_url_not_create in Hurl.
  - injection Hd as -> _. repeat split. now exists tok.
  - injection Hd as -> _. simpl in Hurl. symmetry in Hurl.
    now apply createURL_not_versionURL in Hurl.
Qed.

Lemma Marshal_createReqBody :
  JSON.Marshal createReqBody = automatic_replication_json.
Proof. reflexivity. Qed.

Lemma Marshal_createReqBody_inlined :
  JSON.Marshal createReqBody_inlined = automatic_as_string_json.
Proof. reflexivity. Qed.

(** The first copy of [StoreInProject] sends the body the API expects. *)
Lemma StoreInProject_create_body pid name value :
  create_requests_carry pid name automatic_replication_json
    (StoreInProject L E pid name value).
Proof.
  rewrite <- Marshal_createReqBody. apply StoreInProject_create_requests.
Qed.

End StoreRequests.


(** ** The access token is never empty *)

Section AccessToken.

Variable L : Lib.
Variable E : Env.

Lemma classify_token_empty st resp :
  empty_token_response L resp ->
  classify_token L st (inr resp) = Continue (empty_token_error st resp).
Proof.
  intros [Hs Hd]. destruct st as [t lastErr]. unfold classify_token.
  rewrite Hs, Hd. reflexivity.
Qed.

Lemma getAccessToken_empty_retried :
  retried_with E (getAccessToken_attempt L E) token_request
    (empty_token_response L) empty_token_error.
Proof.
  apply (retried_with_executor _ _ _ _ _ _ _
           (getAccessToken_attempt_executor L E)).
  intros st resp. apply classify_token_empty.
Qed.

Lemma classify_token_no_return st x r :
  classify_token L st x <> Return r.
Proof.
  destruct st as [t lastErr]. unfold classify_token.
  destruct x as [err|resp]; [discriminate|].
  destruct (negb _); [discriminate|].
  destruct (DecodeAccessToken L _); [discriminate|].
  destruct (negb _); discriminate.
Qed.

(** A nil error comes with a non-empty token. *)
Lemma getAccessToken_nonempty h t h' :
  getAccessToken L E h = ((t, None), h') -> t <> "".
Proof.
  unfold getAccessToken, for_range, bind.
  pose proof (executor_result E token_request cancelled_fetch
                (classify_token L) maxRetries 0 ("", None) h) as Hres.
  rewrite <- (for_range_from_ext _ _ (getAccessToken_attempt_executor L E))
    in Hres.
  destruct (for_range_from maxRetries 0 (getAccessToken_attempt L E)
              ("", None) h) as [[[t' lastErr]|res] h1]; simpl in Hres.
  - destruct (GoStrings.is_empty t') eqn:He; unfold ret; intros Heq.
    + discriminate.
    + injection Heq as <- _. now apply GoStringsFacts.is_empty_false.
  - unfold ret. intros Heq. injection Heq as -> _.
    destruct Hres as [(e & He)|(s0 & x & Hc)]; [discriminate|].
    now apply classify_token_no_return in Hc.
Qed.

(** With the token endpoint always answering an empty token, the three
    attempts are used up. *)
Lemma getAccessToken_empty_exhausts h :
  never_cancelled E ->
  (forall h', exists resp,
      Do E h' token_request = inr resp /\ empty_token_response L resp) ->
  exists evs,
    getAccessToken L E h
    = (("", Some (ErrWrap "failed to get access token: "
                    (ErrNew "empty access token"))), (h ++ evs)%list)
    /\ requests evs = maxRetries.
Proof.
  intros Hnc Hempty.
  destruct (executor_exhausted E token_request cancelled_fetch
              (classify_token L)
              (fun st => fst st = "")
              (fun st => st = ("", Some (ErrNew "empty access token")))
              Hnc) with (n := maxRetries) (a := O) (s := ("", @None error))
                        (h := h)
    as (s' & evs & Hrun & _ & HJ & Hcount & _).
  - intros st h0 Hst. destruct (Hempty h0) as (resp & -> & Hr).
    rewrite classify_token_empty by exact Hr.
    eexists. split; [reflexivity|].
    unfold empty_token_error. rewrite Hst. now split.
  - reflexivity.
  - exists evs. split; [|exact Hcount].
    unfold getAccessToken, for_range, bind.
    rewrite (for_range_from_ext _ _ (getAccessToken_attempt_executor L E)).
    rewrite Hrun. rewrite HJ by (unfold maxRetries; lia). reflexivity.
Qed.

End AccessToken.


(** ** Decode failures after a 200 are retried *)

Section DecodeFailures.

Variable L : Lib.
Variable E : Env.


Lemma classify_access_decode_failure lastErr resp e :
  decode_failure L resp e ->
  classify_access L lastErr (inr resp) = Continue (Some e).
Proof.
  intros (Hs & Hread & Hdec). unfold classify_access.
  rewrite Hs. cbn [is_4xx StatusOK Z.leb Z.ltb andb negb Z.eqb Z.compare
                   Pos.compare Pos.compare_cont Pos.eqb].
  unfold read_body in Hdec. unfold ReadAll in *. cbn [fst] in Hdec.
  rewrite Hread.
  destruct Hdec as [Hj|(Data & Hj & Hb & ->)]; rewrite Hj; [reflexivity|].
  now rewrite Hb.
Qed.


End DecodeFailures.


(** ** Server errors on create whose body names the conflict *)

Section CreateServerErrors.

Variable L : Lib.
Variable E : Env.

Lemma is_5xx_other code :
  500 <= code < 600 ->
  (code =? StatusOK) = false /\ (code =? StatusCreated) = false
  /\ (code =? StatusConflict) = false /\ is_4xx code = false.
Proof.
  unfold StatusOK, StatusCreated, StatusConflict, is_4xx. intros H.
  repeat split; try (apply Z.eqb_neq; lia).
  apply andb_false_iff. right. apply Z.ltb_ge. lia.
Qed.

Lemma classify_create_5xx createErr resp :
  500 <= StatusCode resp < 600 ->
  classify_create createErr (inr resp)
  = Continue (Some (ErrNew ("status " ++ GoStrings.itoa (StatusCode resp)
                            ++ ": " ++ read_body resp))).
Proof.
  intros H. unfold classify_create, read_body.
  destruct (is_5xx_other _ H) as (-> & -> & -> & ->). reflexivity.
Qed.

Lemma create_failed_status_text code body :
  GoStrings.Contains body "secret already exists" = true ->
  create_failed (Some (ErrNew ("status " ++ GoStrings.itoa code
                               ++ ": " ++ body))) = false.
Proof.
  intros H. unfold create_failed. cbn [Error].
  assert (Hc : GoStrings.Contains
                 ("status " ++ GoStrings.itoa code ++ ": " ++ body)
                 "secret already exists" = true)
    by (do 3 apply GoStringsFacts.Contains_append_r; exact H).
  now rewrite Hc.
Qed.

Lemma create_loop_exhausted_on_5xx tok body pid name h :
  never_cancelled E ->
  (forall h', exists resp,
      Do E h' (post_request tok (createURL pid name) (JSON.Marshal body))
      = inr resp /\ server_error_naming_conflict resp) ->
  exists createErr evs,
    for_range maxRetries
      (create_attempt E tok (createURL pid name) (JSON.Marshal body)) None h
    = (inl createErr, (h ++ evs)%list)
    /\ create_failed createErr = false
    /\ requests evs = maxRetries
    /\ Forall (fun ev =>
                 ev = EvWait TimerFired
                 \/ exists resp,
                     ev = EvDo (post_request tok (createURL pid name)
                                  (JSON.Marshal body)) (inr resp)
                     /\ server_error_naming_conflict resp) evs.
Proof.
  intros Hnc H5.
  destruct (executor_exhausted E
              (post_request tok (createURL pid name) (JSON.Marshal body))
              cancelled_store classify_create
              (fun _ => True) (fun s => create_failed s = false) Hnc)
    with (n := maxRetries) (a := O) (s := @None error) (h := h)
    as (s' & evs & Hrun & _ & HJ & Hcount & Hall).
  - intros s h0 _. destruct (H5 h0) as (resp & -> & Hcode & Hbody).
    rewrite classify_create_5xx by exact Hcode.
    eexists. split; [reflexivity|]. split; [|exact I].
    now apply create_failed_status_text.
  - exact I.
  - exists s', evs. split; [|split; [|split]].
    + unfold for_range.
      rewrite (for_range_from_ext _ _ (create_attempt_executor E tok _ _)).
      exact Hrun.
    + apply HJ. unfold maxRetries. lia.
    + exact Hcount.
    + eapply Forall_impl; [|exact Hall].
      intros ev [->|(h0 & ->)]; [now left|right].
      destruct (H5 h0) as (resp & -> & Hresp). now exists resp.
Qed.

(** What [StoreInProject] does once the create loop is left normally: the
    test on the text of [createErr] decides between returning the create
    failure and sending the add-version request. *)
Lemma StoreInProject_after_create body pid name value h tok h1 createErr h2 :
  Regexp.MatchString projectIDRegex pid = true ->
  Regexp.MatchString secretNameRegex name = true ->
  getAccessToken L E h = ((tok, None), h1) ->
  for_range maxRetries
    (create_attempt E tok (createURL pid name) (JSON.Marshal body)) None h1
  = (inl createErr, h2) ->
  (create_failed createErr = true ->
   StoreInProject_with L E body pid name value h
   = (Some (Errorf_w "failed to create secret: " createErr), h2))
  /\ (create_failed createErr = false ->
      exists res r rest,
        StoreInProject_with L E body pid name value h
        = (res,
           (h2 ++ EvDo (post_request tok (versionURL pid name)
                          (JSON.Marshal (versionReqBody value))) r
               :: rest)%list)).
Proof.
  intros Hp Hn Htok Hc.
  assert (Hstart : StoreInProject_with L E body pid name value h
                   = (if create_failed createErr
                      then ret (Some (Errorf_w "failed to create secret: "
                                        createErr))
                      else
                        bind (for_range maxRetries
                                (addVersion_attempt E tok (versionURL pid name)
                                   (JSON.Marshal (versionReqBody value))) None)
                          (fun a => match a with
                                    | inr res => ret res
                                    | inl lastErr =>
                                        ret (Some (Errorf_w
                                               "failed to add secret version: "
                                               lastErr))
                                    end)) h2).
  { unfold StoreInProject_with. rewrite Hp, Hn. cbn [negb].
    unfold bind at 1. rewrite Htok.
    unfold bind at 1. rewrite Hc. reflexivity. }
  split; intros Hcf; rewrite Hstart, Hcf; [reflexivity|].
  destruct (executor_first E
              (post_request tok (versionURL pid name)
                 (JSON.Marshal (versionReqBody value)))
              cancelled_store classify_addVersion 2 None h2)
    as (out & rest & Hr & _).
  unfold runs in Hr.
  rewrite <- (for_range_from_ext _ _ (addVersion_attempt_executor E tok _ _))
    in Hr.
  exists (match out with
          | inr res => res
          | inl lastErr =>
              Some (Errorf_w "failed to add secret version: " lastErr)
          end),
    (Do E h2 (post_request tok (versionURL pid name)
                (JSON.Marshal (versionReqBody value)))), rest.
  unfold bind, for_range, maxRetries. rewrite Hr.
  destruct out; reflexivity.
Qed.

(** After a create phase that used up its attempts on 5xx answers naming
    the conflict, the add-version request is sent. *)
Lemma StoreInProject_proceeds_after_5xx body pid name value h tok h1 :
  Regexp.MatchString projectIDRegex pid = true ->
  Regexp.MatchString secretNameRegex name = true ->
  getAccessToken L E h = ((tok, None), h1) ->
  never_cancelled E ->
  (forall h', exists resp,
      Do E h' (post_request tok (createURL pid name) (JSON.Marshal body))
      = inr resp /\ server_error_naming_conflict resp) ->
  exists res evs r rest,
    StoreInProject_with L E body pid name value h
    = (res,
       (h1 ++ evs
        ++ EvDo (post_request tok (versionURL pid name)
                   (JSON.Marshal (versionReqBody value))) r :: rest)%list)
    /\ requests evs = maxRetries
    /\ Forall (fun ev =>
                 ev = EvWait TimerFired
                 \/ exists resp,
                     ev = EvDo (post_request tok (createURL pid name)
                                  (JSON.Marshal body)) (inr resp)
                     /\ server_error_naming_conflict resp) evs.
Proof.
  intros Hp Hn Htok Hnc H5.
  destruct (create_loop_exhausted_on_5xx tok body pid name h1 Hnc H5)
    as (createErr & evs & Hc & Hcf & Hcount & Hall).
  destruct (StoreInProject_after_create body pid name value h tok h1
              createErr _ Hp Hn Htok Hc) as [_ Hgo].
  destruct (Hgo Hcf) as (res & r & rest & Hrun).
  exists res, evs, r, rest. split; [|split; assumption].
  rewrite Hrun. now rewrite <- app_assoc.
Qed.

End CreateServerErrors.


(** ** The attempt cap, and success after a retry *)

Section AttemptCap.

Variable L : Lib.
Variable E : Env.

Lemma sends_at_most_ext {A : Type} n (m m' : M A) :
  (forall h, m h = m' h) -> sends_at_most n m' -> sends_at_most n m.
Proof.
  intros Heq Hm h. destruct (Hm h) as (a & evs & Hr & Hn).
  exists a, evs. split; [|exact Hn]. unfold runs. now rewrite Heq.
Qed.

Lemma loop_cap {S R : Type} (body : nat -> S -> M (flow S R))
  req (cancelled : ctx_error -> R) classify :
  (forall a s h, body a s h = retry_attempt E req cancelled classify a s h) ->
  forall n a s, sends_at_most n (for_range_from n a body s).
Proof.
  intros Hb n a s. eapply sends_at_most_ext.
  - intros h. apply for_range_from_ext. exact Hb.
  - apply executor_cap.
Qed.

(** Each of the five loops sends at most [maxRetries] requests. *)
Lemma loops_respect_cap :
  (forall s, sends_at_most maxRetries
               (for_range maxRetries (getProjectID_attempt L E) s))
  /\ (forall s, sends_at_most maxRetries
                  (for_range maxRetries (getAccessToken_attempt L E) s))
  /\ (forall t url s,
         sends_at_most maxRetries
           (for_range maxRetries (access_attempt L E t url) s))
  /\ (forall tok url payload s,
         sends_at_most maxRetries
           (for_range maxRetries (create_attempt E tok url payload) s))
  /\ (forall tok url payload s,
         sends_at_most maxRetries
           (for_range maxRetries (addVersion_attempt E tok url payload) s)).
Proof.
  split; [|split; [|split; [|split]]]; intros; unfold for_range.
  - apply (loop_cap _ _ _ _ (getProjectID_attempt_executor L E)).
  - apply (loop_cap _ _ _ _ (getAccessToken_attempt_executor L E)).
  - apply (loop_cap _ _ _ _ (access_attempt_executor L E t url)).
  - apply (loop_cap _ _ _ _ (create_attempt_executor E tok url payload)).
  - apply (loop_cap _ _ _ _ (addVersion_attempt_executor E tok url payload)).
Qed.

(** On success the create loop leaves [createErr] as it was. *)
Lemma classify_create_success createErr resp :
  StatusCode resp = StatusOK \/ StatusCode resp = StatusCreated ->
  classify_create createErr (inr resp) = Break createErr.
Proof.
  intros [H|H]; unfold classify_create; rewrite H; reflexivity.
Qed.

(** The create loop when the first answer is a 5xx and the second a
    success: it is left with the error of the first attempt. *)
Lemma create_loop_success_after_5xx tok url payload h resp1 resp2 :
  let req := post_request tok url payload in
  Do E h req = inr resp1 ->
  500 <= StatusCode resp1 < 600 ->
  Select E (h ++ [EvDo req (inr resp1)])%list = TimerFired ->
  Do E (h ++ [EvDo req (inr resp1); EvWait TimerFired])%list req = inr resp2 ->
  StatusCode resp2 = StatusOK \/ StatusCode resp2 = StatusCreated ->
  for_range maxRetries (create_attempt E tok url payload) None h
  = (inl (Some (ErrNew ("status " ++ GoStrings.itoa (StatusCode resp1)
                        ++ ": " ++ read_body resp1))),
     (h ++ [EvDo req (inr resp1); EvWait TimerFired; EvDo req (inr resp2)])%list).
Proof.
  intros req HDo1 H5 Hsel HDo2 Hok.
  unfold for_range, maxRetries.
  rewrite (for_range_from_ext _ _ (create_attempt_executor E tok url payload)).
  fold req.
  rewrite (executor_continue E req cancelled_store classify_create 2 0 None
             (Some (ErrNew ("status " ++ GoStrings.itoa (StatusCode resp1)
                            ++ ": " ++ read_body resp1))) h eq_refl)
    by (cbn [wait_before Nat.ltb Nat.leb ret snd]; rewrite HDo1;
        now apply classify_create_5xx).
  cbn [wait_before Nat.ltb Nat.leb ret snd]. rewrite HDo1.
  assert (Hw : wait_before E 1 (h ++ [EvDo req (inr resp1)])%list
               = (TimerFired,
                  (h ++ [EvDo req (inr resp1); EvWait TimerFired])%list)).
  { rewrite wait_before_S, Hsel. now rewrite <- app_assoc. }
  rewrite (executor_exit E req cancelled_store classify_create 1 1 _ _
             (inl (Some (ErrNew ("status " ++ GoStrings.itoa (StatusCode resp1)
                                 ++ ": " ++ read_body resp1))))).
  - rewrite Hw. cbn [snd]. rewrite HDo2. now rewrite <- app_assoc.
  - now rewrite Hw.
  - rewrite Hw. cbn [snd]. rewrite HDo2.
    now rewrite classify_create_success.
Qed.

End AttemptCap.


(** ** The scenarios of the package's tests, run on the model *)

Section Scenarios.

Example base64_examples :
  Base64.EncodeToString "secret-value" = "c2VjcmV0LXZhbHVl"
  /\ Base64.EncodeToString "hi" = "aGk="
  /\ Base64.EncodeToString "a" = "YQ=="
  /\ Base64.DecodeString "aGk=" = Some "hi"
  /\ Base64.DecodeString "aGk" = None
  /\ Base64.DecodeString "a=Gk" = None.
Proof. repeat split; reflexivity. Qed.

Example regexp_examples :
  Regexp.MatchString projectIDRegex "test-project" = true
  /\ Regexp.MatchString projectIDRegex "" = false
  /\ Regexp.MatchString projectIDRegex "abcde" = false
  /\ Regexp.MatchString projectIDRegex "abcdef" = true
  /\ Regexp.MatchString projectIDRegex "abcde-" = false
  /\ Regexp.MatchString projectIDRegex "Abcdef" = false
  /\ Regexp.MatchString projectIDRegex "a23456789012345678901234567890" = true
  /\ Regexp.MatchString projectIDRegex "a234567890123456789012345678901"
     = false
  /\ Regexp.MatchString secretNameRegex "test-secret_1A" = true
  /\ Regexp.MatchString secretNameRegex "" = false
  /\ Regexp.MatchString secretNameRegex "a/b" = false.
Proof. repeat split; vm_compute; reflexivity. Qed.

(** [TestFetch], "successful get". *)
Example fetch_succeeds :
  fst (Fetch Sample.lib (Sample.env_access_flaky 0) "test-secret" [])
  = ("secret-value", None).
Proof. vm_compute. reflexivity. Qed.

(** [TestGetProjectRetry], "retry on 5xx errors": two failures, then the
    secret, in three attempts. *)
Example fetch_succeeds_on_third_attempt :
  let run := FetchFromProject Sample.lib (Sample.env_access_flaky 2)
               "test-project" "test-secret" [] in
  fst run = ("secret-value", None)
  /\ exchanges Sample.is_api (snd run) = 3%nat.
Proof. vm_compute. split; reflexivity. Qed.

(** When the API stays down the three attempts are used up. *)
Example fetch_gives_up_after_three_attempts :
  let run := FetchFromProject Sample.lib Sample.env_api_down
               "test-project" "test-secret" [] in
  fst run = ("", Some (ErrWrap "failed to access secret: "
                         (ErrNew "status 503")))
  /\ exchanges Sample.is_api (snd run) = 3%nat.
Proof. vm_compute. split; reflexivity. Qed.

(** [TestEmptyResponses], "empty project ID response". *)
Example blank_project_id_fails :
  fst (Fetch Sample.lib Sample.env_blank_project "test-secret" [])
  = ("", Some (ErrWrap "failed to get project ID: "
                 (ErrNew "empty project ID"))).
Proof. vm_compute. reflexivity. Qed.

(** [TestStoreInProject], "successful store new secret". *)
Example store_new_secret_succeeds :
  fst (StoreInProject Sample.lib Sample.env_new_secret
         "test-project" "test-secret" "secret-value" []) = None.
Proof. vm_compute. reflexivity. Qed.

(** [TestStoreRetry], "retry on 5xx errors during add version": the
    add-version call does succeed on its third attempt. *)
Example store_succeeds_on_third_addVersion :
  let run := StoreInProject Sample.lib Sample.env_addVersion_flaky
               "test-project" "test-secret" "test-value" [] in
  fst run = None
  /\ exchanges (fun rq => Sample.is_api rq && negb (Sample.is_create rq))
       (snd run) = 3%nat.
Proof. vm_compute. split; reflexivity. Qed.

(** [TestStoreRetry], "exhausts all retries on create". *)
Example store_gives_up_on_create :
  let run := StoreInProject Sample.lib Sample.env_api_down
               "test-project" "test-secret" "test-value" [] in
  fst run = Some (ErrWrap "failed to create secret: " (ErrNew "status 503: "))
  /\ exchanges Sample.is_api (snd run) = 3%nat.
Proof. vm_compute. split; reflexivity. Qed.

(** [TestReplicationPolicy] on the first copy of [StoreInProject]. *)
Example create_body_of_first_copy :
  JSON.Marshal createReqBody = automatic_replication_json.
Proof. reflexivity. Qed.

End Scenarios.


(** ** What a loop leaves behind, and loops that keep retrying *)

Section ExecutorOutcomes.

Variable E : Env.
Context {S R : Type}.
Variable req : Request.
Variable cancelled : ctx_error -> R.
Variable classify : S -> error + Response -> flow S R.

Let body := retry_attempt E req cancelled classify.

Lemma wait_before_shape a h :
  exists ws,
    snd (wait_before E a h) = (h ++ ws)%list
    /\ requests ws = O /\ (waits ws <= 1)%nat
    /\ (a = O -> ws = [])
    /\ (ws = [] /\ fst (wait_before E a h) = TimerFired
        \/ ws = [EvWait (fst (wait_before E a h))]).
Proof.
  destruct a.
  - exists []. simpl. rewrite app_nil_r. repeat split; auto.
  - exists [EvWait (Select E h)]. rewrite wait_before_S. simpl.
    repeat split; auto. discriminate.
Qed.

(** Where the value that leaves the loop comes from, and that the event
    that produced it is the last one. [I] is an invariant of the loop
    variables under [continue]. A loop left after its last iteration has
    sent one request per iteration. *)
Lemma executor_outcome (I : S -> Prop) :
  (forall s x s', I s -> classify s x = Continue s' -> I s') ->
  forall n a s h o h',
    I s ->
    for_range_from n a body s h = (o, h') ->
    match o with
    | inl s' =>
        (n = O /\ s' = s /\ h' = h)
        \/ (exists pre s0 x,
               I s0 /\ h' = (h ++ pre ++ [EvDo req x])%list
               /\ classify s0 x = Continue s'
               /\ requests (pre ++ [EvDo req x]) = n)
        \/ (exists pre s0 x,
               I s0 /\ h' = (h ++ pre ++ [EvDo req x])%list
               /\ classify s0 x = Break s')
    | inr r =>
        (exists pre e,
            h' = (h ++ pre ++ [EvWait (CtxDone e)])%list /\ r = cancelled e)
        \/ exists pre s0 x,
             I s0 /\ h' = (h ++ pre ++ [EvDo req x])%list
             /\ classify s0 x = Return r
    end.
Proof.
  intros HI. induction n as [|n IH]; intros a s h o h' Hs Hrun.
  - simpl in Hrun. injection Hrun as <- <-. left. auto.
  - simpl in Hrun. unfold bind in Hrun.
    unfold body at 1, retry_attempt, bind in Hrun.
    destruct (wait_before_shape a h) as (ws & Hh1 & Hreq & _ & _ & Hws).
    destruct (wait_before E a h) as [w h1]. simpl in Hh1, Hws. subst h1.
    destruct w as [|e].
    + unfold httpClient_Do in Hrun.
      set (x := Do E (h ++ ws)%list req) in *.
      destruct (classify s x) as [s1|s1|r] eqn:Hc.
      * fold body in Hrun.
        specialize (IH _ _ _ _ _ (HI _ _ _ Hs Hc) Hrun).
        destruct o as [s'|r].
        -- right.
           destruct IH as [(-> & -> & ->)
                          |[(pre & s0 & y & H0 & -> & Hy & Hcount)
                           |(pre & s0 & y & H0 & -> & Hy)]].
           ++ left. exists ws, s, x. split; [exact Hs|].
              split; [now rewrite <- app_assoc|]. split; [exact Hc|].
              unfold requests in *. rewrite exchanges_app. simpl.
              now rewrite Hreq.
           ++ left. exists (ws ++ EvDo req x :: pre)%list, s0, y.
              split; [exact H0|].
              split; [rewrite <- !app_assoc; reflexivity|].
              split; [exact Hy|].
              unfold requests in *. rewrite <- app_assoc, exchanges_app.
              simpl. rewrite Hreq, Hcount. reflexivity.
           ++ right. exists (ws ++ EvDo req x :: pre)%list, s0, y.
              split; [exact H0|]. split; [|exact Hy].
              rewrite <- !app_assoc. reflexivity.
        -- destruct IH as [(pre & e & -> & ->)|(pre & s0 & y & H0 & -> & Hy)].
           ++ left. exists (ws ++ EvDo req x :: pre)%list, e.
              split; [|reflexivity]. rewrite <- !app_assoc. reflexivity.
           ++ right. exists (ws ++ EvDo req x :: pre)%list, s0, y.
              split; [exact H0|]. split; [|exact Hy].
              rewrite <- !app_assoc. reflexivity.
      * injection Hrun as <- <-. right. right. exists ws, s, x.
        split; [exact Hs|]. split; [now rewrite <- app_assoc | exact Hc].
      * injection Hrun as <- <-. right. exists ws, s, x.
        split; [exact Hs|]. split; [now rewrite <- app_assoc | exact Hc].
    + injection Hrun as <- <-. left.
      destruct Hws as [[_ Hw]| ->]; [discriminate|].
      exists [], e. now split.
Qed.

Lemma after_attempts_S_r k : forall a h,
  after_attempts E req (Datatypes.S k) a h
  = (snd (wait_before E (a + k) (after_attempts E req k a h))
     ++ [EvDo req
           (Do E (snd (wait_before E (a + k) (after_attempts E req k a h)))
              req)])%list.
Proof.
  induction k as [|k IH]; intros a h.
  - simpl. now rewrite Nat.add_0_r.
  - change (after_attempts E req (Datatypes.S (Datatypes.S k)) a h)
      with (after_attempts E req (Datatypes.S k) (Datatypes.S a)
              (snd (wait_before E a h)
               ++ [EvDo req (Do E (snd (wait_before E a h)) req)])%list).
    rewrite IH. simpl after_attempts.
    now rewrite Nat.add_succ_r.
Qed.

(** Every retried attempt has sent one request. *)
Lemma after_attempts_requests k : forall a h,
  requests (after_attempts E req k a h) = (requests h + k)%nat.
Proof.
  induction k as [|k IH]; intros a h; cbn [after_attempts].
  - now rewrite Nat.add_0_r.
  - rewrite IH. destruct (wait_before_shape a h) as (ws & -> & Hws & _).
    unfold requests in *. rewrite !exchanges_app, Hws. simpl. lia.
Qed.

(** With no wait cut short, [k] iterations whose answers mean [continue]
    hand over to the rest of the loop; the loop variables are then those
    the last of these iterations left. *)
Lemma executor_retries (Hnc : never_cancelled E) k : forall n a s h,
  (forall i, (i < k)%nat ->
     forall s0, exists s1,
       classify s0
         (Do E (snd (wait_before E (a + i) (after_attempts E req i a h))) req)
       = Continue s1) ->
  exists s',
    for_range_from (k + n) a body s h
    = for_range_from n (a + k) body s' (after_attempts E req k a h)
    /\ (k = O -> s' = s)
    /\ (forall j, k = Datatypes.S j ->
          exists s0,
            classify s0
              (Do E (snd (wait_before E (a + j)
                            (after_attempts E req j a h))) req)
            = Continue s').
Proof.
  induction k as [|k IH]; intros n a s h Hk.
  - exists s. rewrite Nat.add_0_r. repeat split; auto. discriminate.
  - assert (Hw : fst (wait_before E a h) = TimerFired).
    { destruct a; [reflexivity|]. rewrite wait_before_S. apply Hnc. }
    destruct (Hk O (Nat.lt_0_succ k) s) as (s1 & Hc).
    rewrite Nat.add_0_r in Hc. simpl after_attempts in Hc.
    change (Datatypes.S k + n)%nat with (Datatypes.S (k + n)).
    unfold body. rewrite (executor_continue E req cancelled classify
                            (k + n) a s s1 h Hw Hc).
    fold body.
    destruct (IH n (Datatypes.S a) s1
                (snd (wait_before E a h)
                 ++ [EvDo req (Do E (snd (wait_before E a h)) req)])%list)
      as (s' & Hrun & H0 & HS).
    { intros i Hi s0. specialize (Hk (Datatypes.S i) (proj1 (Nat.succ_lt_mono _ _) Hi) s0).
      rewrite Nat.add_succ_r in Hk. exact Hk. }
    exists s'. split; [|split].
    + rewrite Hrun. simpl after_attempts. now rewrite Nat.add_succ_r.
    + discriminate.
    + intros j Hj. injection Hj as <-. destruct k as [|k'].
      * rewrite (H0 eq_refl). exists s. now rewrite Nat.add_0_r.
      * destruct (HS k' eq_refl) as (s0 & Hs0). exists s0.
        rewrite Nat.add_succ_r. exact Hs0.
Qed.

Lemma waits_app (l1 l2 : list Event) :
  waits (l1 ++ l2) = (waits l1 + waits l2)%nat.
Proof.
  induction l1 as [|[rq r|w] l1 IH]; simpl; [reflexivity|exact IH|].
  now rewrite IH.
Qed.

(** The loop sends at most one request per iteration and waits before
    every iteration but the one of index 0. *)
Lemma executor_budget n : forall a s,
  within_budget n (if (a =? 0)%nat then Nat.pred n else n)
    (for_range_from n a body s).
Proof.
  induction n as [|n IH]; intros a s h.
  - exists (inl s), []. split; [apply runs_ret|].
    destruct a; cbn; split; apply Nat.le_0_l.
  - destruct (wait_before_shape a h) as (ws & Hh1 & Hreq & Hwt & Ha0 & Hws).
    unfold runs. cbn [for_range_from].
    unfold bind, body at 1, retry_attempt, bind, ret.
    destruct (wait_before E a h) as [w h1]. simpl in Hh1, Hws. subst h1.
    assert (Hbudget : (waits ws + n
                       <= (if (a =? 0)%nat then Nat.pred (Datatypes.S n)
                           else Datatypes.S n))%nat).
    { destruct a; simpl.
      - rewrite (Ha0 eq_refl). simpl. lia.
      - lia. }
    destruct w as [|e].
    + unfold httpClient_Do.
      set (r := Do E (h ++ ws)%list req).
      destruct (classify s r) as [s'|s'|x].
      * fold body.
        destruct (IH (Datatypes.S a) s' ((h ++ ws) ++ [EvDo req r])%list)
          as (o & evs & Hr & Hn & Hwn). simpl in Hwn.
        exists o, (ws ++ EvDo req r :: evs)%list. split; [|split].
        -- unfold runs in *. rewrite Hr. f_equal.
           now rewrite <- !app_assoc.
        -- unfold requests in *. rewrite exchanges_app. simpl.
           rewrite Hreq. lia.
        -- rewrite waits_app. cbn [waits].
           eapply Nat.le_trans; [|exact Hbudget]. lia.
      * exists (inl s'), (ws ++ [EvDo req r])%list. split; [|split].
        -- unfold runs. now rewrite app_assoc.
        -- unfold requests in *. rewrite exchanges_app. simpl.
           rewrite Hreq. lia.
        -- rewrite waits_app. cbn [waits].
           eapply Nat.le_trans; [|exact Hbudget]. lia.
      * exists (inr x), (ws ++ [EvDo req r])%list. split; [|split].
        -- unfold runs. now rewrite app_assoc.
        -- unfold requests in *. rewrite exchanges_app. simpl.
           rewrite Hreq. lia.
        -- rewrite waits_app. cbn [waits].
           eapply Nat.le_trans; [|exact Hbudget]. lia.
    + exists (inr (cancelled e)), ws. split; [reflexivity|].
      split; [lia|]. eapply Nat.le_trans; [|exact Hbudget]. lia.
Qed.

End ExecutorOutcomes.


(** ** The budget of whole operations *)

Section Budget.

Variable L : Lib.
Variable E : Env.

Lemma within_budget_ret {A : Type} (a : A) n w : within_budget n w (ret a).
Proof.
  intros h. exists a, []. split; [apply runs_ret|]. split; apply Nat.le_0_l.
Qed.

Lemma within_budget_weaken {A : Type} n w n' w' (m : M A) :
  (n <= n')%nat -> (w <= w')%nat ->
  within_budget n w m -> within_budget n' w' m.
Proof.
  intros Hn Hw Hm h. destruct (Hm h) as (a & evs & Hr & H1 & H2).
  exists a, evs. split; [exact Hr|]. split; lia.
Qed.

Lemma within_budget_bind {A B : Type} n w n' w' (m : M A) (k : A -> M B) :
  within_budget n w m -> (forall a, within_budget n' w' (k a)) ->
  within_budget (n + n') (w + w') (bind m k).
Proof.
  intros Hm Hk h. destruct (Hm h) as (a & evs & Hr & H1 & H2).
  destruct (Hk a (h ++ evs)%list) as (b & evs' & Hr' & H1' & H2').
  exists b, (evs ++ evs')%list. split.
  - unfold runs, bind in *. rewrite Hr, Hr'. now rewrite app_assoc.
  - unfold requests in *. rewrite exchanges_app, waits_app. split; lia.
Qed.

Lemma within_budget_ext {A : Type} n w (m m' : M A) :
  (forall h, m h = m' h) -> within_budget n w m' -> within_budget n w m.
Proof.
  intros Heq Hm h. destruct (Hm h) as (a & evs & Hr & Hn).
  exists a, evs. split; [|exact Hn]. unfold runs. now rewrite Heq.
Qed.

(** A loop of the package: at most [maxRetries] requests, and a wait
    before each of them but the first. *)
Lemma loop_budget {S R : Type} (body : nat -> S -> M (flow S R))
  req (cancelled : ctx_error -> R) classify :
  (forall a s h, body a s h = retry_attempt E req cancelled classify a s h) ->
  forall s,
    within_budget maxRetries (Nat.pred maxRetries)
      (for_range maxRetries body s).
Proof.
  intros Hb s. eapply within_budget_ext.
  - intros h. apply for_range_from_ext. exact Hb.
  - apply (executor_budget E req cancelled classify maxRetries O s).
Qed.

Lemma getProjectID_budget :
  within_budget maxRetries (Nat.pred maxRetries) (getProjectID L E).
Proof.
  unfold getProjectID.
  apply (within_budget_weaken (maxRetries + 0) (Nat.pred maxRetries + 0));
    [lia | lia |].
  apply within_budget_bind.
  - apply (loop_budget _ _ _ _ (getProjectID_attempt_executor L E)).
  - intros [[p lastErr]|res]; [|apply within_budget_ret].
    destruct (GoStrings.is_empty p); apply within_budget_ret.
Qed.

Lemma getAccessToken_budget :
  within_budget maxRetries (Nat.pred maxRetries) (getAccessToken L E).
Proof.
  unfold getAccessToken.
  apply (within_budget_weaken (maxRetries + 0) (Nat.pred maxRetries + 0));
    [lia | lia |].
  apply within_budget_bind.
  - apply (loop_budget _ _ _ _ (getAccessToken_attempt_executor L E)).
  - intros [[p lastErr]|res]; [|apply within_budget_ret].
    destruct (GoStrings.is_empty p); apply within_budget_ret.
Qed.

Lemma FetchFromProject_budget pid name :
  within_budget (2 * maxRetries) (2 * Nat.pred maxRetries)
    (FetchFromProject L E pid name).
Proof.
  unfold FetchFromProject.
  destruct (negb _); [apply within_budget_ret|].
  destruct (negb _); [apply within_budget_ret|].
  apply (within_budget_weaken (maxRetries + (maxRetries + 0))
           (Nat.pred maxRetries + (Nat.pred maxRetries + 0))); [lia | lia |].
  apply within_budget_bind; [apply getAccessToken_budget|].
  intros [t [err|]]; [apply within_budget_ret|].
  apply within_budget_bind.
  - apply (loop_budget _ _ _ _ (access_attempt_executor L E t _)).
  - intros [lastErr|res]; apply within_budget_ret.
Qed.

Lemma StoreInProject_budget body pid name value :
  within_budget (3 * maxRetries) (3 * Nat.pred maxRetries)
    (StoreInProject_with L E body pid name value).
Proof.
  unfold StoreInProject_with.
  destruct (negb _); [apply within_budget_ret|].
  destruct (negb _); [apply within_budget_ret|].
  apply (within_budget_weaken
           (maxRetries + (maxRetries + (maxRetries + 0)))
           (Nat.pred maxRetries
            + (Nat.pred maxRetries + (Nat.pred maxRetries + 0))));
    [lia | lia |].
  apply within_budget_bind; [apply getAccessToken_budget|].
  intros [tok [err|]]; [apply within_budget_ret|].
  apply within_budget_bind.
  - apply (loop_budget _ _ _ _ (create_attempt_executor E tok _ _)).
  - intros [createErr|res]; [|apply within_budget_ret].
    destruct (create_failed createErr); [apply within_budget_ret|].
    apply within_budget_bind.
    + apply (loop_budget _ _ _ _ (addVersion_attempt_executor E tok _ _)).
    + intros [lastErr|res]; apply within_budget_ret.
Qed.

Lemma Fetch_budget name :
  within_budget (3 * maxRetries) (3 * Nat.pred maxRetries) (Fetch L E name).
Proof.
  unfold Fetch. destruct (negb _); [apply within_budget_ret|].
  apply (within_budget_weaken (maxRetries + 2 * maxRetries)
           (Nat.pred maxRetries + 2 * Nat.pred maxRetries)); [lia | lia |].
  apply within_budget_bind; [apply getProjectID_budget|].
  intros [p [err|]]; [apply within_budget_ret|].
  apply FetchFromProject_budget.
Qed.

Lemma Store_budget body name value :
  within_budget (4 * maxRetries) (4 * Nat.pred maxRetries)
    (Store_with L E body name value).
Proof.
  unfold Store_with. destruct (negb _); [apply within_budget_ret|].
  apply (within_budget_weaken (maxRetries + 3 * maxRetries)
           (Nat.pred maxRetries + 3 * Nat.pred maxRetries)); [lia | lia |].
  apply within_budget_bind; [apply getProjectID_budget|].
  intros [p [err|]]; [apply within_budget_ret|].
  apply StoreInProject_budget.
Qed.

End Budget.


(** ** The decisions of the five loops, case by case *)

Section Decisions.

Variable L : Lib.

Lemma read_through (resp : Response) :
  ReadAll (LimitReader (RespBody resp) maxBodySize)
  = (read_body resp, read_error resp).
Proof. reflexivity. Qed.

Lemma status_ok_not_4xx (resp : Response) :
  StatusCode resp = StatusOK -> is_4xx (StatusCode resp) = false.
Proof. intros ->. reflexivity. Qed.

(** [getProjectID]: either the answer is a failure and the loop goes on
    with its cause, or it names a project and the loop is left. *)
Lemma classify_projectID_cases st x :
  (exists e p',
      projectID_failure L x e
      /\ classify_projectID L st x = Continue (p', Some e)
      /\ (p' = fst st \/ p' = ""))
  \/ (exists resp p,
         x = inr resp /\ names_project L resp p
         /\ classify_projectID L st x = Break (p, snd st)).
Proof.
  destruct st as [p0 lastErr]. unfold classify_projectID.
  destruct x as [err|resp].
  - left. exists err, p0. simpl. auto.
  - destruct (Z.eqb_spec (StatusCode resp) StatusOK) as [Hok|Hne];
      cbn [negb].
    + rewrite read_through. destruct (read_error resp) as [e|] eqn:Hre.
      * left. exists e, p0. simpl. split; [|auto]. right. left. auto.
      * destruct (GoStrings.is_empty (TrimSpace L (read_body resp))) eqn:He;
          cbn [negb].
        -- apply GoStringsFacts.is_empty_true in He.
           left. exists (ErrNew "empty project ID"), "". rewrite He.
           split; [|auto]. simpl. right. right. auto.
        -- apply GoStringsFacts.is_empty_false in He.
           right. exists resp, (TrimSpace L (read_body resp)).
           split; [reflexivity|]. split; [|reflexivity].
           repeat split; auto.
    + left. eexists _, p0. split; [|split; [reflexivity|now left]].
      simpl. left. auto.
Qed.

Lemma classify_projectID_failure st x e :
  projectID_failure L x e ->
  exists p', classify_projectID L st x = Continue (p', Some e)
             /\ (p' = fst st \/ p' = "").
Proof.
  destruct st as [p0 lastErr]. unfold classify_projectID.
  destruct x as [err|resp];
    cbn [projectID_failure token_failure access_failure addVersion_failure].
  - intros ->. exists p0. auto.
  - intros [[Hne ->]|[[Hok Hre]|(Hok & Hre & Hp & ->)]].
    + apply Z.eqb_neq in Hne. rewrite Hne. cbn [negb]. exists p0. auto.
    + rewrite Hok. cbn [negb Z.eqb StatusOK Pos.eqb].
      rewrite read_through, Hre. exists p0. auto.
    + rewrite Hok. cbn [negb Z.eqb StatusOK Pos.eqb].
      rewrite read_through, Hre, Hp. exists "". auto.
Qed.

Lemma classify_projectID_ok st resp p :
  names_project L resp p ->
  classify_projectID L st (inr resp) = Break (p, snd st).
Proof.
  destruct st as [p0 lastErr]. intros (Hok & Hre & Hp & Hne).
  unfold classify_projectID. rewrite Hok.
  cbn [negb Z.eqb StatusOK Pos.eqb]. rewrite read_through, Hre, Hp.
  apply GoStringsFacts.is_empty_false in Hne. now rewrite Hne.
Qed.

(** [getAccessToken], in the same way. *)
Lemma classify_token_cases st x :
  (exists e,
      token_failure L x e
      /\ classify_token L st x = Continue (fst st, Some e))
  \/ (exists resp t,
         x = inr resp /\ grants_token L resp t
         /\ classify_token L st x = Break (t, snd st)).
Proof.
  destruct st as [t0 lastErr]. unfold classify_token.
  destruct x as [err|resp].
  - left. exists err. simpl. auto.
  - destruct (Z.eqb_spec (StatusCode resp) StatusOK) as [Hok|Hne];
      cbn [negb].
    + destruct (DecodeAccessToken L (LimitReader (RespBody resp) maxBodySize))
        as [e|t] eqn:Hd.
      * left. exists e. simpl. split; [|reflexivity]. right. left. auto.
      * destruct (GoStrings.is_empty t) eqn:He; cbn [negb].
        -- apply GoStringsFacts.is_empty_true in He. subst t.
           left. exists (ErrNew "empty access token").
           split; [|reflexivity]. simpl. right. right. auto.
        -- apply GoStringsFacts.is_empty_false in He.
           right. exists resp, t. split; [reflexivity|].
           split; [|reflexivity]. repeat split; auto.
    + left. eexists. split; [|reflexivity]. simpl. left. auto.
Qed.

Lemma classify_token_failure st x e :
  token_failure L x e ->
  classify_token L st x = Continue (fst st, Some e).
Proof.
  destruct st as [t0 lastErr]. unfold classify_token.
  destruct x as [err|resp];
    cbn [projectID_failure token_failure access_failure addVersion_failure].
  - now intros ->.
  - intros [[Hne ->]|[[Hok Hd]|(Hok & Hd & ->)]].
    + apply Z.eqb_neq in Hne. now rewrite Hne.
    + rewrite Hok. cbn [negb Z.eqb StatusOK Pos.eqb]. now rewrite Hd.
    + rewrite Hok. cbn [negb Z.eqb StatusOK Pos.eqb]. now rewrite Hd.
Qed.

Lemma classify_token_ok st resp t :
  grants_token L resp t ->
  classify_token L st (inr resp) = Break (t, snd st).
Proof.
  destruct st as [t0 lastErr]. intros (Hok & Hd & Hne).
  unfold classify_token. rewrite Hok.
  cbn [negb Z.eqb StatusOK Pos.eqb]. rewrite Hd.
  apply GoStringsFacts.is_empty_false in Hne. now rewrite Hne.
Qed.

(** The access loop: a failure, a client error, or the secret. *)
Lemma classify_access_cases s x :
  (exists e, access_failure L x e
             /\ classify_access L s x = Continue (Some e))
  \/ (exists resp,
         x = inr resp /\ is_4xx (StatusCode resp) = true
         /\ classify_access L s x
            = Return ("", Some (ErrNew ("failed to access secret: status "
                                        ++ GoStrings.itoa (StatusCode resp)))))
  \/ (exists resp v,
         x = inr resp /\ serves L resp v
         /\ classify_access L s x = Return (v, None)).
Proof.
  unfold classify_access. destruct x as [err|resp].
  - left. exists err. simpl. auto.
  - destruct (is_4xx (StatusCode resp)) eqn:H4.
    + right. left. exists resp. auto.
    + destruct (Z.eqb_spec (StatusCode resp) StatusOK) as [Hok|Hne];
        cbn [negb].
      * rewrite read_through. destruct (read_error resp) as [e|] eqn:Hre.
        -- left. exists e. split; [|reflexivity]. simpl. right. left. auto.
        -- destruct (UnmarshalPayloadData L (read_body resp))
             as [e|Data] eqn:Hu.
           ++ left. exists e. split; [|reflexivity]. simpl. right. right.
              split; [exact Hok|]. split; [exact Hre|]. now left.
           ++ destruct (Base64.DecodeString Data) as [v|] eqn:Hd.
              ** right. right. exists resp, v. split; [reflexivity|].
                 split; [|reflexivity].
                 split; [exact Hok|]. split; [exact Hre|]. now exists Data.
              ** left. eexists. split; [|reflexivity]. simpl. right. right.
                 split; [exact Hok|]. split; [exact Hre|]. right.
                 now exists Data.
      * left. eexists. split; [|reflexivity]. simpl. left. auto.
Qed.

Lemma classify_access_failure s x e :
  access_failure L x e -> classify_access L s x = Continue (Some e).
Proof.
  destruct x as [err|resp];
    cbn [projectID_failure token_failure access_failure addVersion_failure].
  - now intros ->.
  - intros [(H4 & Hne & ->)|[[Hok Hre]|Hdec]].
    + unfold classify_access. apply Z.eqb_neq in Hne. now rewrite H4, Hne.
    + unfold classify_access.
      rewrite (status_ok_not_4xx _ Hok), Hok.
      cbn [negb Z.eqb StatusOK Pos.eqb]. now rewrite read_through, Hre.
    + now apply classify_access_decode_failure.
Qed.

Lemma classify_access_serves s resp v :
  serves L resp v -> classify_access L s (inr resp) = Return (v, None).
Proof.
  intros (Hok & Hre & Data & Hu & Hd). unfold classify_access.
  rewrite (status_ok_not_4xx _ Hok), Hok.
  cbn [negb Z.eqb StatusOK Pos.eqb]. now rewrite read_through, Hre, Hu, Hd.
Qed.

(** The create loop: a failure, or one of the four ways out. *)
Lemma classify_create_cases s x :
  (exists e, classify_create s x = Continue (Some e)
             /\ (forall resp, x = inr resp ->
                   e = ErrNew ("status " ++ GoStrings.itoa (StatusCode resp)
                               ++ ": " ++ read_body resp)))
  \/ (exists resp,
         x = inr resp
         /\ (StatusCode resp = StatusOK \/ StatusCode resp = StatusCreated)
         /\ classify_create s x = Break s)
  \/ (exists resp,
         x = inr resp /\ StatusCode resp = StatusConflict
         /\ classify_create s x
            = Break (Some (ErrNew "secret already exists: status 409")))
  \/ (exists resp,
         x = inr resp /\ is_4xx (StatusCode resp) = true
         /\ StatusCode resp <> StatusConflict
         /\ classify_create s x
            = Return (Some (ErrNew ("failed to create secret: status "
                                    ++ GoStrings.itoa (StatusCode resp)
                                    ++ ": " ++ read_body resp)))).
Proof.
  unfold classify_create. destruct x as [err|resp].
  - left. exists err. split; [reflexivity | discriminate].
  - destruct (Z.eqb_spec (StatusCode resp) StatusOK) as [Hok|Hnok];
      [right; left; exists resp; auto|].
    destruct (Z.eqb_spec (StatusCode resp) StatusCreated) as [Hcr|Hncr];
      [right; left; exists resp; auto|].
    cbn [orb]. rewrite read_through.
    destruct (Z.eqb_spec (StatusCode resp) StatusConflict) as [Hcf|Hncf].
    + right. right. left. exists resp. rewrite Hcf. auto.
    + destruct (is_4xx (StatusCode resp)) eqn:H4.
      * right. right. right. exists resp. auto.
      * left. eexists. split; [reflexivity|].
        intros resp' Hr. now injection Hr as <-.
Qed.

(** The add-version loop: a failure, a client error, or success. *)
Lemma classify_addVersion_cases s x :
  (exists e, addVersion_failure x e
             /\ classify_addVersion s x = Continue (Some e))
  \/ (exists resp,
         x = inr resp /\ is_4xx (StatusCode resp) = true
         /\ classify_addVersion s x
            = Return (Some (ErrNew ("failed to add secret version: status "
                                    ++ GoStrings.itoa (StatusCode resp)
                                    ++ ": " ++ read_body resp))))
  \/ (exists resp,
         x = inr resp /\ StatusCode resp = StatusOK
         /\ classify_addVersion s x = Return None).
Proof.
  unfold classify_addVersion. destruct x as [err|resp].
  - left. exists err. simpl. auto.
  - destruct (Z.eqb_spec (StatusCode resp) StatusOK) as [Hok|Hne].
    + right. right. exists resp. auto.
    + rewrite read_through. destruct (is_4xx (StatusCode resp)) eqn:H4.
      * right. left. exists resp. auto.
      * left. eexists. split; [|reflexivity]. simpl. auto.
Qed.

Lemma classify_addVersion_failure s x e :
  addVersion_failure x e -> classify_addVersion s x = Continue (Some e).
Proof.
  destruct x as [err|resp];
    cbn [projectID_failure token_failure access_failure addVersion_failure].
  - now intros ->.
  - intros (H4 & Hne & ->). unfold classify_addVersion.
    apply Z.eqb_neq in Hne. now rewrite Hne, read_through, H4.
Qed.

End Decisions.


(** ** How the operations end *)

Section Outcomes.

Variable L : Lib.
Variable E : Env.

Lemma getProjectID_run h :
  getProjectID L E h
  = (let (r, h1) :=
       for_range_from maxRetries 0
         (retry_attempt E projectID_request cancelled_fetch
            (classify_projectID L)) ("", None) h in
     match r with
     | inr res => (res, h1)
     | inl (p, lastErr) =>
         if GoStrings.is_empty p
         then (("", Some (Errorf_w "failed to get project ID: " lastErr)), h1)
         else ((p, None), h1)
     end).
Proof.
  unfold getProjectID, for_range, bind.
  rewrite (for_range_from_ext _ _ (getProjectID_attempt_executor L E)).
  destruct (for_range_from _ _ _ _ _) as [[[p lastErr]|res] h1];
    [|reflexivity].
  destruct (GoStrings.is_empty p); reflexivity.
Qed.

Lemma getAccessToken_run h :
  getAccessToken L E h
  = (let (r, h1) :=
       for_range_from maxRetries 0
         (retry_attempt E token_request cancelled_fetch (classify_token L))
         ("", None) h in
     match r with
     | inr res => (res, h1)
     | inl (t, lastErr) =>
         if GoStrings.is_empty t
         then (("", Some (Errorf_w "failed to get access token: " lastErr)),
               h1)
         else ((t, None), h1)
     end).
Proof.
  unfold getAccessToken, for_range, bind.
  rewrite (for_range_from_ext _ _ (getAccessToken_attempt_executor L E)).
  destruct (for_range_from _ _ _ _ _) as [[[p lastErr]|res] h1];
    [|reflexivity].
  destruct (GoStrings.is_empty p); reflexivity.
Qed.

Lemma FetchFromProject_run pid name h :
  Regexp.MatchString projectIDRegex pid = true ->
  Regexp.MatchString secretNameRegex name = true ->
  FetchFromProject L E pid name h
  = (let (tr, h1) := getAccessToken L E h in
     match tr with
     | (_, Some err) => (("", Some err), h1)
     | (t, None) =>
         let (r, h2) :=
           for_range_from maxRetries 0
             (retry_attempt E (access_request t (accessURL pid name))
                cancelled_fetch (classify_access L)) None h1 in
         match r with
         | inr res => (res, h2)
         | inl lastErr =>
             (("", Some (Errorf_w "failed to access secret: " lastErr)), h2)
         end
     end).
Proof.
  intros Hp Hn. unfold FetchFromProject. rewrite Hp, Hn. cbn [negb].
  unfold bind at 1. destruct (getAccessToken L E h) as [[t [err|]] h1];
    [reflexivity|].
  unfold for_range, bind.
  rewrite (for_range_from_ext _ _ (access_attempt_executor L E t _)).
  destruct (for_range_from _ _ _ _ _) as [[lastErr|res] h2]; reflexivity.
Qed.

Lemma StoreInProject_run body pid name value h :
  Regexp.MatchString projectIDRegex pid = true ->
  Regexp.MatchString secretNameRegex name = true ->
  StoreInProject_with L E body pid name value h
  = (let (tr, h1) := getAccessToken L E h in
     match tr with
     | (_, Some err) => (Some err, h1)
     | (tok, None) =>
         let (c, h2) :=
           for_range_from maxRetries 0
             (retry_attempt E (create_request tok pid name body)
                cancelled_store classify_create) None h1 in
         match c with
         | inr res => (res, h2)
         | inl createErr =>
             if create_failed createErr then
               (Some (Errorf_w "failed to create secret: " createErr), h2)
             else
               let (a, h3) :=
                 for_range_from maxRetries 0
                   (retry_attempt E
                      (post_request tok (versionURL pid name)
                         (JSON.Marshal (versionReqBody value)))
                      cancelled_store classify_addVersion) None h2 in
               match a with
               | inr res => (res, h3)
               | inl lastErr =>
                   (Some (Errorf_w "failed to add secret version: " lastErr),
                    h3)
               end
         end
     end).
Proof.
  intros Hp Hn. unfold StoreInProject_with. rewrite Hp, Hn. cbn [negb].
  unfold bind at 1. destruct (getAccessToken L E h) as [[tok [err|]] h1];
    [reflexivity|].
  unfold for_range. unfold bind at 1.
  rewrite (for_range_from_ext _ _ (create_attempt_executor E tok _ _)).
  unfold create_request.
  destruct (for_range_from _ _ _ _ _) as [[createErr|res] h2];
    [|reflexivity].
  destruct (create_failed createErr); [reflexivity|].
  unfold bind.
  rewrite (for_range_from_ext _ _ (addVersion_attempt_executor E tok _ _)).
  destruct (for_range_from _ _ _ _ _) as [[lastErr|res] h3]; reflexivity.
Qed.

Lemma maxRetries_pos : maxRetries <> O.
Proof. discriminate. Qed.

Lemma getProjectID_outcome h res h' :
  getProjectID L E h = (res, h') ->
  metadata_outcome projectID_request (names_project L) (projectID_failure L)
    "failed to get project ID: " h res h'.
Proof.
  rewrite getProjectID_run.
  destruct (for_range_from _ _ _ _ _) as [o h1] eqn:Hloop.
  assert (Hinv : forall s x s',
             fst s = "" -> classify_projectID L s x = Continue s' ->
             fst s' = "").
  { intros s x s' Hs Hc.
    destruct (classify_projectID_cases L s x)
      as [(e & p' & _ & Hc' & Hp)|(resp & p & _ & _ & Hc')];
      rewrite Hc' in Hc; [|discriminate].
    injection Hc as <-. simpl. destruct Hp; congruence. }
  pose proof (executor_outcome E projectID_request cancelled_fetch
                (classify_projectID L) (fun st => fst st = "") Hinv
                maxRetries O ("", None) h o h1 eq_refl Hloop) as Hout.
  cbv beta in Hout.
  destruct o as [[p lastErr]|r].
  - destruct Hout as [(Hn & _)
                     |[(pre & s0 & x & H0 & -> & Hc & Hcount)
                      |(pre & s0 & x & H0 & -> & Hc)]].
    + now apply maxRetries_pos in Hn.
    + destruct (classify_projectID_cases L s0 x)
        as [(e & p' & Hf & Hc' & Hp)|(resp & p1 & _ & _ & Hc')];
        rewrite Hc' in Hc; [|discriminate].
      injection Hc as <- <-.
      assert (p' = "") by (destruct Hp; congruence). subst p'.
      cbn [GoStrings.is_empty Errorf_w]. intros Heq.
      injection Heq as <- <-. now apply metadata_gave_up.
    + destruct (classify_projectID_cases L s0 x)
        as [(e & p' & _ & Hc' & _)|(resp & p1 & -> & Hnp & Hc')];
        rewrite Hc' in Hc; [discriminate|].
      injection Hc as <- <-.
      destruct Hnp as (Hok & Hre & Hp & Hne).
      apply GoStringsFacts.is_empty_false in Hne as He. rewrite He.
      intros Heq. injection Heq as <- <-.
      apply metadata_granted. repeat split; auto.
  - destruct Hout as [(pre & e & -> & ->)|(pre & s0 & x & _ & _ & Hc)].
    + intros Heq. injection Heq as <- <-. apply metadata_cancelled.
    + destruct (classify_projectID_cases L s0 x)
        as [(e & p' & _ & Hc' & _)|(resp & p1 & _ & _ & Hc')];
        rewrite Hc' in Hc; discriminate.
Qed.

Lemma getAccessToken_outcome h res h' :
  getAccessToken L E h = (res, h') ->
  metadata_outcome token_request (grants_token L) (token_failure L)
    "failed to get access token: " h res h'.
Proof.
  rewrite getAccessToken_run.
  destruct (for_range_from _ _ _ _ _) as [o h1] eqn:Hloop.
  assert (Hinv : forall s x s',
             fst s = "" -> classify_token L s x = Continue s' ->
             fst s' = "").
  { intros s x s' Hs Hc.
    destruct (classify_token_cases L s x)
      as [(e & _ & Hc')|(resp & p & _ & _ & Hc')];
      rewrite Hc' in Hc; [|discriminate].
    injection Hc as <-. exact Hs. }
  pose proof (executor_outcome E token_request cancelled_fetch
                (classify_token L) (fun st => fst st = "") Hinv
                maxRetries O ("", None) h o h1 eq_refl Hloop) as Hout.
  cbv beta in Hout.
  destruct o as [[t lastErr]|r].
  - destruct Hout as [(Hn & _)
                     |[(pre & s0 & x & H0 & -> & Hc & Hcount)
                      |(pre & s0 & x & H0 & -> & Hc)]].
    + now apply maxRetries_pos in Hn.
    + destruct (classify_token_cases L s0 x)
        as [(e & Hf & Hc')|(resp & p1 & _ & _ & Hc')];
        rewrite Hc' in Hc; [|discriminate].
      injection Hc as <- <-. rewrite H0.
      cbn [GoStrings.is_empty Errorf_w]. intros Heq.
      injection Heq as <- <-. now apply metadata_gave_up.
    + destruct (classify_token_cases L s0 x)
        as [(e & _ & Hc')|(resp & p1 & -> & Hnp & Hc')];
        rewrite Hc' in Hc; [discriminate|].
      injection Hc as <- <-.
      destruct Hnp as (Hok & Hd & Hne).
      apply GoStringsFacts.is_empty_false in Hne as He. rewrite He.
      intros Heq. injection Heq as <- <-.
      apply metadata_granted. repeat split; auto.
  - destruct Hout as [(pre & e & -> & ->)|(pre & s0 & x & _ & _ & Hc)].
    + intros Heq. injection Heq as <- <-. apply metadata_cancelled.
    + destruct (classify_token_cases L s0 x)
        as [(e & _ & Hc')|(resp & p1 & _ & _ & Hc')];
        rewrite Hc' in Hc; discriminate.
Qed.

End Outcomes.


Section PublicOutcomes.

Variable L : Lib.
Variable E : Env.

Lemma app_reassoc (h pre : list Event) ev pre2 last :
  ((h ++ pre ++ [ev]) ++ pre2 ++ [last])%list
  = (h ++ (pre ++ ev :: pre2) ++ [last])%list.
Proof. repeat rewrite <- app_assoc. reflexivity. Qed.

Lemma FetchFromProject_outcome pid name h res h' :
  FetchFromProject L E pid name h = (res, h') ->
  fetch_outcome L pid name h res h'.
Proof.
  destruct (Regexp.MatchString projectIDRegex pid) eqn:Hp.
  2:{ unfold FetchFromProject. rewrite Hp. cbn [negb]. unfold ret.
      intros Heq. injection Heq as <- <-. now apply fetch_invalid_project. }
  destruct (Regexp.MatchString secretNameRegex name) eqn:Hn.
  2:{ unfold FetchFromProject. rewrite Hp, Hn. cbn [negb]. unfold ret.
      intros Heq. injection Heq as <- <-. now apply fetch_invalid_name. }
  rewrite (FetchFromProject_run L E pid name h Hp Hn).
  destruct (getAccessToken L E h) as [[t err] h1] eqn:Htok.
  apply getAccessToken_outcome in Htok.
  inversion Htok as [pre resp v Hg Hres Hh1|pre e Hres Hh1
                    |pre x cause Hf Hcount Hres Hh1]; subst.
  - (* a token was granted *)
    destruct (for_range_from _ _ _ _ _) as [o h2] eqn:Hloop.
    pose proof (executor_outcome E _ cancelled_fetch (classify_access L)
                  (fun _ => True) (fun _ _ _ _ _ => I)
                  maxRetries O None _ o h2 I Hloop) as Hout.
    cbv beta in Hout. destruct o as [lastErr|r].
    + destruct Hout as [(Hz & _)
                       |[(pre2 & s0 & x & _ & -> & Hc & _)
                        |(pre2 & s0 & x & _ & -> & Hc)]].
      * now apply maxRetries_pos in Hz.
      * destruct (classify_access_cases L s0 x)
          as [(e & Hf & Hc')|[(rs & _ & _ & Hc')|(rs & v & _ & _ & Hc')]];
          rewrite Hc' in Hc; try discriminate.
        injection Hc as <-. cbn [Errorf_w]. intros Heq.
        injection Heq as <- <-. rewrite app_reassoc.
        now apply fetch_gave_up.
      * destruct (classify_access_cases L s0 x)
          as [(e & Hf & Hc')|[(rs & _ & _ & Hc')|(rs & v & _ & _ & Hc')]];
          rewrite Hc' in Hc; discriminate.
    + destruct Hout as [(pre2 & e & -> & ->)|(pre2 & s0 & x & _ & -> & Hc)].
      * intros Heq. injection Heq as <- <-. rewrite app_reassoc.
        apply fetch_cancelled.
      * destruct (classify_access_cases L s0 x)
          as [(e & Hf & Hc')
             |[(rs & -> & H4 & Hc')|(rs & v & -> & Hs & Hc')]];
          rewrite Hc' in Hc; try discriminate.
        -- injection Hc as <-. intros Heq. injection Heq as <- <-.
           rewrite app_reassoc. now apply fetch_denied.
        -- injection Hc as <-. intros Heq. injection Heq as <- <-.
           rewrite app_reassoc. now apply fetch_served.
  - intros Heq. injection Heq as <- <-. apply fetch_cancelled.
  - intros Heq. injection Heq as <- <-. now apply fetch_no_token.
Qed.

Lemma StoreInProject_outcome body pid name value h res h' :
  StoreInProject_with L E body pid name value h = (res, h') ->
  store_outcome L body pid name value h res h'.
Proof.
  destruct (Regexp.MatchString projectIDRegex pid) eqn:Hp.
  2:{ unfold StoreInProject_with. rewrite Hp. cbn [negb]. unfold ret.
      intros Heq. injection Heq as <- <-. now apply store_invalid_project. }
  destruct (Regexp.MatchString secretNameRegex name) eqn:Hn.
  2:{ unfold StoreInProject_with. rewrite Hp, Hn. cbn [negb]. unfold ret.
      intros Heq. injection Heq as <- <-. now apply store_invalid_name. }
  rewrite (StoreInProject_run L E body pid name value h Hp Hn).
  destruct (getAccessToken L E h) as [[t err] h1] eqn:Htok.
  apply getAccessToken_outcome in Htok.
  inversion Htok as [pre resp v Hg Hres Hh1|pre e Hres Hh1
                    |pre x cause Hf Hcount Hres Hh1]; subst.
  - (* a token was granted: the create loop *)
    destruct (for_range_from _ _ _ _ _) as [c h2] eqn:Hcreate.
    pose proof (executor_outcome E _ cancelled_store classify_create
                  (fun _ => True) (fun _ _ _ _ _ => I)
                  maxRetries O None _ c h2 I Hcreate) as Hout.
    cbv beta in Hout. destruct c as [createErr|r].
    + assert (Hh2 : exists pre2 x,
                 h2 = ((h ++ pre ++ [EvDo token_request (inr resp)])
                       ++ pre2 ++ [EvDo (create_request t pid name body) x])
                        %list).
      { destruct Hout as [(Hz & _)
                         |[(pre2 & s0 & x & _ & -> & _)
                          |(pre2 & s0 & x & _ & -> & _)]].
        - now apply maxRetries_pos in Hz.
        - now exists pre2, x.
        - now exists pre2, x. }
      clear Hout. destruct Hh2 as (pre2 & x & ->).
      destruct (create_failed createErr) eqn:Hcf.
      * destruct createErr as [cause|]; [|discriminate].
        cbn [Errorf_w]. intros Heq. injection Heq as <- <-.
        rewrite app_reassoc. apply store_create_failed.
        unfold create_failed in Hcf. now apply negb_true_iff in Hcf.
      * (* the add-version loop *)
        destruct (for_range_from _ _
                    (retry_attempt _ _ _ classify_addVersion) _ _)
          as [a h3] eqn:Hadd.
        pose proof (executor_outcome E _ cancelled_store classify_addVersion
                      (fun _ => True) (fun _ _ _ _ _ => I)
                      maxRetries O None _ a h3 I Hadd) as Hout.
        cbv beta in Hout. rewrite app_reassoc in Hout.
        destruct a as [lastErr|r].
        -- destruct Hout as [(Hz & _)
                            |[(pre3 & s0 & y & _ & -> & Hc & _)
                             |(pre3 & s0 & y & _ & -> & Hc)]].
           ++ now apply maxRetries_pos in Hz.
           ++ destruct (classify_addVersion_cases s0 y)
                as [(e & Hf & Hc')
                   |[(rs & _ & _ & Hc')|(rs & _ & _ & Hc')]];
                rewrite Hc' in Hc; try discriminate.
              injection Hc as <-. cbn [Errorf_w]. intros Heq.
              injection Heq as <- <-. rewrite app_reassoc.
              now apply store_version_gave_up.
           ++ destruct (classify_addVersion_cases s0 y)
                as [(e & Hf & Hc')
                   |[(rs & _ & _ & Hc')|(rs & _ & _ & Hc')]];
                rewrite Hc' in Hc; discriminate.
        -- destruct Hout as [(pre3 & e & -> & ->)
                            |(pre3 & s0 & y & _ & -> & Hc)].
           ++ intros Heq. injection Heq as <- <-. rewrite app_reassoc.
              apply store_cancelled.
           ++ destruct (classify_addVersion_cases s0 y)
                as [(e & Hf & Hc')
                   |[(rs & -> & H4 & Hc')|(rs & -> & Hok & Hc')]];
                rewrite Hc' in Hc; try discriminate.
              ** injection Hc as <-. intros Heq. injection Heq as <- <-.
                 rewrite app_reassoc. now apply store_version_denied.
              ** injection Hc as <-. intros Heq. injection Heq as <- <-.
                 rewrite app_reassoc. now apply store_done.
    + destruct Hout as [(pre2 & e & -> & ->)|(pre2 & s0 & x & _ & -> & Hc)].
      * intros Heq. injection Heq as <- <-. rewrite app_reassoc.
        apply store_cancelled.
      * destruct (classify_create_cases s0 x)
          as [(e & Hc' & _)
             |[(rs & _ & _ & Hc')
              |[(rs & _ & _ & Hc')|(rs & -> & H4 & Hncf & Hc')]]];
          rewrite Hc' in Hc; try discriminate.
        injection Hc as <-. intros Heq. injection Heq as <- <-.
        rewrite app_reassoc. now apply store_create_denied.
  - intros Heq. injection Heq as <- <-. apply store_cancelled.
  - intros Heq. injection Heq as <- <-. now apply store_no_token.
Qed.

End PublicOutcomes.


(** ** Loops that succeed after retries, loops that give up *)

Section RetriesThenExit.

Variable E : Env.
Context {S R : Type}.
Variable req : Request.
Variable cancelled : ctx_error -> R.
Variable classify : S -> error + Response -> flow S R.

Let body := retry_attempt E req cancelled classify.

Hypothesis Hnc : never_cancelled E.

Lemma never_cancelled_wait a h : fst (wait_before E a h) = TimerFired.
Proof. destruct a; [reflexivity|]. rewrite wait_before_S. apply Hnc. Qed.

(** [k] answers that mean [continue], then one on which the loop is left:
    the loop yields what that iteration decides, after [k + 1]
    iterations. *)
Lemma executor_exit_after (Q : S + R -> Prop) k n s h :
  (forall i, (i < k)%nat ->
     forall s0, exists s1, classify s0 (answer_at E req i h) = Continue s1) ->
  (forall s0, exists out,
      exit_of (classify s0 (answer_at E req k h)) = Some out /\ Q out) ->
  exists out,
    for_range_from (k + Datatypes.S n) 0 body s h
    = (out, after_attempts E req (Datatypes.S k) 0 h)
    /\ Q out.
Proof.
  intros Hk Hout.
  destruct (executor_retries E req cancelled classify Hnc k
              (Datatypes.S n) O s h Hk) as (s' & Hrun & _).
  fold body in Hrun. destruct (Hout s') as (out & Hx & HQ).
  exists out. split; [|exact HQ]. rewrite Hrun.
  unfold body.
  rewrite (executor_exit E req cancelled classify n (0 + k) s' _ out).
  - now rewrite after_attempts_S_r.
  - apply never_cancelled_wait.
  - exact Hx.
Qed.

(** [n] answers that all mean [continue]: the loop is left after the last
    of them, with the loop variables it leaves. *)
Lemma executor_gives_up n s h :
  (forall i, (i < Datatypes.S n)%nat ->
     forall s0, exists s1, classify s0 (answer_at E req i h) = Continue s1) ->
  exists s' s0,
    for_range_from (Datatypes.S n) 0 body s h
    = (inl s', after_attempts E req (Datatypes.S n) 0 h)
    /\ classify s0 (answer_at E req n h) = Continue s'.
Proof.
  intros Hk.
  destruct (executor_retries E req cancelled classify Hnc (Datatypes.S n)
              O O s h Hk) as (s' & Hrun & _ & Hlast).
  destruct (Hlast n eq_refl) as (s0 & Hs0).
  exists s', s0. split; [|exact Hs0].
  fold body in Hrun. rewrite Nat.add_0_r in Hrun. exact Hrun.
Qed.

End RetriesThenExit.

Section Retries.

Variable L : Lib.
Variable E : Env.
Hypothesis Hnc : never_cancelled E.

Lemma split_attempts k : (k < maxRetries)%nat ->
  maxRetries = (k + Datatypes.S (maxRetries - Datatypes.S k))%nat.
Proof. lia. Qed.

Lemma getProjectID_retries h k resp p :
  (k < maxRetries)%nat ->
  (forall i, (i < k)%nat ->
     exists e, projectID_failure L (answer_at E projectID_request i h) e) ->
  answer_at E projectID_request k h = inr resp ->
  names_project L resp p ->
  getProjectID L E h
  = ((p, None), after_attempts E projectID_request (Datatypes.S k) 0 h).
Proof.
  intros Hk Hfail Hans Hp. rewrite getProjectID_run.
  destruct (executor_exit_after E projectID_request cancelled_fetch
              (classify_projectID L) Hnc
              (fun out => exists lastErr, out = inl (p, lastErr))
              k (maxRetries - Datatypes.S k) ("", None) h)
    as (out & Hrun & lastErr & ->).
  - intros i Hi s0. destruct (Hfail i Hi) as (e & He).
    destruct (classify_projectID_failure L s0 _ e He) as (p' & Hc & _).
    eauto.
  - intros s0. rewrite Hans, (classify_projectID_ok L s0 resp p Hp).
    eexists. split; [reflexivity|]. eauto.
  - rewrite <- (split_attempts k Hk) in Hrun. rewrite Hrun.
    destruct Hp as (_ & _ & _ & Hne).
    apply GoStringsFacts.is_empty_false in Hne. now rewrite Hne.
Qed.

Lemma getAccessToken_retries h k resp t :
  (k < maxRetries)%nat ->
  (forall i, (i < k)%nat ->
     exists e, token_failure L (answer_at E token_request i h) e) ->
  answer_at E token_request k h = inr resp ->
  grants_token L resp t ->
  getAccessToken L E h
  = ((t, None), after_attempts E token_request (Datatypes.S k) 0 h).
Proof.
  intros Hk Hfail Hans Hp. rewrite getAccessToken_run.
  destruct (executor_exit_after E token_request cancelled_fetch
              (classify_token L) Hnc
              (fun out => exists lastErr, out = inl (t, lastErr))
              k (maxRetries - Datatypes.S k) ("", None) h)
    as (out & Hrun & lastErr & ->).
  - intros i Hi s0. destruct (Hfail i Hi) as (e & He).
    rewrite (classify_token_failure L s0 _ e He). eauto.
  - intros s0. rewrite Hans, (classify_token_ok L s0 resp t Hp).
    eexists. split; [reflexivity|]. eauto.
  - rewrite <- (split_attempts k Hk) in Hrun. rewrite Hrun.
    destruct Hp as (_ & _ & Hne).
    apply GoStringsFacts.is_empty_false in Hne. now rewrite Hne.
Qed.

Lemma FetchFromProject_retries pid name h tok h1 k resp v :
  Regexp.MatchString projectIDRegex pid = true ->
  Regexp.MatchString secretNameRegex name = true ->
  getAccessToken L E h = ((tok, None), h1) ->
  (k < maxRetries)%nat ->
  (forall i, (i < k)%nat ->
     exists e,
       access_failure L
         (answer_at E (access_request tok (accessURL pid name)) i h1) e) ->
  answer_at E (access_request tok (accessURL pid name)) k h1 = inr resp ->
  serves L resp v ->
  FetchFromProject L E pid name h
  = ((v, None),
     after_attempts E (access_request tok (accessURL pid name))
       (Datatypes.S k) 0 h1).
Proof.
  intros Hp Hn Htok Hk Hfail Hans Hs.
  rewrite (FetchFromProject_run L E pid name h Hp Hn), Htok.
  destruct (executor_exit_after E
              (access_request tok (accessURL pid name)) cancelled_fetch
              (classify_access L) Hnc (fun out => out = inr (v, None))
              k (maxRetries - Datatypes.S k) None h1)
    as (out & Hrun & ->).
  - intros i Hi s0. destruct (Hfail i Hi) as (e & He).
    rewrite (classify_access_failure L s0 _ e He). eauto.
  - intros s0. rewrite Hans, (classify_access_serves L s0 resp v Hs).
    eexists. split; reflexivity.
  - rewrite <- (split_attempts k Hk) in Hrun. now rewrite Hrun.
Qed.

Lemma FetchFromProject_gives_up pid name h tok h1 cause :
  Regexp.MatchString projectIDRegex pid = true ->
  Regexp.MatchString secretNameRegex name = true ->
  getAccessToken L E h = ((tok, None), h1) ->
  (forall i, (i < maxRetries)%nat ->
     exists e,
       access_failure L
         (answer_at E (access_request tok (accessURL pid name)) i h1) e) ->
  access_failure L
    (answer_at E (access_request tok (accessURL pid name))
       (Nat.pred maxRetries) h1) cause ->
  FetchFromProject L E pid name h
  = (("", Some (ErrWrap "failed to access secret: " cause)),
     after_attempts E (access_request tok (accessURL pid name))
       maxRetries 0 h1).
Proof.
  intros Hp Hn Htok Hfail Hlast.
  rewrite (FetchFromProject_run L E pid name h Hp Hn), Htok.
  destruct (executor_gives_up E
              (access_request tok (accessURL pid name)) cancelled_fetch
              (classify_access L) Hnc (Nat.pred maxRetries) None h1)
    as (s' & s0 & Hrun & Hc).
  - intros i Hi s1. destruct (Hfail i Hi) as (e & He).
    rewrite (classify_access_failure L s1 _ e He). eauto.
  - change (Datatypes.S (Nat.pred maxRetries)) with maxRetries in Hrun.
    rewrite Hrun.
    rewrite (classify_access_failure L s0 _ cause Hlast) in Hc.
    injection Hc as <-. reflexivity.
Qed.

Lemma classify_create_settled s resp :
  create_settled resp ->
  exists createErr,
    classify_create s (inr resp) = Break createErr
    /\ (s = None -> create_failed createErr = false).
Proof.
  intros [Hok|[Hcr|Hcf]].
  - exists s. split; [now apply classify_create_success; left|].
    now intros ->.
  - exists s. split; [now apply classify_create_success; right|].
    now intros ->.
  - eexists. split; [now apply classify_create_conflict|].
    intros _. reflexivity.
Qed.

Lemma StoreInProject_retries body pid name value h tok h1 cresp k resp :
  Regexp.MatchString projectIDRegex pid = true ->
  Regexp.MatchString secretNameRegex name = true ->
  getAccessToken L E h = ((tok, None), h1) ->
  Do E h1 (create_request tok pid name body) = inr cresp ->
  create_settled cresp ->
  (k < maxRetries)%nat ->
  (forall i, (i < k)%nat ->
     exists e,
       addVersion_failure
         (answer_at E
            (post_request tok (versionURL pid name)
               (JSON.Marshal (versionReqBody value))) i
            (h1 ++ [EvDo (create_request tok pid name body) (inr cresp)]))
         e) ->
  answer_at E
    (post_request tok (versionURL pid name)
       (JSON.Marshal (versionReqBody value))) k
    (h1 ++ [EvDo (create_request tok pid name body) (inr cresp)])
  = inr resp ->
  StatusCode resp = StatusOK ->
  StoreInProject_with L E body pid name value h
  = (None,
     after_attempts E
       (post_request tok (versionURL pid name)
          (JSON.Marshal (versionReqBody value))) (Datatypes.S k) 0
       (h1 ++ [EvDo (create_request tok pid name body) (inr cresp)])).
Proof.
  intros Hp Hn Htok Hcreate Hset Hk Hfail Hans Hok.
  rewrite (StoreInProject_run L E body pid name value h Hp Hn), Htok.
  destruct (classify_create_settled None cresp Hset)
    as (createErr & Hc & Hcf).
  change maxRetries with (Datatypes.S 2) at 1.
  rewrite (executor_exit E (create_request tok pid name body)
             cancelled_store classify_create 2 0 None h1 (inl createErr)).
  2:{ reflexivity. }
  2:{ cbn [wait_before Nat.ltb Nat.leb ret snd]. rewrite Hcreate, Hc.
      reflexivity. }
  cbn [wait_before Nat.ltb Nat.leb ret snd]. rewrite Hcreate.
  rewrite (Hcf eq_refl).
  destruct (executor_exit_after E
              (post_request tok (versionURL pid name)
                 (JSON.Marshal (versionReqBody value))) cancelled_store
              classify_addVersion Hnc (fun out => out = inr None)
              k (maxRetries - Datatypes.S k) None
              (h1 ++ [EvDo (create_request tok pid name body) (inr cresp)])
                %list)
    as (out & Hrun & ->).
  - intros i Hi s0. destruct (Hfail i Hi) as (e & He).
    rewrite (classify_addVersion_failure s0 _ e He). eauto.
  - intros s0. rewrite Hans, (classify_addVersion_ok s0 resp Hok).
    eexists. split; reflexivity.
  - rewrite <- (split_attempts k Hk) in Hrun. now rewrite Hrun.
Qed.

End Retries.


(** ** [Fetch] and [Store] *)

Section ViaMetadata.

Variable L : Lib.
Variable E : Env.

Lemma Fetch_composes name h res h' :
  Fetch L E name h = (res, h') ->
  via_metadata L name (fun e => ("", Some e))
    (fun p h1 res h' =>
       FetchFromProject L E p name h1 = (res, h')
       /\ fetch_outcome L p name h1 res h') h res h'.
Proof.
  unfold Fetch.
  destruct (Regexp.MatchString secretNameRegex name) eqn:Hn; cbn [negb].
  2:{ unfold ret. intros Heq. injection Heq as <- <-.
      now apply (via_invalid_name L name (fun e => ("", Some e))). }
  unfold bind. destruct (getProjectID L E h) as [[p err] h1] eqn:Hpid.
  apply getProjectID_outcome in Hpid.
  inversion Hpid as [pre resp v Hg Hres Hh1|pre e Hres Hh1
                    |pre x cause Hf Hcount Hres Hh1]; subst.
  - intros Hrun. apply (via_project L name _ _ h pre resp p); [exact Hg|].
    split; [exact Hrun | exact (FetchFromProject_outcome L E _ _ _ _ _ Hrun)].
  - unfold ret. intros Heq. injection Heq as <- <-.
    now apply (via_no_project L name (fun e => ("", Some e))).
  - unfold ret. intros Heq. injection Heq as <- <-.
    now apply (via_no_project L name (fun e => ("", Some e))).
Qed.

Lemma Store_composes body name value h res h' :
  Store_with L E body name value h = (res, h') ->
  via_metadata L name Some
    (fun p h1 res h' =>
       StoreInProject_with L E body p name value h1 = (res, h')
       /\ store_outcome L body p name value h1 res h') h res h'.
Proof.
  unfold Store_with.
  destruct (Regexp.MatchString secretNameRegex name) eqn:Hn; cbn [negb].
  2:{ unfold ret. intros Heq. injection Heq as <- <-.
      now apply (via_invalid_name L name Some). }
  unfold bind. destruct (getProjectID L E h) as [[p err] h1] eqn:Hpid.
  apply getProjectID_outcome in Hpid.
  inversion Hpid as [pre resp v Hg Hres Hh1|pre e Hres Hh1
                    |pre x cause Hf Hcount Hres Hh1]; subst.
  - intros Hrun. apply (via_project L name _ _ h pre resp p); [exact Hg|].
    split; [exact Hrun|].
    exact (StoreInProject_outcome L E _ _ _ _ _ _ _ Hrun).
  - unfold ret. intros Heq. injection Heq as <- <-.
    now apply (via_no_project L name Some).
  - unfold ret. intros Heq. injection Heq as <- <-.
    now apply (via_no_project L name Some).
Qed.

(** A project ID named by the metadata server is validated like one given
    by the caller: if it does not match the pattern, nothing more is
    sent. *)
Lemma metadata_project_is_validated name h p h1 :
  Regexp.MatchString secretNameRegex name = true ->
  getProjectID L E h = ((p, None), h1) ->
  Regexp.MatchString projectIDRegex p = false ->
  Fetch L E name h = (("", Some (invalid_project L p)), h1)
  /\ forall body value,
       Store_with L E body name value h = (Some (invalid_project L p), h1).
Proof.
  intros Hn Hpid Hp. split; [|intros body value].
  - unfold Fetch. rewrite Hn. cbn [negb]. unfold bind. rewrite Hpid.
    unfold FetchFromProject. now rewrite Hp.
  - unfold Store_with. rewrite Hn. cbn [negb]. unfold bind. rewrite Hpid.
    unfold StoreInProject_with. now rewrite Hp.
Qed.

(** What [StoreInProject] writes, [Fetch] reads back: when the metadata
    server names a valid project and grants a token, and the first answer
    to the access request is a 200 whose payload data is the base64 text of
    [value], [Fetch] returns [value]. *)
Lemma Fetch_reads_back name value h p h0 tok h1 resp :
  Regexp.MatchString secretNameRegex name = true ->
  getProjectID L E h = ((p, None), h0) ->
  Regexp.MatchString projectIDRegex p = true ->
  getAccessToken L E h0 = ((tok, None), h1) ->
  Do E h1 (access_request tok (accessURL p name)) = inr resp ->
  StatusCode resp = StatusOK ->
  read_error resp = None ->
  UnmarshalPayloadData L (read_body resp)
  = inr (Base64.EncodeToString value) ->
  Fetch L E name h
  = ((value, None),
     (h1 ++ [EvDo (access_request tok (accessURL p name)) (inr resp)])%list).
Proof.
  intros Hn Hpid Hp Htok HDo Hok Hre Hu.
  unfold Fetch. rewrite Hn. cbn [negb]. unfold bind. rewrite Hpid.
  rewrite (FetchFromProject_run L E p name h0 Hp Hn), Htok.
  change maxRetries with (Datatypes.S 2).
  rewrite (executor_exit E (access_request tok (accessURL p name))
             cancelled_fetch (classify_access L) 2 0 None h1
             (inr (value, None))).
  - cbn [wait_before Nat.ltb Nat.leb ret snd]. now rewrite HDo.
  - reflexivity.
  - cbn [wait_before Nat.ltb Nat.leb ret snd]. rewrite HDo.
    rewrite (classify_access_serves L None resp value); [reflexivity|].
    split; [exact Hok|]. split; [exact Hre|].
    exists (Base64.EncodeToString value). split; [exact Hu|].
    apply Base64Facts.DecodeString_EncodeToString.
Qed.

End ViaMetadata.

(** ** The requests of [FetchFromProject], and the add-version request *)

Section MoreRequests.

Variable L : Lib.
Variable E : Env.

Lemma FetchFromProject_events pid name :
  all_events (fetch_event pid name) (FetchFromProject L E pid name).
Proof.
  unfold FetchFromProject, for_range.
  destruct (negb _); [apply all_events_ret|].
  destruct (negb _); [apply all_events_ret|].
  apply all_events_bind.
  - eapply all_events_weaken; [|apply getAccessToken_events].
    intros ev [Hw|Hd]; [now left | right; now left].
  - intros [tok [err|]]; [apply all_events_ret|].
    apply all_events_bind.
    + apply (loop_events _ _ _ _ _ _ (access_attempt_executor L E tok _)).
      * intros w. left. now exists w.
      * intros r. right. right. now exists tok, r.
    + intros [lastErr|res]; apply all_events_ret.
Qed.

Lemma escape_char_encode_char (v : Z) :
  0 <= v < 64 ->
  JSON.escape_char (Base64.encode_char v)
  = String (Base64.encode_char v) "".
Proof.
  intros Hv.
  assert (Hall : forallb
            (fun n => String.eqb
                        (JSON.escape_char (Base64.encode_char (Z.of_nat n)))
                        (String (Base64.encode_char (Z.of_nat n)) ""))
            (seq 0 64) = true) by (vm_compute; reflexivity).
  rewrite forallb_forall in Hall.
  specialize (Hall (Z.to_nat v)).
  rewrite Z2Nat.id in Hall by lia.
  apply String.eqb_eq, Hall, in_seq. lia.
Qed.

Lemma escape_char_sextet (val shift : Z) :
  0 <= shift ->
  JSON.escape_char (Base64.sextet val shift)
  = String (Base64.sextet val shift) "".
Proof.
  intros Hs. unfold Base64.sextet.
  rewrite Base64Facts.land_63, Z.shiftr_div_pow2 by exact Hs.
  apply escape_char_encode_char. apply Z.mod_pos_bound. lia.
Qed.

(** The base64 text of a value needs no escape in JSON. *)
Lemma escape_encoded (s : string) :
  JSON.escape (Base64.EncodeToString s) = Base64.EncodeToString s.
Proof.
  induction s as [|a|a b|a b c rest IH] using Base64Facts.string_ind3.
  - reflexivity.
  - cbn [Base64.EncodeToString JSON.escape].
    rewrite !escape_char_sextet by lia. reflexivity.
  - cbn [Base64.EncodeToString JSON.escape].
    rewrite !escape_char_sextet by lia. reflexivity.
  - cbn [Base64.EncodeToString JSON.escape].
    rewrite !escape_char_sextet by lia. rewrite IH. reflexivity.
Qed.

Lemma Marshal_versionReqBody (value : string) :
  JSON.Marshal (versionReqBody value)
  = payload_json (Base64.EncodeToString value).
Proof.
  unfold versionReqBody, payload_json, JSON.map1.
  cbn [JSON.Marshal JSON.marshal_members]. unfold JSON.marshal_string.
  rewrite escape_encoded. unfold GoStrings.quoted.
  rewrite !GoStringsFacts.append_assoc. reflexivity.
Qed.

Lemma StoreInProject_version_requests body pid name value :
  version_requests_carry pid name
    (payload_json (Base64.EncodeToString value))
    (StoreInProject_with L E body pid name value).
Proof.
  intros h res h' Hrun pre req r post Hh' Hurl.
  destruct (all_events_run _ _ (StoreInProject_events L E body pid name value)
              h res h' Hrun) as (evs & Hevs & Hall).
  rewrite Hevs in Hh'. apply app_inv_head in Hh'. subst evs.
  rewrite Forall_forall in Hall.
  destruct (Hall (EvDo req r) (in_elt _ _ _))
    as [(w & Hw)|[(r' & Hd)|[(tok & r' & Hd)|(tok & r' & Hd)]]].
  - discriminate.
  - injection Hd as -> _. now apply token_url_not_version in Hurl.
  - injection Hd as -> _. simpl in Hurl.
    now apply createURL_not_versionURL in Hurl.
  - assert (Hreq : req = post_request tok (versionURL pid name)
                           (JSON.Marshal (versionReqBody value)))
      by congruence.
    rewrite Hreq, Marshal_versionReqBody. repeat split. now exists tok.
Qed.

End MoreRequests.


(** ** A URL tells the call, the project and the secret *)

Section URLsOfSecrets.

Import Regexp.

Lemma valid_project_id_chars (p : string) :
  valid_project_id p -> all_in [lower; digit; one "-"%char] p = true.
Proof.
  intros (c & mid & l & -> & Hc & _ & Hmid & Hl).
  cbn [all_in]. rewrite RegexpFacts.all_in_append. cbn [all_in].
  rewrite Hmid. rewrite andb_true_r.
  apply andb_true_iff. split.
  - unfold in_class in *. simpl in *.
    rewrite orb_false_r in Hc. now rewrite Hc.
  - unfold in_class in *. simpl in *.
    rewrite orb_false_r in Hl. apply orb_true_iff in Hl as [-> | ->];
      [reflexivity|]. now rewrite orb_true_r.
Qed.

(** Two strings over a class, each followed by a separator outside the
    class: equal wholes have equal parts. *)
Lemma split_at_separator cls (sep sep' : ascii) :
  in_class sep cls = false -> in_class sep' cls = false ->
  forall a a' r r',
    all_in cls a = true -> all_in cls a' = true ->
    a ++ String sep r = a' ++ String sep' r' ->
    a = a' /\ sep = sep' /\ r = r'.
Proof.
  intros Hs Hs'. induction a as [|c a IH]; intros [|c' a'] r r' Ha Ha' Heq;
    simpl in *.
  - injection Heq as -> ->. auto.
  - injection Heq as -> _. apply andb_true_iff in Ha' as [Hc _]. congruence.
  - injection Heq as -> _. apply andb_true_iff in Ha as [Hc _]. congruence.
  - injection Heq as -> Heq.
    apply andb_true_iff in Ha as [_ Ha]. apply andb_true_iff in Ha' as [_ Ha'].
    destruct (IH a' r r' Ha Ha' Heq) as (-> & -> & ->). auto.
Qed.

Lemma call_url_inj (c c' : api_call) (pid pid' name name' : string) :
  MatchString projectIDRegex pid = true ->
  MatchString projectIDRegex pid' = true ->
  MatchString secretNameRegex name = true ->
  MatchString secretNameRegex name' = true ->
  call_url c pid name = call_url c' pid' name' ->
  c = c' /\ pid = pid' /\ name = name'.
Proof.
  intros Hp Hp' Hn Hn' Hurl.
  apply RegexpFacts.projectIDRegex_spec, valid_project_id_chars in Hp, Hp'.
  apply RegexpFacts.secretNameRegex_spec in Hn as [_ Hn].
  apply RegexpFacts.secretNameRegex_spec in Hn' as [_ Hn'].
  assert (Hparts : pid = pid'
                   /\ match c with
                      | AccessCall => "secrets/" ++ name
                                      ++ "/versions/latest:access"
                      | CreateCall => "secrets?secretId=" ++ name
                      | VersionCall => "secrets/" ++ name ++ ":addVersion"
                      end
                      = match c' with
                        | AccessCall => "secrets/" ++ name'
                                        ++ "/versions/latest:access"
                        | CreateCall => "secrets?secretId=" ++ name'
                        | VersionCall => "secrets/" ++ name' ++ ":addVersion"
                        end).
  { assert (Hsplit : forall r r',
               pid ++ String "/" r = pid' ++ String "/" r' ->
               pid = pid' /\ r = r').
    { intros r r' Heq.
      destruct (split_at_separator [lower; digit; one "-"%char]
                  "/"%char "/"%char eq_refl eq_refl pid pid' r r' Hp Hp' Heq)
        as (-> & _ & ->). auto. }
    apply Hsplit.
    destruct c, c'; unfold call_url, accessURL, createURL, versionURL in Hurl;
      do 2 apply GoStringsFacts.append_inv_head in Hurl; exact Hurl. }
  destruct Hparts as [-> Hrest]. 
  assert (Hname : forall (sep sep' : ascii) r r',
             in_class sep [lower; upper; digit; one "_"%char; one "-"%char]
             = false ->
             in_class sep' [lower; upper; digit; one "_"%char; one "-"%char]
             = false ->
             name ++ String sep r = name' ++ String sep' r' ->
             name = name' /\ sep = sep' /\ r = r').
  { intros sep sep' r r' Hs Hs' Heq.
    exact (split_at_separator _ sep sep' Hs Hs' name name' r r' Hn Hn' Heq). }
  destruct c, c'; simpl in Hrest; try discriminate Hrest;
    injection Hrest as Hrest.
  - destruct (Hname "/"%char "/"%char _ _ eq_refl eq_refl Hrest)
      as (-> & _ & _). auto.
  - destruct (Hname "/"%char ":"%char _ _ eq_refl eq_refl Hrest)
      as (_ & Hsep & _). discriminate Hsep.
  - subst. auto.
  - destruct (Hname ":"%char "/"%char _ _ eq_refl eq_refl Hrest)
      as (_ & Hsep & _). discriminate Hsep.
  - destruct (Hname ":"%char ":"%char _ _ eq_refl eq_refl Hrest)
      as (-> & _ & _). auto.
Qed.

End URLsOfSecrets.

(** ** Reading through the cap *)

Section BodyCap.

Lemma len_nonneg (s : string) : 0 <= GoStrings.len s.
Proof.
  induction s as [|c s IH]; [reflexivity|].
  change (GoStrings.len (String c s)) with (1 + GoStrings.len s). lia.
Qed.

Lemma take_all (s : string) : forall n,
  GoStrings.len s <= n -> GoStrings.take n s = s.
Proof.
  induction s as [|c s IH]; intros n Hn; [reflexivity|].
  change (GoStrings.len (String c s)) with (1 + GoStrings.len s) in Hn.
  cbn [GoStrings.take].
  pose proof (len_nonneg s).
  destruct (Z.leb_spec n 0); [lia|]. rewrite IH by lia. reflexivity.
Qed.

Lemma len_take (s : string) : forall n,
  0 <= n -> GoStrings.len (GoStrings.take n s) <= n.
Proof.
  induction s as [|c s IH]; intros n Hn; cbn [GoStrings.take].
  - exact Hn.
  - destruct (Z.leb_spec n 0); [exact Hn|].
    change (GoStrings.len (String c (GoStrings.take (n - 1) s)))
      with (1 + GoStrings.len (GoStrings.take (n - 1) s)).
    specialize (IH (n - 1)). lia.
Qed.

Lemma read_through_cap (resp : Response) :
  read_body resp = GoStrings.take maxBodySize (data (RespBody resp))
  /\ GoStrings.len (read_body resp) <= maxBodySize
  /\ read_error resp
     = (if maxBodySize <=? GoStrings.len (data (RespBody resp))
        then None else fail (RespBody resp)).
Proof.
  unfold read_body, read_error, ReadAll, LimitReader.
  destruct (Z.leb_spec maxBodySize (GoStrings.len (data (RespBody resp))))
    as [Hle|Hgt]; cbn [fst snd data fail].
  - split; [reflexivity|]. split; [|reflexivity].
    apply len_take. unfold maxBodySize. lia.
  - split; [|split; [lia|reflexivity]].
    symmetry. apply take_all. lia.
Qed.

End BodyCap.


(** ** The bearer token of the API requests *)

Section BearerToken.

Variable L : Lib.
Variable E : Env.

(** The events of a loop: waits and exchanges of its request. *)
Lemma loop_trace {S R : Type} req (cancelled : ctx_error -> R)
  (classify : S -> error + Response -> flow S R) n a s h o h2 :
  for_range_from n a (retry_attempt E req cancelled classify) s h = (o, h2) ->
  exists evs,
    h2 = (h ++ evs)%list
    /\ Forall (fun ev => (exists w, ev = EvWait w)
                         \/ (exists r, ev = EvDo req r)) evs.
Proof.
  intros Hrun.
  apply (all_events_run _ _
           (executor_events E req cancelled classify _
              (fun w => or_introl (ex_intro _ w eq_refl))
              (fun r => or_intror (ex_intro _ r eq_refl)) n a s)
           h o h2 Hrun).
Qed.

(** Once a token is granted, what follows is signed with it. *)
Lemma signed_after_grant (h pre0 : list Event) resp tok evs pre req r post :
  grants_token L resp tok ->
  Forall (metadata_event token_request) pre0 ->
  Forall (fun ev => (exists w, ev = EvWait w)
                    \/ (exists rq x,
                           ev = EvDo rq x
                           /\ In ("Authorization", "Bearer " ++ tok)
                                (Header rq))) evs ->
  ((h ++ pre0 ++ [EvDo token_request (inr resp)]) ++ evs)%list
  = (h ++ pre ++ EvDo req r :: post)%list ->
  req <> token_request ->
  exists pre1 resp1 tok1 pre2,
    pre = (pre1 ++ EvDo token_request (inr resp1) :: pre2)%list
    /\ grants_token L resp1 tok1
    /\ In ("Authorization", "Bearer " ++ tok1) (Header req).
Proof.
  intros Hg Hpre0 Hevs Heq Hreq.
  rewrite <- !app_assoc in Heq. apply app_inv_head in Heq.
  rewrite app_assoc in Heq.
  destruct (split_app _ _ _ _ _ Heq) as [(post1 & H1 & _)|(pre2 & H2 & ->)].
  - exfalso.
    assert (Hin : In (EvDo req r)
                    (pre0 ++ [EvDo token_request (inr resp)])%list).
    { rewrite H1. apply in_elt. }
    apply in_app_or in Hin as [Hin|[Hin|[]]].
    + rewrite Forall_forall in Hpre0.
      destruct (Hpre0 _ Hin) as [(w & Hw)|(x & Hx)]; [discriminate|].
      injection Hx as -> _. now apply Hreq.
    + injection Hin as <- _. now apply Hreq.
  - rewrite Forall_forall in Hevs.
    destruct (Hevs (EvDo req r)) as [(w & Hw)|(rq & x & Hx & Hhdr)].
    + rewrite H2. apply in_elt.
    + discriminate.
    + injection Hx as <- _.
      exists pre0, resp, tok, pre2. split; [|split; [exact Hg|exact Hhdr]].
      now rewrite <- app_assoc.
Qed.

Lemma no_event_added {X : Type} (h pre post : list X) (x : X) :
  h <> (h ++ pre ++ x :: post)%list.
Proof.
  intros Heq. rewrite <- (app_nil_r h) in Heq at 1.
  apply app_inv_head in Heq. now destruct pre.
Qed.

(** A run that ended on a failed token fetch sent only token requests. *)
Lemma only_token_requests (h h1 pre post : list Event) res req r :
  getAccessToken L E h = (res, h1) ->
  h1 = (h ++ pre ++ EvDo req r :: post)%list ->
  req = token_request.
Proof.
  intros Htok Heq.
  destruct (all_events_run _ _ (getAccessToken_events L E) h res h1 Htok)
    as (evs & -> & Hall).
  apply app_inv_head in Heq. subst evs. rewrite Forall_forall in Hall.
  destruct (Hall (EvDo req r) (in_elt _ _ _)) as [(w & Hw)|(x & Hx)];
    [discriminate|]. now injection Hx as -> _.
Qed.

Lemma token_phase h t h1 :
  getAccessToken L E h = ((t, None), h1) ->
  exists pre0 resp,
    h1 = (h ++ pre0 ++ [EvDo token_request (inr resp)])%list
    /\ grants_token L resp t
    /\ Forall (metadata_event token_request) pre0.
Proof.
  intros Htok.
  destruct (all_events_run _ _ (getAccessToken_events L E) h _ h1 Htok)
    as (evs & Hevs & Hall).
  apply getAccessToken_outcome in Htok.
  inversion Htok as [pre resp v Hg Hres Hh1| |]; subst.
  exists pre, resp. split; [reflexivity|]. split; [exact Hg|].
  apply app_inv_head in Hh1. subst evs.
  apply Forall_app in Hall. tauto.
Qed.

Lemma FetchFromProject_signed pid name :
  signed_with_granted_token L (FetchFromProject L E pid name).
Proof.
  intros h res h' Hrun pre req r post Hh' Hreq.
  destruct (Regexp.MatchString projectIDRegex pid) eqn:Hp.
  2:{ unfold FetchFromProject in Hrun. rewrite Hp in Hrun.
      injection Hrun as _ <-. now apply no_event_added in Hh'. }
  destruct (Regexp.MatchString secretNameRegex name) eqn:Hn.
  2:{ unfold FetchFromProject in Hrun. rewrite Hp, Hn in Hrun.
      injection Hrun as _ <-. now apply no_event_added in Hh'. }
  rewrite (FetchFromProject_run L E pid name h Hp Hn) in Hrun.
  destruct (getAccessToken L E h) as [[t [err|]] h1] eqn:Htok.
  - injection Hrun as _ <-.
    now rewrite (only_token_requests _ _ _ _ _ _ _ Htok Hh') in Hreq.
  - destruct (token_phase h t h1 Htok) as (pre0 & resp & -> & Hg & Hpre0).
    destruct (for_range_from _ _ _ _ _) as [o h2] eqn:Hloop.
    destruct (loop_trace _ _ _ _ _ _ _ _ _ Hloop) as (evs & -> & Hevs).
    assert (Hh2 : h' = ((h ++ pre0 ++ [EvDo token_request (inr resp)])
                        ++ evs)%list)
      by (destruct o; now injection Hrun as _ <-).
    rewrite Hh2 in Hh'.
    apply (signed_after_grant h pre0 resp t evs pre req r post Hg Hpre0);
      [|exact Hh'|exact Hreq].
    eapply Forall_impl; [|exact Hevs].
    intros ev [Hw|(x & ->)]; [now left|right].
    eexists _, x. split; [reflexivity|]. now left.
Qed.

Lemma StoreInProject_signed body pid name value :
  signed_with_granted_token L (StoreInProject_with L E body pid name value).
Proof.
  intros h res h' Hrun pre req r post Hh' Hreq.
  destruct (Regexp.MatchString projectIDRegex pid) eqn:Hp.
  2:{ unfold StoreInProject_with in Hrun. rewrite Hp in Hrun.
      injection Hrun as _ <-. now apply no_event_added in Hh'. }
  destruct (Regexp.MatchString secretNameRegex name) eqn:Hn.
  2:{ unfold StoreInProject_with in Hrun. rewrite Hp, Hn in Hrun.
      injection Hrun as _ <-. now apply no_event_added in Hh'. }
  rewrite (StoreInProject_run L E body pid name value h Hp Hn) in Hrun.
  destruct (getAccessToken L E h) as [[t [err|]] h1] eqn:Htok.
  - injection Hrun as _ <-.
    now rewrite (only_token_requests _ _ _ _ _ _ _ Htok Hh') in Hreq.
  - destruct (token_phase h t h1 Htok) as (pre0 & resp & -> & Hg & Hpre0).
    assert (Hsigned : forall url payload ev,
               (exists w, ev = EvWait w)
               \/ (exists x, ev = EvDo (post_request t url payload) x) ->
               (exists w, ev = EvWait w)
               \/ (exists rq x,
                      ev = EvDo rq x
                      /\ In ("Authorization", "Bearer " ++ t) (Header rq))).
    { intros url payload ev [Hw|(x & ->)]; [now left|right].
      eexists _, x. split; [reflexivity|]. now left. }
    destruct (for_range_from _ _ _ _ _) as [c h2] eqn:Hcreate.
    destruct (loop_trace _ _ _ _ _ _ _ _ _ Hcreate) as (evs2 & -> & Hevs2).
    apply (Forall_impl _ (Hsigned _ _)) in Hevs2.
    assert (Hrest : exists evs,
               h' = ((h ++ pre0 ++ [EvDo token_request (inr resp)])
                     ++ evs)%list
               /\ Forall (fun ev =>
                            (exists w, ev = EvWait w)
                            \/ (exists rq x,
                                   ev = EvDo rq x
                                   /\ In ("Authorization", "Bearer " ++ t)
                                        (Header rq))) evs).
    { destruct c as [createErr|res0].
      - destruct (create_failed createErr).
        + injection Hrun as _ <-. now exists evs2.
        + destruct (for_range_from _ _
                      (retry_attempt _ _ _ classify_addVersion) _ _)
            as [a h3] eqn:Hadd.
          destruct (loop_trace _ _ _ _ _ _ _ _ _ Hadd)
            as (evs3 & -> & Hevs3).
          apply (Forall_impl _ (Hsigned _ _)) in Hevs3.
          exists (evs2 ++ evs3)%list. split.
          * rewrite app_assoc. destruct a; now injection Hrun as _ <-.
          * apply Forall_app. now split.
      - injection Hrun as _ <-. now exists evs2. }
    destruct Hrest as (evs & -> & Hevs).
    exact (signed_after_grant h pre0 resp t evs pre req r post Hg Hpre0
             Hevs Hh' Hreq).
Qed.

End BearerToken.


(** ** Success ends the operation *)

Section SuccessEnds.

Variable L : Lib.
Variable E : Env.

Lemma FetchFromProject_served pid name :
  stops_at (served_from L (accessURL pid name)) (fetched L)
    (FetchFromProject L E pid name).
Proof.
  unfold FetchFromProject, for_range.
  destruct (negb _); [apply stops_at_ret|].
  destruct (negb _); [apply stops_at_ret|].
  eapply stops_at_bind with (Q1 := fun _ _ => False).
  - apply stops_at_never. apply getAccessToken_never.
    intros ev (req & resp & v & -> & Hurl & _).
    eexists _, _, _. split; [reflexivity | exact Hurl].
  - intros [t [err|]]; [apply stops_at_ret|].
    eapply stops_at_bind.
    + eapply stops_at_subset;
        [|apply (loop_verdict E _ _ _ _
                   (fun rq r => exists resp v, r = inr resp
                                               /\ serves L resp v)
                   (fun r => match classify_access L None r with
                             | Return x => inr x
                             | Break s => inl s
                             | Continue _ => inl None
                             end)
                   (access_attempt_executor L E t _))].
      * intros ev (req & resp & v & -> & _ & Hs). eexists _, _.
        split; eauto.
      * intros s r (resp & v & -> & Hs).
        now rewrite !(classify_access_serves L _ resp v Hs).
    + intros [lastErr|res]; pure_stops.
    + intros ev o (req & resp & v & -> & _ & Hs) Ho h.
      rewrite (Ho _ _ eq_refl).
      rewrite (classify_access_serves L None resp v Hs).
      eexists. split; [reflexivity|].
      intros req' resp' v' Heq Hs'. injection Heq as _ <-.
      destruct Hs as (_ & _ & D & Hu & Hd).
      destruct Hs' as (_ & _ & D' & Hu' & Hd'). congruence.
  - intros ev a _ [].
Qed.

Lemma StoreInProject_stored body pid name value :
  stops_at (ok_from (versionURL pid name)) stored
    (StoreInProject_with L E body pid name value).
Proof.
  unfold StoreInProject_with, for_range.
  destruct (negb _); [apply stops_at_ret|].
  destruct (negb _); [apply stops_at_ret|].
  eapply stops_at_bind with (Q1 := fun _ _ => False).
  - apply stops_at_never. apply getAccessToken_never.
    intros ev (req & resp & -> & Hurl & _).
    eexists _, _, _. split; [reflexivity | exact Hurl].
  - intros [tok [err|]]; [apply stops_at_ret|].
    eapply stops_at_bind with (Q1 := fun _ _ => False).
    + apply stops_at_never.
      apply (loop_never E _ _ _ _ _ (versionURL pid name)
               (create_attempt_executor E tok _ _)).
      * intros ev (req & resp & -> & Hurl & _).
        eexists _, _. split; [reflexivity | exact Hurl].
      * simpl. apply createURL_not_versionURL.
    + intros [createErr|res]; [|apply stops_at_ret].
      destruct (create_failed createErr); [apply stops_at_ret|].
      eapply stops_at_bind.
      * eapply stops_at_subset;
          [|apply (loop_verdict E _ _ _ _
                     (fun rq r => exists resp,
                          r = inr resp /\ StatusCode resp = StatusOK)
                     (fun _ => inr None)
                     (addVersion_attempt_executor E tok _ _))].
        -- intros ev (req & resp & -> & _ & Hok). eexists _, _.
           split; eauto.
        -- intros s r (resp & -> & Hok).
           now rewrite classify_addVersion_ok.
      * intros [lastErr|res]; pure_stops.
      * intros ev o (req & resp & -> & _) Ho h.
        rewrite (Ho _ _ eq_refl). eexists. split; reflexivity.
    + intros ev a _ [].
  - intros ev a _ [].
Qed.

End SuccessEnds.


(** ** Create comes before add-version *)

Section PhaseOrder.

Variable L : Lib.
Variable E : Env.

Lemma StoreInProject_phases body pid name value :
  create_precedes_version pid name
    (StoreInProject_with L E body pid name value).
Proof.
  intros h res h' Hrun pre req r post Hh' Hurl.
  destruct (Regexp.MatchString projectIDRegex pid) eqn:Hp.
  2:{ unfold StoreInProject_with in Hrun. rewrite Hp in Hrun.
      injection Hrun as _ <-. now apply no_event_added in Hh'. }
  destruct (Regexp.MatchString secretNameRegex name) eqn:Hn.
  2:{ unfold StoreInProject_with in Hrun. rewrite Hp, Hn in Hrun.
      injection Hrun as _ <-. now apply no_event_added in Hh'. }
  rewrite (StoreInProject_run L E body pid name value h Hp Hn) in Hrun.
  destruct (getAccessToken L E h) as [[t [err|]] h1] eqn:Htok.
  { injection Hrun as _ <-.
    rewrite (only_token_requests L E _ _ _ _ _ _ _ Htok Hh') in Hurl.
    now apply token_url_not_version in Hurl. }
  destruct (all_events_run _ _ (getAccessToken_events L E) h _ h1 Htok)
    as (evs1 & -> & Hevs1).
  destruct (for_range_from _ _ _ _ _) as [c h2] eqn:Hcreate.
  destruct (loop_trace E _ _ _ _ _ _ _ _ _ Hcreate) as (evs2 & Hh2 & Hevs2).
  (* no event of the first two phases is an add-version exchange *)
  assert (Hearly : forall ev, In ev (evs1 ++ evs2)%list ->
                     forall x, ev <> EvDo req x).
  { intros ev Hin x ->. apply in_app_or in Hin as [Hin|Hin].
    - rewrite Forall_forall in Hevs1.
      destruct (Hevs1 _ Hin) as [(w & Hw)|(y & Hy)]; [discriminate|].
      injection Hy as -> _. now apply token_url_not_version in Hurl.
    - rewrite Forall_forall in Hevs2.
      destruct (Hevs2 _ Hin) as [(w & Hw)|(y & Hy)]; [discriminate|].
      injection Hy as -> _. simpl in Hurl.
      now apply createURL_not_versionURL in Hurl. }
  assert (Hnone : h' = ((h ++ evs1) ++ evs2)%list -> False).
  { intros ->. rewrite <- !app_assoc in Hh'. apply app_inv_head in Hh'.
    refine (Hearly (EvDo req r) _ r eq_refl).
    rewrite Hh'. apply in_elt. }
  subst h2. destruct c as [createErr|res0].
  2:{ exfalso. apply Hnone. now injection Hrun as _ <-. }
  (* the create loop was left normally: it has sent a request *)
  pose proof (executor_outcome E _ cancelled_store classify_create
                (fun _ => True) (fun _ _ _ _ _ => I)
                maxRetries O None _ _ _ I Hcreate) as Hout.
  cbv beta in Hout.
  assert (Hlast : exists pre2 x,
             evs2 = (pre2 ++ [EvDo (create_request t pid name body) x])%list).
  { destruct Hout as [(Hz & _)
                     |[(pre2 & s0 & x & _ & Heq & _)
                      |(pre2 & s0 & x & _ & Heq & _)]].
    - now apply maxRetries_pos in Hz.
    - apply app_inv_head in Heq. now exists pre2, x.
    - apply app_inv_head in Heq. now exists pre2, x. }
  clear Hout. destruct Hlast as (pre2 & x & Hevs2eq).
  destruct (create_failed createErr).
  { exfalso. apply Hnone. now injection Hrun as _ <-. }
  destruct (for_range_from _ _
              (retry_attempt _ _ _ classify_addVersion) _ _)
    as [a h3] eqn:Hadd.
  destruct (loop_trace E _ _ _ _ _ _ _ _ _ Hadd) as (evs3 & Hh3 & Hevs3).
  assert (Hh3' : h' = (((h ++ evs1) ++ evs2) ++ evs3)%list)
    by (destruct a; injection Hrun as _ <-; exact Hh3).
  rewrite Hh3' in Hh'. rewrite <- !app_assoc in Hh'.
  apply app_inv_head in Hh'. rewrite app_assoc in Hh'.
  destruct (split_app _ _ _ _ _ Hh') as [(post1 & H1 & _)|(pre3 & H3 & ->)].
  - exfalso. refine (Hearly (EvDo req r) _ r eq_refl).
    rewrite H1. apply in_elt.
  - split.
    + exists (evs1 ++ pre2)%list, (create_request t pid name body), x, pre3.
      split; [|reflexivity].
      rewrite Hevs2eq. rewrite <- !app_assoc. reflexivity.
    + rewrite H3 in Hevs3. apply Forall_app in Hevs3 as [_ Hevs3].
      apply Forall_cons_iff in Hevs3 as [_ Hpost].
      eapply Forall_impl; [|exact Hpost].
      intros ev [(w & ->)|(y & ->)] rq z Heq; [discriminate|].
      now injection Heq as <- _.
Qed.

End PhaseOrder.


(** ** A create phase that gives up *)

Section CreateGivesUp.

Variable L : Lib.
Variable E : Env.

(** What follows the create loop, told by the text of [createErr]. *)
Lemma StoreInProject_decided_by_text body pid name value h tok h1
  createErr h2 :
  Regexp.MatchString projectIDRegex pid = true ->
  Regexp.MatchString secretNameRegex name = true ->
  getAccessToken L E h = ((tok, None), h1) ->
  for_range maxRetries
    (create_attempt E tok (createURL pid name) (JSON.Marshal body)) None h1
  = (inl createErr, h2) ->
  (forall e,
      createErr = Some e ->
      GoStrings.Contains (Error e) "secret already exists" = false ->
      StoreInProject_with L E body pid name value h
      = (Some (ErrWrap "failed to create secret: " e), h2))
  /\ (createErr = None
      \/ (exists e,
             createErr = Some e
             /\ GoStrings.Contains (Error e) "secret already exists" = true) ->
      exists res r rest,
        StoreInProject_with L E body pid name value h
        = (res,
           (h2 ++ EvDo (post_request tok (versionURL pid name)
                          (JSON.Marshal (versionReqBody value))) r
               :: rest)%list)).
Proof.
  intros Hp Hn Htok Hc.
  destruct (StoreInProject_after_create L E body pid name value h tok h1
              createErr h2 Hp Hn Htok Hc) as [Hfail Hgo].
  split.
  - intros e -> Hcont. rewrite Hfail; [reflexivity|].
    unfold create_failed. now rewrite Hcont.
  - intros [->|(e & -> & Hcont)]; apply Hgo; unfold create_failed;
      [reflexivity | now rewrite Hcont].
Qed.

(** With every create request answered by a 5xx whose recorded text lacks
    "secret already exists", the three attempts are used up and the store
    fails there: no add-version request is sent. *)
Lemma StoreInProject_create_gives_up body pid name value h tok h1 :
  Regexp.MatchString projectIDRegex pid = true ->
  Regexp.MatchString secretNameRegex name = true ->
  getAccessToken L E h = ((tok, None), h1) ->
  never_cancelled E ->
  (forall h', exists resp,
      Do E h' (post_request tok (createURL pid name) (JSON.Marshal body))
      = inr resp /\ server_error_without_conflict resp) ->
  exists resp evs,
    StoreInProject_with L E body pid name value h
    = (Some (ErrWrap "failed to create secret: "
               (ErrNew ("status " ++ GoStrings.itoa (StatusCode resp)
                        ++ ": " ++ read_body resp))),
       (h1 ++ evs)%list)
    /\ server_error_without_conflict resp
    /\ requests evs = maxRetries
    /\ Forall (fun ev =>
                 ev = EvWait TimerFired
                 \/ exists resp',
                     ev = EvDo (post_request tok (createURL pid name)
                                  (JSON.Marshal body)) (inr resp')
                     /\ server_error_without_conflict resp') evs.
Proof.
  intros Hp Hn Htok Hnc H5.
  destruct (executor_exhausted E
              (post_request tok (createURL pid name) (JSON.Marshal body))
              cancelled_store classify_create
              (fun _ => True)
              (fun s => exists resp,
                   s = Some (ErrNew ("status "
                                     ++ GoStrings.itoa (StatusCode resp)
                                     ++ ": " ++ read_body resp))
                   /\ server_error_without_conflict resp) Hnc)
    with (n := maxRetries) (a := O) (s := @None error) (h := h1)
    as (s' & evs & Hrun & _ & HJ & Hcount & Hall).
  - intros s h0 _. destruct (H5 h0) as (resp & -> & Hresp).
    rewrite classify_create_5xx by apply Hresp.
    eexists. split; [reflexivity|]. split; [|exact I].
    now exists resp.
  - exact I.
  - destruct HJ as (resp & -> & Hresp); [unfold maxRetries; lia|].
    exists resp, evs.
    assert (Hloop : for_range maxRetries
                      (create_attempt E tok (createURL pid name)
                         (JSON.Marshal body)) None h1
                    = (inl (Some (ErrNew ("status "
                                          ++ GoStrings.itoa (StatusCode resp)
                                          ++ ": " ++ read_body resp))),
                       (h1 ++ evs)%list)).
    { unfold for_range.
      rewrite (for_range_from_ext _ _ (create_attempt_executor E tok _ _)).
      exact Hrun. }
    destruct (StoreInProject_decided_by_text body pid name value h tok h1
                _ _ Hp Hn Htok Hloop) as [Hfail _].
    split; [|split; [exact Hresp|split; [exact Hcount|]]].
    + apply Hfail; [reflexivity|]. apply Hresp.
    + eapply Forall_impl; [|exact Hall].
      intros ev [->|(h0 & ->)]; [now left|right].
      destruct (H5 h0) as (resp' & -> & Hresp'). now exists resp'.
Qed.

End CreateGivesUp.


(** ** What the operations make of a capped body *)

Section CappedBodies.

Variable L : Lib.
Variable E : Env.

Lemma ends_on_weaken {A : Type} (F F' : Event -> Prop)
  (Q Q' : Event -> A -> Prop) (m : M A) :
  (forall ev, F' ev -> F ev) ->
  (forall ev a, F' ev -> Q ev a -> Q' ev a) ->
  ends_on F Q m -> ends_on F' Q' m.
Proof.
  intros HF HQ Hm h res h' Hrun pre ev post Hh' Hev.
  destruct (Hm h res h' Hrun pre ev post Hh' (HF _ Hev)) as [Hpost Hres].
  split; [exact Hpost|]. now apply HQ.
Qed.

Lemma serves_within_cap_serves resp v :
  serves_within_cap L resp v -> serves L resp v.
Proof.
  intros (Hok & Hlen & Data & Hu & Hd).
  destruct (read_through_cap resp) as (Hbody & _ & Herr).
  split; [exact Hok|]. split.
  - rewrite Herr.
    destruct (Z.leb_spec maxBodySize (GoStrings.len (data (RespBody resp))));
      [reflexivity|]. destruct Hlen; [lia | assumption].
  - exists Data. rewrite Hbody. now split.
Qed.

Lemma FetchFromProject_served_within_cap pid name :
  ends_on (served_within_cap_from L (accessURL pid name))
    (fetched_within_cap L) (FetchFromProject L E pid name).
Proof.
  eapply ends_on_weaken;
    [| |apply ends_on_of_stops, (FetchFromProject_served L E pid name)].
  - intros ev (req & resp & v & -> & Hurl & Hs).
    exists req, resp, v. split; [reflexivity|]. split; [exact Hurl|].
    now apply serves_within_cap_serves.
  - intros ev res _ Hres req resp v Hev Hs.
    apply (Hres req resp v Hev). now apply serves_within_cap_serves.
Qed.

Lemma StoreInProject_create_denied_within_cap body pid name value :
  ends_on (is_4xx_not_conflict_from (createURL pid name))
    create_denied_within_cap (StoreInProject_with L E body pid name value).
Proof.
  eapply ends_on_weaken;
    [| |apply ends_on_of_stops,
          (StoreInProject_create_4xx L E body pid name value)].
  - auto.
  - intros ev res _ Hres req resp Hev.
    rewrite (Hres req resp Hev).
    now rewrite (proj1 (read_through_cap resp)).
Qed.

Lemma StoreInProject_addVersion_denied_within_cap body pid name value :
  ends_on (is_4xx_from (versionURL pid name))
    addVersion_denied_within_cap
    (StoreInProject_with L E body pid name value).
Proof.
  eapply ends_on_weaken;
    [| |apply ends_on_of_stops,
          (StoreInProject_addVersion_4xx L E body pid name value)].
  - auto.
  - intros ev res _ Hres req resp Hev.
    rewrite (Hres req resp Hev).
    now rewrite (proj1 (read_through_cap resp)).
Qed.

End CappedBodies.


(* ================================================================== *)
(** * The claims *)
(* ================================================================== *)




(** C1, as amended. The three calls to the Secret Manager API treat a 4xx
    answer as final: in [FetchFromProject] a 4xx answer to the access
    request, and in [StoreInProject] a 4xx answer other than 409 to the
    create request or any 4xx answer to the add-version request, is the last
    event of the operation, which returns the call's "failed to ...: status
    N" error. The two metadata calls have no such rule: an iteration that
    receives any status other than 200, 4xx included, remembers "metadata
    server status N" and goes on to the next attempt. *)
Theorem C1_client_errors_end_api_calls_only (L : Lib) (E : Env) :
  (forall pid name,
      ends_on (is_4xx_from (accessURL pid name)) access_denied
        (FetchFromProject L E pid name))
  /\ (forall body pid name value,
         ends_on (is_4xx_not_conflict_from (createURL pid name)) create_denied
           (StoreInProject_with L E body pid name value))
  /\ (forall body pid name value,
         ends_on (is_4xx_from (versionURL pid name)) addVersion_denied
           (StoreInProject_with L E body pid name value))
  /\ retried_with E (getProjectID_attempt L E) projectID_request
       (fun resp => StatusCode resp <> StatusOK) metadata_status_error
  /\ retried_with E (getAccessToken_attempt L E) token_request
       (fun resp => StatusCode resp <> StatusOK) metadata_status_error.
Proof.
  split; [|split; [|split; [|split]]].
  - intros. apply ends_on_of_stops, FetchFromProject_4xx.
  - intros. apply ends_on_of_stops, StoreInProject_create_4xx.
  - intros. apply ends_on_of_stops, StoreInProject_addVersion_4xx.
  - apply getProjectID_status_retried.
  - apply getAccessToken_status_retried.
Qed.

Lemma C1_witness :
  fst (FetchFromProject Sample.lib Sample.env_not_found
         "test-project" "test-secret" [])
  = ("", Some (ErrNew "failed to access secret: status 404")).
Proof.
  pose proof (C1_client_errors_end_api_calls_only Sample.lib
                Sample.env_not_found) as (H & _).
  pose (run := FetchFromProject Sample.lib Sample.env_not_found
                 "test-project" "test-secret" []).
  pose (ev := nth 1 (snd run) (EvWait TimerFired)).
  assert (Hev : exists req resp, ev = EvDo req (inr resp)
                                 /\ URL req = accessURL "test-project" "test-secret"
                                 /\ is_4xx (StatusCode resp) = true).
  { eexists _, _. vm_compute. repeat split. }
  destruct (H "test-project" "test-secret" [] (fst run) (snd run)
              (surjective_pairing _) (firstn 1 (snd run)) ev [] eq_refl Hev)
    as [_ HQ].
  exact (HQ _ _ ltac:(vm_compute; reflexivity)).
Defined.

(** C1 as stated fails at the metadata calls: when the metadata server
    answers 404, [getProjectID] does not stop at the first answer; it sends
    three requests, waits twice and only then fails, with the cause wrapped
    as "failed to get project ID". *)
Lemma C1_counterexample :
  ~ ends_on is_4xx_response (fun _ _ => True)
      (getProjectID Sample.lib Sample.env_metadata_404)
  /\ requests
       (snd (getProjectID Sample.lib Sample.env_metadata_404 [])) = 3%nat
  /\ fst (getProjectID Sample.lib Sample.env_metadata_404 [])
     = ("", Some (ErrWrap "failed to get project ID: "
                    (ErrNew "metadata server status 404"))).
Proof.
  split; [|split; vm_compute; reflexivity].
  intros H.
  pose (run := getProjectID Sample.lib Sample.env_metadata_404 []).
  assert (Hev : is_4xx_response (hd (EvWait TimerFired) (snd run))).
  { eexists _, _. vm_compute. split; reflexivity. }
  destruct (H [] (fst run) (snd run) (surjective_pairing _) []
              (hd (EvWait TimerFired) (snd run)) (tl (snd run)) eq_refl Hev)
    as [Hpost _].
  vm_compute in Hpost. discriminate Hpost.
Qed.

(** C2. In [StoreInProject] (either copy), a 409 Conflict answer to the
    create request is not an error: the next event is the add-version
    request carrying the base64 text of the value, and if that request is
    answered 200 the operation ends there and returns nil. Any other 4xx
    answer to the create request is the last event: the operation returns
    "failed to create secret: status N: body" and no add-version request is
    sent. *)
Theorem C2_conflict_on_create_proceeds (L : Lib) (E : Env)
  (body : JSON.value) (pid name value : string) :
  followed_by (is_conflict_from (createURL pid name))
    (addVersion_attempted pid name value)
    (StoreInProject_with L E body pid name value)
  /\ ends_on (is_4xx_not_conflict_from (createURL pid name)) create_denied
       (StoreInProject_with L E body pid name value).
Proof.
  split.
  - apply followed_by_of_then, StoreInProject_conflict.
  - apply ends_on_of_stops, StoreInProject_create_4xx.
Qed.

Lemma C2_witness :
  fst (StoreInProject Sample.lib Sample.env_existing_secret
         "test-project" "existing-secret" "new-value" []) = None
  /\ fst (StoreInProject Sample.lib Sample.env_forbidden
            "test-project" "test-secret" "value" [])
     = Some (ErrNew "failed to create secret: status 403: error message").
Proof.
  split.
  - pose proof (C2_conflict_on_create_proceeds Sample.lib
                  Sample.env_existing_secret createReqBody
                  "test-project" "existing-secret" "new-value") as (H & _).
    pose (run := StoreInProject Sample.lib Sample.env_existing_secret
                   "test-project" "existing-secret" "new-value" []).
    assert (Hev : is_conflict_from (createURL "test-project" "existing-secret")
                    (nth 1 (snd run) (EvWait TimerFired))).
    { eexists _, _. vm_compute. repeat split. }
    destruct (H [] (fst run) (snd run) (surjective_pairing _)
                (firstn 1 (snd run)) _ (skipn 2 (snd run)) eq_refl Hev)
      as (ev' & post' & Hpost & tok & r & Hev' & Hok).
    vm_compute in Hpost. injection Hpost as <- <-.
    injection Hev' as _ <-.
    eapply Hok; reflexivity.
  - pose proof (C2_conflict_on_create_proceeds Sample.lib
                  Sample.env_forbidden createReqBody
                  "test-project" "test-secret" "value") as (_ & H).
    pose (run := StoreInProject Sample.lib Sample.env_forbidden
                   "test-project" "test-secret" "value" []).
    assert (Hev : is_4xx_not_conflict_from
                    (createURL "test-project" "test-secret")
                    (nth 1 (snd run) (EvWait TimerFired))).
    { eexists _, _. vm_compute. repeat split. discriminate. }
    destruct (H [] (fst run) (snd run) (surjective_pairing _)
                (firstn 1 (snd run)) _ [] eq_refl Hev) as [_ HQ].
    exact (HQ _ _ ltac:(vm_compute; reflexivity)).
Defined.

(** C6. Each public operation validates what it is given before anything
    else: a secret name that does not match [^[a-zA-Z0-9_-]{1,255}$] makes
    [Fetch], [Store], [FetchFromProject] and [StoreInProject] return
    "invalid secret name format", and a project ID that does not match
    [^[a-z][a-z0-9-]{4,28}[a-z0-9]$] makes the two functions that take one
    return "invalid project ID format: <pid>" (checked first); in every
    case the history is unchanged, so no request has been sent. The two
    patterns accept exactly: 1 to 255 bytes among letters, digits, [_] and
    [-]; and a lowercase letter, then 4 to 28 lowercase letters, digits or
    [-], then a lowercase letter or digit. *)
Theorem C6_invalid_input_rejected_before_any_request (L : Lib) (E : Env) :
  (forall name,
      Regexp.MatchString secretNameRegex name = true
      <-> valid_secret_name name)
  /\ (forall pid,
         Regexp.MatchString projectIDRegex pid = true
         <-> valid_project_id pid)
  /\ (forall name,
         Regexp.MatchString secretNameRegex name = false ->
         rejected_unsent snd (Fetch L E name) invalid_name)
  /\ (forall body name value,
         Regexp.MatchString secretNameRegex name = false ->
         rejected_unsent (fun r => r) (Store_with L E body name value)
           invalid_name)
  /\ (forall pid name,
         Regexp.MatchString projectIDRegex pid = false ->
         rejected_unsent snd (FetchFromProject L E pid name)
           (invalid_project L pid))
  /\ (forall pid name,
         Regexp.MatchString projectIDRegex pid = true ->
         Regexp.MatchString secretNameRegex name = false ->
         rejected_unsent snd (FetchFromProject L E pid name) invalid_name)
  /\ (forall body pid name value,
         Regexp.MatchString projectIDRegex pid = false ->
         rejected_unsent (fun r => r)
           (StoreInProject_with L E body pid name value)
           (invalid_project L pid))
  /\ (forall body pid name value,
         Regexp.MatchString projectIDRegex pid = true ->
         Regexp.MatchString secretNameRegex name = false ->
         rejected_unsent (fun r => r)
           (StoreInProject_with L E body pid name value) invalid_name).
Proof.
  split; [exact RegexpFacts.secretNameRegex_spec|].
  split; [exact RegexpFacts.projectIDRegex_spec|].
  split; [|split; [|split; [|split; [|split]]]].
  - intros name Hn h. unfold Fetch. rewrite Hn. simpl.
    eexists. split; reflexivity.
  - intros body name value Hn h. unfold Store_with. rewrite Hn. simpl.
    eexists. split; reflexivity.
  - intros pid name Hp h. unfold FetchFromProject. rewrite Hp. simpl.
    eexists. split; reflexivity.
  - intros pid name Hp Hn h. unfold FetchFromProject. rewrite Hp, Hn. simpl.
    eexists. split; reflexivity.
  - intros body pid name value Hp h. unfold StoreInProject_with.
    rewrite Hp. simpl. eexists. split; reflexivity.
  - intros body pid name value Hp Hn h. unfold StoreInProject_with.
    rewrite Hp, Hn. simpl. eexists. split; reflexivity.
Qed.

Lemma C6_witness :
  Fetch Sample.lib Sample.env_not_found "" []
  = (("", Some (ErrNew "invalid secret name format")), [])
  /\ StoreInProject Sample.lib Sample.env_not_found "" "test-secret" "value" []
     = (Some (ErrNew ("invalid project ID format: " ++ GoStrings.quoted "")),
        [])
  /\ FetchFromProject Sample.lib Sample.env_not_found
       "test-project" "a/b" []
     = (("", Some (ErrNew "invalid secret name format")), []).
Proof.
  pose proof (C6_invalid_input_rejected_before_any_request Sample.lib
                Sample.env_not_found)
    as (_ & _ & HF & _ & _ & HFn & HSp & _).
  split; [|split].
  - destruct (HF "" eq_refl []) as ([v e] & Hrun & He).
    simpl in He. subst e. rewrite Hrun. f_equal. f_equal.
    now injection Hrun as <-.
  - destruct (HSp createReqBody "" "test-secret" "value" eq_refl [])
      as (res & Hrun & He).
    subst res. exact Hrun.
  - destruct (HFn "test-project" "a/b" eq_refl eq_refl [])
      as ([v e] & Hrun & He).
    simpl in He. subst e. rewrite Hrun. f_equal. f_equal.
    now injection Hrun as <-.
Defined.

(** C8, on the second copy of [StoreInProject] in [secret.go]: its create
    requests are POSTs to the create URL with both headers, but their body
    is [{"replication":{"automatic":"{}"}}], the value of [automatic] being
    a JSON string, and not the [{"replication":{"automatic":{}}}] the claim
    and [TestReplicationPolicy] ask for. (The first copy does send the
    latter: [StoreInProject_create_body].) *)
Theorem C8_second_copy_sends_automatic_as_string (L : Lib) (E : Env)
  (pid name value : string) :
  create_requests_carry pid name automatic_as_string_json
    (StoreInProject_inlined L E pid name value)
  /\ automatic_as_string_json <> automatic_replication_json.
Proof.
  split.
  - rewrite <- Marshal_createReqBody_inlined.
    apply StoreInProject_create_requests.
  - discriminate.
Qed.

Lemma C8_witness :
  Body (match nth 1 (snd (StoreInProject_inlined Sample.lib
                            Sample.env_new_secret
                            "test-project" "test-secret" "test-value" []))
               (EvWait TimerFired) with
        | EvDo req _ => req
        | EvWait _ => token_request
        end)
  = automatic_as_string_json.
Proof.
  pose proof (C8_second_copy_sends_automatic_as_string Sample.lib
                Sample.env_new_secret
                "test-project" "test-secret" "test-value") as (H & _).
  pose (run := StoreInProject_inlined Sample.lib Sample.env_new_secret
                 "test-project" "test-secret" "test-value" []).
  refine (proj1 (proj2 (H [] (fst run) (snd run) (surjective_pairing _)
                          (firstn 1 (snd run)) _ _ (skipn 2 (snd run)) _ _))).
  - vm_compute. reflexivity.
  - vm_compute. reflexivity.
Defined.

(** C9. An empty access token is never taken for a token. An iteration of
    [getAccessToken] that receives status 200 with a body decoding to an
    empty [access_token] (such as [{"access_token":""}]) remembers the
    error "empty access token" and goes on; whenever [getAccessToken]
    returns a nil error its token is not empty; and when the endpoint keeps
    answering so, the three attempts are used up and the result is "failed
    to get access token: " wrapping "empty access token". *)
Theorem C9_empty_access_token_is_not_a_token (L : Lib) (E : Env) :
  retried_with E (getAccessToken_attempt L E) token_request
    (empty_token_response L) empty_token_error
  /\ (forall h t h', getAccessToken L E h = ((t, None), h') -> t <> "")
  /\ (never_cancelled E ->
      (forall h, exists resp,
          Do E h token_request = inr resp /\ empty_token_response L resp) ->
      forall h, exists evs,
        getAccessToken L E h
        = (("", Some (ErrWrap "failed to get access token: "
                        (ErrNew "empty access token"))), (h ++ evs)%list)
        /\ requests evs = maxRetries).
Proof.
  split; [|split].
  - apply getAccessToken_empty_retried.
  - apply getAccessToken_nonempty.
  - intros Hnc Hempty h. now apply getAccessToken_empty_exhausts.
Qed.

Lemma C9_witness :
  fst (getAccessToken Sample.lib Sample.env_empty_token [])
  = ("", Some (ErrWrap "failed to get access token: "
                 (ErrNew "empty access token")))
  /\ requests (snd (getAccessToken Sample.lib Sample.env_empty_token []))
     = 3%nat.
Proof.
  pose proof (C9_empty_access_token_is_not_a_token Sample.lib
                Sample.env_empty_token) as (_ & _ & H).
  destruct (H (fun _ => eq_refl)
              (fun _ => ex_intro _ _ (conj eq_refl (conj eq_refl eq_refl)))
              []) as (evs & Hrun & Hn).
  rewrite Hrun. simpl. split; [reflexivity | exact Hn].
Defined.



(** C10. Whether [StoreInProject] goes from the create phase to the
    add-version phase is decided by the text of the recorded create error.
    When the create loop is left normally with [createErr]: if [createErr]
    is an error whose message does not contain "secret already exists", the
    function returns "failed to create secret: " wrapping it and sends
    nothing more; if [createErr] is nil, or an error whose message contains
    that text, the add-version request is sent next. So when the three
    create attempts are all answered by 5xx responses whose bodies contain
    that text, which the recorded error "status N: body" embeds, the
    add-version request is sent after the third answer although no create
    request was answered 409 or with success; whereas with 5xx answers
    whose recorded text lacks it, the function fails after the third
    answer with "failed to create secret: status N: body" and sends no
    add-version request. *)
Theorem C10_create_error_text_decides (L : Lib) (E : Env)
  (body : JSON.value) (pid name value : string)
  (h : list Event) (tok : string) (h1 : list Event) :
  Regexp.MatchString projectIDRegex pid = true ->
  Regexp.MatchString secretNameRegex name = true ->
  getAccessToken L E h = ((tok, None), h1) ->
  (forall createErr h2,
      for_range maxRetries
        (create_attempt E tok (createURL pid name) (JSON.Marshal body)) None h1
      = (inl createErr, h2) ->
      (forall e,
          createErr = Some e ->
          GoStrings.Contains (Error e) "secret already exists" = false ->
          StoreInProject_with L E body pid name value h
          = (Some (ErrWrap "failed to create secret: " e), h2))
      /\ (createErr = None
          \/ (exists e,
                 createErr = Some e
                 /\ GoStrings.Contains (Error e) "secret already exists"
                    = true) ->
          exists res r rest,
            StoreInProject_with L E body pid name value h
            = (res,
               (h2 ++ EvDo (post_request tok (versionURL pid name)
                              (JSON.Marshal (versionReqBody value))) r
                   :: rest)%list)))
  /\ (never_cancelled E ->
      (forall h', exists resp,
          Do E h' (post_request tok (createURL pid name) (JSON.Marshal body))
          = inr resp /\ server_error_naming_conflict resp) ->
      exists res evs r rest,
        StoreInProject_with L E body pid name value h
        = (res,
           (h1 ++ evs
            ++ EvDo (post_request tok (versionURL pid name)
                       (JSON.Marshal (versionReqBody value))) r :: rest)%list)
        /\ requests evs = maxRetries
        /\ Forall (fun ev =>
                     ev = EvWait TimerFired
                     \/ exists resp,
                         ev = EvDo (post_request tok (createURL pid name)
                                      (JSON.Marshal body)) (inr resp)
                         /\ server_error_naming_conflict resp) evs)
  /\ (never_cancelled E ->
      (forall h', exists resp,
          Do E h' (post_request tok (createURL pid name) (JSON.Marshal body))
          = inr resp /\ server_error_without_conflict resp) ->
      exists resp evs,
        StoreInProject_with L E body pid name value h
        = (Some (ErrWrap "failed to create secret: "
                   (ErrNew ("status " ++ GoStrings.itoa (StatusCode resp)
                            ++ ": " ++ read_body resp))),
           (h1 ++ evs)%list)
        /\ server_error_without_conflict resp
        /\ requests evs = maxRetries
        /\ Forall (fun ev =>
                     ev = EvWait TimerFired
                     \/ exists resp',
                         ev = EvDo (post_request tok (createURL pid name)
                                      (JSON.Marshal body)) (inr resp')
                         /\ server_error_without_conflict resp') evs).
Proof.
  intros Hp Hn Htok. split; [|split].
  - intros createErr h2 Hc.
    now apply (StoreInProject_decided_by_text L E body pid name value h tok
                 h1 createErr h2).
  - intros Hnc H5.
    now apply (StoreInProject_proceeds_after_5xx L E body pid name value h tok h1).
  - intros Hnc H5.
    now apply (StoreInProject_create_gives_up L E body pid name value h tok
                 h1).
Qed.

Lemma C10_witness :
  (exists res evs r rest,
      StoreInProject Sample.lib Sample.env_create_down
        "test-project" "test-secret" "test-value" []
      = (res,
         (snd (getAccessToken Sample.lib Sample.env_create_down [])
          ++ evs
          ++ EvDo (post_request "test-token"
                     (versionURL "test-project" "test-secret")
                     (JSON.Marshal (versionReqBody "test-value"))) r
             :: rest)%list)
      /\ requests evs = 3%nat)
  /\ (exists evs,
         StoreInProject Sample.lib Sample.env_api_down
           "test-project" "test-secret" "test-value" []
         = (Some (ErrWrap "failed to create secret: "
                    (ErrNew "status 503: ")),
            (snd (getAccessToken Sample.lib Sample.env_api_down [])
             ++ evs)%list)
         /\ requests evs = 3%nat
         /\ Forall (fun ev =>
                      forall rq x, ev = EvDo rq x ->
                                   URL rq = createURL "test-project"
                                              "test-secret") evs).
Proof.
  split.
  - assert (H5 : forall h', exists resp,
               Do Sample.env_create_down h'
                 (post_request "test-token"
                    (createURL "test-project" "test-secret")
                    (JSON.Marshal createReqBody))
               = inr resp /\ server_error_naming_conflict resp).
    { intros h'. eexists. split; [reflexivity|].
      split; [cbn; lia | reflexivity]. }
    destruct (proj1 (proj2
                (C10_create_error_text_decides Sample.lib
                   Sample.env_create_down createReqBody
                   "test-project" "test-secret" "test-value"
                   [] "test-token"
                   (snd (getAccessToken Sample.lib Sample.env_create_down []))
                   eq_refl eq_refl eq_refl))
                (fun _ => eq_refl) H5)
      as (res & evs & r & rest & Hrun & Hn & _).
    exists res, evs, r, rest. split; [exact Hrun | exact Hn].
  - assert (H5 : forall h', exists resp,
               Do Sample.env_api_down h'
                 (post_request "test-token"
                    (createURL "test-project" "test-secret")
                    (JSON.Marshal createReqBody))
               = inr resp /\ server_error_without_conflict resp).
    { intros h'. eexists. split; [reflexivity|].
      split; [cbn; lia | vm_compute; reflexivity]. }
    destruct (proj2 (proj2
                (C10_create_error_text_decides Sample.lib
                   Sample.env_api_down createReqBody
                   "test-project" "test-secret" "test-value"
                   [] "test-token"
                   (snd (getAccessToken Sample.lib Sample.env_api_down []))
                   eq_refl eq_refl eq_refl))
                (fun _ => eq_refl) H5)
      as (resp & evs & Hrun & Hresp & Hn & Hall).
    exists evs.
    split; [|split; [exact Hn|]].
    + unfold StoreInProject. rewrite Hrun.
      assert (Herr : fst (StoreInProject Sample.lib Sample.env_api_down
                            "test-project" "test-secret" "test-value" [])
                     = Some (ErrWrap "failed to create secret: "
                               (ErrNew "status 503: ")))
        by (vm_compute; reflexivity).
      unfold StoreInProject in Herr. rewrite Hrun in Herr.
      cbn [fst] in Herr. now rewrite Herr.
    + eapply Forall_impl; [|exact Hall].
      intros ev [->|(resp' & -> & _)] rq x Heq; [discriminate|].
      now injection Heq as <- _.
Defined.

(** C5, where the code departs from it: the create call of
    [StoreInProject] (either copy). When the first create attempt is
    answered by a 5xx (whose recorded text does not contain "secret already
    exists"), the wait is not cut short and the second attempt is answered
    200 or 201, the loop is left on that success, but [createErr] still
    holds the error of the first attempt: the function returns "failed to
    create secret: " wrapping it, after two create requests and without
    sending the add-version request. A transient failure followed by a
    success, within the cap, does not make this call succeed. *)
Theorem C5_create_success_after_retry_is_reported_as_failure
  (L : Lib) (E : Env) (body : JSON.value) (pid name value : string)
  (h : list Event) (tok : string) (h1 : list Event) (resp1 resp2 : Response) :
  Regexp.MatchString projectIDRegex pid = true ->
  Regexp.MatchString secretNameRegex name = true ->
  getAccessToken L E h = ((tok, None), h1) ->
  Do E h1 (create_request tok pid name body) = inr resp1 ->
  500 <= StatusCode resp1 < 600 ->
  GoStrings.Contains
    ("status " ++ GoStrings.itoa (StatusCode resp1) ++ ": " ++ read_body resp1)
    "secret already exists" = false ->
  Select E (h1 ++ [EvDo (create_request tok pid name body) (inr resp1)])%list
  = TimerFired ->
  Do E (h1 ++ [EvDo (create_request tok pid name body) (inr resp1);
               EvWait TimerFired])%list
    (create_request tok pid name body) = inr resp2 ->
  StatusCode resp2 = StatusOK \/ StatusCode resp2 = StatusCreated ->
  StoreInProject_with L E body pid name value h
  = (Some (ErrWrap "failed to create secret: "
             (ErrNew ("status " ++ GoStrings.itoa (StatusCode resp1)
                      ++ ": " ++ read_body resp1))),
     (h1 ++ [EvDo (create_request tok pid name body) (inr resp1);
             EvWait TimerFired;
             EvDo (create_request tok pid name body) (inr resp2)])%list).
Proof.
  intros Hp Hn Htok HDo1 H5 Htext Hsel HDo2 Hok.
  pose proof (create_loop_success_after_5xx E tok (createURL pid name)
                (JSON.Marshal body) h1 resp1 resp2 HDo1 H5 Hsel HDo2 Hok)
    as Hloop.
  destruct (StoreInProject_after_create L E body pid name value h tok h1
              _ _ Hp Hn Htok Hloop) as [Hfail _].
  rewrite Hfail; [reflexivity|].
  unfold create_failed. cbn [Error]. now rewrite Htext.
Qed.

Lemma C5_witness :
  StoreInProject Sample.lib Sample.env_create_flaky
    "test-project" "test-secret" "test-value" []
  = (Some (ErrWrap "failed to create secret: "
             (ErrNew "status 503: unavailable")),
     [EvDo token_request
        (Sample.response 200 (Sample.token_body "test-token"));
      EvDo (create_request "test-token" "test-project" "test-secret"
              createReqBody) (Sample.response 503 "unavailable");
      EvWait TimerFired;
      EvDo (create_request "test-token" "test-project" "test-secret"
              createReqBody) (Sample.response 201 "")]).
Proof.
  refine (C5_create_success_after_retry_is_reported_as_failure
            Sample.lib Sample.env_create_flaky createReqBody
            "test-project" "test-secret" "test-value" [] "test-token"
            [EvDo token_request
               (Sample.response 200 (Sample.token_body "test-token"))]
            {| StatusCode := 503;
               RespBody := {| data := "unavailable"; fail := None |} |}
            {| StatusCode := 201;
               RespBody := {| data := ""; fail := None |} |}
            eq_refl eq_refl eq_refl eq_refl _ eq_refl eq_refl eq_refl
            (or_intror eq_refl)).
  cbn. lia.
Defined.

(* ================================================================== *)
(** * Further properties of the package *)
(* ================================================================== *)

(** X1. The worst case of every operation is bounded. A loop sends at most
    [maxRetries] requests and waits [retryDelay] at most [maxRetries - 1]
    times (never before its first request). So the metadata fetches stay
    within 3 requests and 2 waits, [FetchFromProject] within 6 and 4,
    [Fetch] and [StoreInProject] within 9 and 6, and [Store] within 12
    and 8, whatever the services answer. *)
Theorem X1_requests_and_waits_are_bounded (L : Lib) (E : Env) :
  within_budget 3 2 (getProjectID L E)
  /\ within_budget 3 2 (getAccessToken L E)
  /\ (forall pid name, within_budget 6 4 (FetchFromProject L E pid name))
  /\ (forall name, within_budget 9 6 (Fetch L E name))
  /\ (forall body pid name value,
         within_budget 9 6 (StoreInProject_with L E body pid name value))
  /\ (forall body name value,
         within_budget 12 8 (Store_with L E body name value)).
Proof.
  split; [|split; [|split; [|split; [|split]]]]; intros.
  - apply getProjectID_budget.
  - apply getAccessToken_budget.
  - apply FetchFromProject_budget.
  - apply Fetch_budget.
  - apply StoreInProject_budget.
  - apply Store_budget.
Qed.

(** X2. The two metadata fetches end in one of three ways, each told by the
    result and the last event. [getProjectID] returns a project ID with a
    nil error only when its last event is a 200 answer whose body, read in
    full and trimmed, is that ID, and the ID is not empty; it returns the
    error of the context when its last event is a wait cut short; otherwise
    it has sent [maxRetries] requests and returns "failed to get project
    ID: " wrapping the cause of the last failure (transport error, "metadata
    server status N", read error or "empty project ID"). [getAccessToken]
    does the same with the decoded [access_token] and the prefix "failed to
    get access token: ". *)
Theorem X2_metadata_fetches_outcomes (L : Lib) (E : Env) (h : list Event) :
  metadata_outcome projectID_request (names_project L) (projectID_failure L)
    "failed to get project ID: " h
    (fst (getProjectID L E h)) (snd (getProjectID L E h))
  /\ metadata_outcome token_request (grants_token L) (token_failure L)
       "failed to get access token: " h
       (fst (getAccessToken L E h)) (snd (getAccessToken L E h)).
Proof.
  split.
  - apply (getProjectID_outcome L E h). apply surjective_pairing.
  - apply (getAccessToken_outcome L E h). apply surjective_pairing.
Qed.

(** X3. Every run of [FetchFromProject] ends in one of seven ways. With no
    event added: "invalid project ID format" or "invalid secret name
    format". After a wait cut short: the error of the context. After a
    failed token exchange: "failed to get access token: " wrapping its
    cause. After a 4xx answer to the access request: "failed to access
    secret: status N". After a failed access exchange: "failed to access
    secret: " wrapping its cause. And with a nil error only when the last
    event is a 200 answer to the access request whose payload data
    base64-decodes to the returned value. With any error the returned
    string is empty. *)
Theorem X3_FetchFromProject_outcomes (L : Lib) (E : Env)
  (pid name : string) (h : list Event) :
  fetch_outcome L pid name h
    (fst (FetchFromProject L E pid name h))
    (snd (FetchFromProject L E pid name h)).
Proof.
  apply (FetchFromProject_outcome L E pid name h). apply surjective_pairing.
Qed.

(** X4. Every run of [StoreInProject] (either copy) ends in one of nine
    ways. It returns nil only when its last event is a 200 answer to the
    add-version request that carries the base64 text of the value. Its
    errors are: the two validation errors, with no event added; the error
    of the context after a wait cut short; "failed to get access token: "
    wrapping the cause of the last token failure; "failed to create secret:
    status N: body" after a 4xx other than 409 on create; "failed to create
    secret: " wrapping a cause whose text lacks "secret already exists",
    the last event being a create exchange; "failed to add secret version:
    status N: body" after a 4xx on add-version; and "failed to add secret
    version: " wrapping the cause of the last add-version failure. *)
Theorem X4_StoreInProject_outcomes (L : Lib) (E : Env) (body : JSON.value)
  (pid name value : string) (h : list Event) :
  store_outcome L body pid name value h
    (fst (StoreInProject_with L E body pid name value h))
    (snd (StoreInProject_with L E body pid name value h)).
Proof.
  apply (StoreInProject_outcome L E body pid name value h).
  apply surjective_pairing.
Qed.

(** X5. [FetchFromProject] succeeds after retries. With a token obtained and
    no wait cut short, if the first [k] answers to the access request, for
    some [k] below [maxRetries], are failures the loop retries on
    (transport error, status other than 200 and 4xx, unreadable or
    undecodable body) and the next answer is a 200 whose payload data
    base64-decodes to [v], then [FetchFromProject] returns [v] with a nil
    error, having sent exactly [k + 1] access requests. *)
Theorem X5_FetchFromProject_succeeds_after_retries (L : Lib) (E : Env)
  (pid name : string) (h : list Event) (tok : string) (h1 : list Event)
  (k : nat) (resp : Response) (v : string) :
  Regexp.MatchString projectIDRegex pid = true ->
  Regexp.MatchString secretNameRegex name = true ->
  getAccessToken L E h = ((tok, None), h1) ->
  never_cancelled E ->
  (k < maxRetries)%nat ->
  (forall i, (i < k)%nat ->
     exists e,
       access_failure L
         (answer_at E (access_request tok (accessURL pid name)) i h1) e) ->
  answer_at E (access_request tok (accessURL pid name)) k h1 = inr resp ->
  serves L resp v ->
  FetchFromProject L E pid name h
  = ((v, None),
     after_attempts E (access_request tok (accessURL pid name))
       (Datatypes.S k) 0 h1)
  /\ requests (snd (FetchFromProject L E pid name h))
     = (requests h1 + Datatypes.S k)%nat.
Proof.
  intros Hp Hn Htok Hnc Hk Hfail Hans Hs.
  rewrite (FetchFromProject_retries L E Hnc pid name h tok h1 k resp v)
    by assumption.
  split; [reflexivity|]. apply after_attempts_requests.
Qed.

Lemma X5_witness :
  FetchFromProject Sample.lib (Sample.env_access_flaky 2)
    "test-project" "test-secret" []
  = (("secret-value", None),
     after_attempts (Sample.env_access_flaky 2)
       (access_request "test-token" (accessURL "test-project" "test-secret"))
       3 0
       [EvDo token_request
          (Sample.response 200 (Sample.token_body "test-token"))])
  /\ requests (snd (FetchFromProject Sample.lib (Sample.env_access_flaky 2)
                      "test-project" "test-secret" []))
     = 4%nat.
Proof.
  apply (X5_FetchFromProject_succeeds_after_retries Sample.lib
           (Sample.env_access_flaky 2) "test-project" "test-secret" []
           "test-token"
           [EvDo token_request
              (Sample.response 200 (Sample.token_body "test-token"))]
           2
           {| StatusCode := 200;
              RespBody :=
                {| data := Sample.payload_body
                             (Base64.EncodeToString "secret-value");
                   fail := None |} |}
           "secret-value").
  - reflexivity.
  - reflexivity.
  - vm_compute. reflexivity.
  - intros h. reflexivity.
  - unfold maxRetries. lia.
  - intros i Hi. destruct i as [|[|i]]; [| |lia];
      exists (ErrNew "status 500"); vm_compute; left;
      repeat split; discriminate.
  - vm_compute. reflexivity.
  - vm_compute. split; [reflexivity|]. split; [reflexivity|].
    eexists. split; reflexivity.
Defined.

(** X6. [FetchFromProject] gives up after [maxRetries] failures. With a
    token obtained and no wait cut short, if every one of the three answers
    to the access request is a failure the loop retries on, the function
    returns "failed to access secret: " wrapping the cause of the last of
    them, after exactly three access requests. *)
Theorem X6_FetchFromProject_gives_up_with_last_cause (L : Lib) (E : Env)
  (pid name : string) (h : list Event) (tok : string) (h1 : list Event)
  (cause : error) :
  Regexp.MatchString projectIDRegex pid = true ->
  Regexp.MatchString secretNameRegex name = true ->
  getAccessToken L E h = ((tok, None), h1) ->
  never_cancelled E ->
  (forall i, (i < maxRetries)%nat ->
     exists e,
       access_failure L
         (answer_at E (access_request tok (accessURL pid name)) i h1) e) ->
  access_failure L
    (answer_at E (access_request tok (accessURL pid name))
       (Nat.pred maxRetries) h1) cause ->
  FetchFromProject L E pid name h
  = (("", Some (ErrWrap "failed to access secret: " cause)),
     after_attempts E (access_request tok (accessURL pid name))
       maxRetries 0 h1)
  /\ requests (snd (FetchFromProject L E pid name h))
     = (requests h1 + maxRetries)%nat.
Proof.
  intros Hp Hn Htok Hnc Hfail Hlast.
  rewrite (FetchFromProject_gives_up L E Hnc pid name h tok h1 cause)
    by assumption.
  split; [reflexivity|]. apply after_attempts_requests.
Qed.

Lemma X6_witness :
  FetchFromProject Sample.lib Sample.env_api_down
    "test-project" "test-secret" []
  = (("", Some (ErrWrap "failed to access secret: "
                  (ErrNew "status 503"))),
     after_attempts Sample.env_api_down
       (access_request "test-token" (accessURL "test-project" "test-secret"))
       3 0
       [EvDo token_request
          (Sample.response 200 (Sample.token_body "test-token"))])
  /\ requests (snd (FetchFromProject Sample.lib Sample.env_api_down
                      "test-project" "test-secret" []))
     = 4%nat.
Proof.
  apply (X6_FetchFromProject_gives_up_with_last_cause Sample.lib
           Sample.env_api_down "test-project" "test-secret" []
           "test-token"
           [EvDo token_request
              (Sample.response 200 (Sample.token_body "test-token"))]
           (ErrNew "status 503")).
  - reflexivity.
  - reflexivity.
  - vm_compute. reflexivity.
  - intros h. reflexivity.
  - intros i Hi. destruct i as [|[|[|i]]];
      [| | |unfold maxRetries in Hi; lia];
      exists (ErrNew "status 503"); vm_compute; left;
      repeat split; discriminate.
  - vm_compute. left. repeat split; discriminate.
Defined.

(** X7. The metadata fetches succeed after retries. With no wait cut short,
    if the first [k] answers, for some [k] below [maxRetries], are failures
    (transport error, status other than 200, unreadable or undecodable
    body, blank project ID or empty token) and the next answer is a 200
    naming a project ID (granting a token), then [getProjectID]
    ([getAccessToken]) returns it with a nil error after exactly [k + 1]
    requests. *)
Theorem X7_metadata_fetches_succeed_after_retries (L : Lib) (E : Env)
  (h : list Event) (k : nat) (resp : Response) (v : string) :
  never_cancelled E ->
  (k < maxRetries)%nat ->
  ((forall i, (i < k)%nat ->
      exists e, projectID_failure L (answer_at E projectID_request i h) e) ->
   answer_at E projectID_request k h = inr resp ->
   names_project L resp v ->
   getProjectID L E h
   = ((v, None), after_attempts E projectID_request (Datatypes.S k) 0 h)
   /\ requests (snd (getProjectID L E h))
      = (requests h + Datatypes.S k)%nat)
  /\ ((forall i, (i < k)%nat ->
         exists e, token_failure L (answer_at E token_request i h) e) ->
      answer_at E token_request k h = inr resp ->
      grants_token L resp v ->
      getAccessToken L E h
      = ((v, None), after_attempts E token_request (Datatypes.S k) 0 h)
      /\ requests (snd (getAccessToken L E h))
         = (requests h + Datatypes.S k)%nat).
Proof.
  intros Hnc Hk. split; intros Hfail Hans Hv.
  - rewrite (getProjectID_retries L E Hnc h k resp v) by assumption.
    split; [reflexivity|]. apply after_attempts_requests.
  - rewrite (getAccessToken_retries L E Hnc h k resp v) by assumption.
    split; [reflexivity|]. apply after_attempts_requests.
Qed.

Lemma X7_witness :
  getProjectID Sample.lib (Sample.env_metadata_flaky 2) []
  = (("test-project", None),
     after_attempts (Sample.env_metadata_flaky 2) projectID_request 3 0 [])
  /\ requests (snd (getProjectID Sample.lib (Sample.env_metadata_flaky 2)
                      []))
     = 3%nat.
Proof.
  apply (X7_metadata_fetches_succeed_after_retries Sample.lib
           (Sample.env_metadata_flaky 2) [] 2
           {| StatusCode := 200;
              RespBody := {| data := "test-project"; fail := None |} |}
           "test-project").
  - intros h. reflexivity.
  - unfold maxRetries. lia.
  - intros i Hi. destruct i as [|[|i]]; [| |lia];
      exists (ErrNew "metadata server status 503"); vm_compute; left;
      (split; [discriminate | reflexivity]).
  - vm_compute. reflexivity.
  - vm_compute. repeat split. discriminate.
Defined.

(** X8. [StoreInProject] (either copy) succeeds after retries of the
    add-version call. With a token obtained and no wait cut short, if the
    first create request is answered 200, 201 or 409, the first [k] answers
    to the add-version request, for some [k] below [maxRetries], are
    transport errors or statuses other than 200 and 4xx, and the next one
    is a 200, then the function returns nil after one create request and
    exactly [k + 1] add-version requests. *)
Theorem X8_StoreInProject_succeeds_after_retries (L : Lib) (E : Env)
  (body : JSON.value) (pid name value : string) (h : list Event)
  (tok : string) (h1 : list Event) (cresp : Response) (k : nat)
  (resp : Response) :
  Regexp.MatchString projectIDRegex pid = true ->
  Regexp.MatchString secretNameRegex name = true ->
  getAccessToken L E h = ((tok, None), h1) ->
  never_cancelled E ->
  Do E h1 (create_request tok pid name body) = inr cresp ->
  create_settled cresp ->
  (k < maxRetries)%nat ->
  (forall i, (i < k)%nat ->
     exists e,
       addVersion_failure
         (answer_at E
            (post_request tok (versionURL pid name)
               (JSON.Marshal (versionReqBody value))) i
            (h1 ++ [EvDo (create_request tok pid name body) (inr cresp)]))
         e) ->
  answer_at E
    (post_request tok (versionURL pid name)
       (JSON.Marshal (versionReqBody value))) k
    (h1 ++ [EvDo (create_request tok pid name body) (inr cresp)])
  = inr resp ->
  StatusCode resp = StatusOK ->
  StoreInProject_with L E body pid name value h
  = (None,
     after_attempts E
       (post_request tok (versionURL pid name)
          (JSON.Marshal (versionReqBody value))) (Datatypes.S k) 0
       (h1 ++ [EvDo (create_request tok pid name body) (inr cresp)]))
  /\ requests (snd (StoreInProject_with L E body pid name value h))
     = (requests h1 + 1 + Datatypes.S k)%nat.
Proof.
  intros Hp Hn Htok Hnc Hcreate Hset Hk Hfail Hans Hok.
  rewrite (StoreInProject_retries L E Hnc body pid name value h tok h1
             cresp k resp) by assumption.
  split; [reflexivity|]. cbn [snd].
  rewrite after_attempts_requests. unfold requests.
  rewrite exchanges_app. reflexivity.
Qed.

Lemma X8_witness :
  fst (StoreInProject Sample.lib Sample.env_addVersion_flaky
         "test-project" "test-secret" "test-value" [])
  = None
  /\ requests (snd (StoreInProject Sample.lib Sample.env_addVersion_flaky
                      "test-project" "test-secret" "test-value" []))
     = 5%nat.
Proof.
  unfold StoreInProject.
  destruct (X8_StoreInProject_succeeds_after_retries Sample.lib
             Sample.env_addVersion_flaky createReqBody
             "test-project" "test-secret" "test-value" [] "test-token"
             [EvDo token_request
                (Sample.response 200 (Sample.token_body "test-token"))]
             {| StatusCode := 409;
                RespBody := {| data := ""; fail := None |} |}
             2
             {| StatusCode := 200;
                RespBody := {| data := ""; fail := None |} |})
    as [Hrun Hcount].
  - reflexivity.
  - reflexivity.
  - vm_compute. reflexivity.
  - intros h. reflexivity.
  - vm_compute. reflexivity.
  - right. right. reflexivity.
  - unfold maxRetries. lia.
  - intros i Hi. destruct i as [|[|i]]; [| |lia];
      exists (ErrNew "status 500: "); vm_compute;
      repeat split; discriminate.
  - vm_compute. reflexivity.
  - reflexivity.
  - rewrite Hrun. split; [reflexivity|]. rewrite Hrun in Hcount.
    exact Hcount.
Defined.

(** X9. [Fetch] and [Store] (either copy) compose the metadata fetch with
    the function that takes a project ID. They end in one of three ways:
    the secret name is rejected and no event is added; [getProjectID] fails
    and its error (the error of the context, or "failed to get project ID:
    " wrapping the last cause) is returned unchanged; or the metadata
    server names a project [p], and result and history are exactly those
    of [FetchFromProject] ([StoreInProject]) called with [p] after the
    metadata exchanges, hence one of its outcomes. In particular a project
    ID named by the metadata server is validated like one given by the
    caller: if it does not match the pattern, the operation returns
    "invalid project ID format: <p>" and sends nothing after the project ID
    request. *)
Theorem X9_Fetch_and_Store_go_through_the_metadata_server (L : Lib)
  (E : Env) (name : string) (h : list Event) :
  via_metadata L name (fun e => ("", Some e))
    (fun p h1 res h' =>
       FetchFromProject L E p name h1 = (res, h')
       /\ fetch_outcome L p name h1 res h') h
    (fst (Fetch L E name h)) (snd (Fetch L E name h))
  /\ (forall body value,
         via_metadata L name Some
           (fun p h1 res h' =>
              StoreInProject_with L E body p name value h1 = (res, h')
              /\ store_outcome L body p name value h1 res h') h
           (fst (Store_with L E body name value h))
           (snd (Store_with L E body name value h)))
  /\ (forall p h1,
         Regexp.MatchString secretNameRegex name = true ->
         getProjectID L E h = ((p, None), h1) ->
         Regexp.MatchString projectIDRegex p = false ->
         Fetch L E name h = (("", Some (invalid_project L p)), h1)
         /\ forall body value,
              Store_with L E body name value h
              = (Some (invalid_project L p), h1)).
Proof.
  split; [|split].
  - apply (Fetch_composes L E name h). apply surjective_pairing.
  - intros body value. apply (Store_composes L E body name value h).
    apply surjective_pairing.
  - intros p h1 Hn Hpid Hp.
    now apply (metadata_project_is_validated L E name h p h1).
Qed.

Lemma X9_witness :
  Fetch Sample.lib Sample.env_bad_project "test-secret" []
  = (("", Some (ErrNew ("invalid project ID format: "
                        ++ GoStrings.quoted "My_Project"))),
     [EvDo projectID_request (Sample.response 200 "My_Project")])
  /\ Store Sample.lib Sample.env_bad_project "test-secret" "test-value" []
     = (Some (ErrNew ("invalid project ID format: "
                      ++ GoStrings.quoted "My_Project")),
        [EvDo projectID_request (Sample.response 200 "My_Project")]).
Proof.
  destruct (proj2 (proj2
              (X9_Fetch_and_Store_go_through_the_metadata_server
                 Sample.lib Sample.env_bad_project "test-secret" []))
              "My_Project"
              [EvDo projectID_request (Sample.response 200 "My_Project")])
    as [HF HS].
  - reflexivity.
  - vm_compute. reflexivity.
  - reflexivity.
  - split; [exact HF | exact (HS createReqBody "test-value")].
Defined.

(** X10. [FetchFromProject] only reads. Every event it adds is a retry
    wait, an exchange of the token request (a GET to the metadata server
    with the single header [Metadata-Flavor: Google]), or an exchange of a
    GET to the access URL of the secret, without body, whose single header
    is [Authorization: Bearer <token>]. *)
Theorem X10_FetchFromProject_sends_only_its_two_requests (L : Lib) (E : Env)
  (pid name : string) :
  all_events (fetch_event pid name) (FetchFromProject L E pid name).
Proof. apply FetchFromProject_events. Qed.

(** X11. Every add-version request of [StoreInProject] (either copy) is a
    POST to [{api}/projects/{pid}/secrets/{name}:addVersion] with the
    headers [Authorization: Bearer <token>] and [Content-Type:
    application/json], and its body is exactly
    [{"payload":{"data":"<b64>"}}], [<b64>] being the standard base64 text
    of the value, which [json.Marshal] writes without any escape. *)
Theorem X11_add_version_requests_carry_the_encoded_value (L : Lib) (E : Env)
  (body : JSON.value) (pid name value : string) :
  version_requests_carry pid name
    (payload_json (Base64.EncodeToString value))
    (StoreInProject_with L E body pid name value).
Proof. apply StoreInProject_version_requests. Qed.

Lemma X11_witness :
  Body (match nth 2 (snd (StoreInProject Sample.lib Sample.env_new_secret
                            "test-project" "test-secret" "test-value" []))
               (EvWait TimerFired) with
        | EvDo req _ => req
        | EvWait _ => token_request
        end)
  = payload_json "dGVzdC12YWx1ZQ==".
Proof.
  pose (run := StoreInProject Sample.lib Sample.env_new_secret
                 "test-project" "test-secret" "test-value" []).
  refine (proj1 (proj2
            (X11_add_version_requests_carry_the_encoded_value Sample.lib
               Sample.env_new_secret createReqBody
               "test-project" "test-secret" "test-value"
               [] (fst run) (snd run) (surjective_pairing _)
               (firstn 2 (snd run)) _ _ (skipn 3 (snd run)) _ _))).
  - vm_compute. reflexivity.
  - vm_compute. reflexivity.
Defined.

(** X12. Response bodies are read through the 10 MiB cap. [FetchFromProject]
    decodes only the first [maxBodySize] bytes of a 200 answer to the
    access request: if they decode to [v], and the body is at least that
    long or ends without a read error, the answer is the last event and [v]
    is returned with a nil error, whatever follows those bytes (a read
    error included). In [StoreInProject] (either copy) the body text of the
    errors "failed to create secret: status N: body" and "failed to add
    secret version: status N: body" is the first [maxBodySize] bytes of the
    answer's body, never more. *)
Theorem X12_bodies_are_read_through_the_cap (L : Lib) (E : Env)
  (pid name : string) :
  ends_on (served_within_cap_from L (accessURL pid name))
    (fetched_within_cap L) (FetchFromProject L E pid name)
  /\ (forall body value,
         ends_on (is_4xx_not_conflict_from (createURL pid name))
           create_denied_within_cap
           (StoreInProject_with L E body pid name value))
  /\ (forall body value,
         ends_on (is_4xx_from (versionURL pid name))
           addVersion_denied_within_cap
           (StoreInProject_with L E body pid name value))
  /\ (forall resp,
         GoStrings.len (GoStrings.take maxBodySize (data (RespBody resp)))
         <= maxBodySize).
Proof.
  split; [|split; [|split]].
  - apply FetchFromProject_served_within_cap.
  - intros body value. apply StoreInProject_create_denied_within_cap.
  - intros body value. apply StoreInProject_addVersion_denied_within_cap.
  - intros resp. apply len_take. unfold maxBodySize. lia.
Qed.

Lemma X12_witness :
  fst (StoreInProject Sample.lib Sample.env_forbidden
         "test-project" "test-secret" "test-value" [])
  = Some (ErrNew "failed to create secret: status 403: error message")
  /\ fst (FetchFromProject Sample.lib (Sample.env_access_flaky 0)
            "test-project" "test-secret" [])
     = ("secret-value", None).
Proof.
  pose proof (X12_bodies_are_read_through_the_cap Sample.lib
                Sample.env_forbidden "test-project" "test-secret")
    as (_ & HS & _).
  pose proof (X12_bodies_are_read_through_the_cap Sample.lib
                (Sample.env_access_flaky 0) "test-project" "test-secret")
    as (HF & _).
  split.
  - pose (run := StoreInProject Sample.lib Sample.env_forbidden
                   "test-project" "test-secret" "test-value" []).
    assert (Hev : is_4xx_not_conflict_from
                    (createURL "test-project" "test-secret")
                    (nth 1 (snd run) (EvWait TimerFired))).
    { eexists _, _. vm_compute. repeat split. discriminate. }
    destruct (HS createReqBody "test-value" [] (fst run) (snd run)
                (surjective_pairing _) (firstn 1 (snd run)) _ []
                eq_refl Hev) as [_ HQ].
    exact (HQ _ _ ltac:(vm_compute; reflexivity)).
  - pose (run := FetchFromProject Sample.lib (Sample.env_access_flaky 0)
                   "test-project" "test-secret" []).
    assert (Hs : serves_within_cap Sample.lib
                   {| StatusCode := 200;
                      RespBody :=
                        {| data := Sample.payload_body
                                     (Base64.EncodeToString "secret-value");
                           fail := None |} |} "secret-value").
    { split; [reflexivity|]. split; [now right|].
      eexists. split; vm_compute; reflexivity. }
    assert (Hev : served_within_cap_from Sample.lib
                    (accessURL "test-project" "test-secret")
                    (nth 1 (snd run) (EvWait TimerFired))).
    { eexists _, _, _. split; [vm_compute; reflexivity|].
      split; [reflexivity | exact Hs]. }
    destruct (HF [] (fst run) (snd run) (surjective_pairing _)
                (firstn 1 (snd run)) _ [] eq_refl Hev) as [_ HQ].
    exact (HQ _ _ _ ltac:(vm_compute; reflexivity) Hs).
Defined.

(** X13. For identifiers that pass validation, the URL of a Secret Manager
    request tells which of the three calls it is (access, create or add
    version), the project and the secret: two such URLs are equal only if
    call, project ID and secret name are. *)
Theorem X13_url_determines_call_project_and_secret (c c' : api_call)
  (pid pid' name name' : string) :
  Regexp.MatchString projectIDRegex pid = true ->
  Regexp.MatchString projectIDRegex pid' = true ->
  Regexp.MatchString secretNameRegex name = true ->
  Regexp.MatchString secretNameRegex name' = true ->
  call_url c pid name = call_url c' pid' name' ->
  c = c' /\ pid = pid' /\ name = name'.
Proof. apply call_url_inj. Qed.

Lemma X13_witness :
  AccessCall = AccessCall /\ "test-project" = "test-project"
  /\ "test-secret" = "test-secret".
Proof.
  apply (X13_url_determines_call_project_and_secret AccessCall AccessCall
           "test-project" "test-project" "test-secret" "test-secret");
    reflexivity.
Defined.

(** X14. What [StoreInProject] writes, [Fetch] reads back. When the
    metadata server names a valid project and grants a token, and the first
    answer to the access request is a 200, read in full, whose payload data
    is the base64 text of [value] (the text [StoreInProject] sends for
    [value]), then [Fetch] returns exactly [value] with a nil error, after
    a single access request. *)
Theorem X14_Fetch_returns_the_stored_value (L : Lib) (E : Env)
  (name value : string) (h : list Event) (p : string) (h0 : list Event)
  (tok : string) (h1 : list Event) (resp : Response) :
  Regexp.MatchString secretNameRegex name = true ->
  getProjectID L E h = ((p, None), h0) ->
  Regexp.MatchString projectIDRegex p = true ->
  getAccessToken L E h0 = ((tok, None), h1) ->
  Do E h1 (access_request tok (accessURL p name)) = inr resp ->
  StatusCode resp = StatusOK ->
  read_error resp = None ->
  UnmarshalPayloadData L (read_body resp)
  = inr (Base64.EncodeToString value) ->
  Fetch L E name h
  = ((value, None),
     (h1 ++ [EvDo (access_request tok (accessURL p name)) (inr resp)])%list).
Proof.
  intros Hn Hpid Hp Htok HDo Hok Hre Hu.
  now apply (Fetch_reads_back L E name value h p h0 tok h1 resp).
Qed.

Lemma X14_witness :
  fst (Fetch Sample.lib (Sample.env_access_flaky 0) "test-secret" [])
  = ("secret-value", None).
Proof.
  rewrite (X14_Fetch_returns_the_stored_value Sample.lib
             (Sample.env_access_flaky 0) "test-secret" "secret-value" []
             "test-project"
             [EvDo projectID_request (Sample.response 200 "test-project")]
             "test-token"
             [EvDo projectID_request (Sample.response 200 "test-project");
              EvDo token_request
                (Sample.response 200 (Sample.token_body "test-token"))]
             {| StatusCode := 200;
                RespBody :=
                  {| data := Sample.payload_body
                               (Base64.EncodeToString "secret-value");
                     fail := None |} |}).
  - reflexivity.
  - reflexivity.
  - vm_compute. reflexivity.
  - reflexivity.
  - vm_compute. reflexivity.
  - vm_compute. reflexivity.
  - reflexivity.
  - reflexivity.
  - vm_compute. reflexivity.
Defined.

(** X15. The Secret Manager API is only ever addressed with a granted
    token. In [FetchFromProject] and [StoreInProject] (either copy), every
    request other than the token request is sent after a token exchange
    that the metadata server answered with a 200 and a non-empty
    [access_token], and carries [Authorization: Bearer] followed by that
    token; no API request precedes the grant. *)
Theorem X15_api_requests_carry_the_granted_token (L : Lib) (E : Env)
  (pid name : string) :
  signed_with_granted_token L (FetchFromProject L E pid name)
  /\ (forall body value,
         signed_with_granted_token L
           (StoreInProject_with L E body pid name value)).
Proof.
  split.
  - apply FetchFromProject_signed.
  - intros body value. apply StoreInProject_signed.
Qed.

Lemma X15_witness :
  exists pre1 resp tok pre2,
    [EvDo token_request
       (Sample.response 200 (Sample.token_body "test-token"))]
    = (pre1 ++ EvDo token_request (inr resp) :: pre2)%list
    /\ grants_token Sample.lib resp tok
    /\ In ("Authorization", "Bearer " ++ tok)
         (Header (access_request "test-token"
                    (accessURL "test-project" "test-secret"))).
Proof.
  pose (run := FetchFromProject Sample.lib (Sample.env_access_flaky 0)
                 "test-project" "test-secret" []).
  refine (proj1 (X15_api_requests_carry_the_granted_token Sample.lib
                   (Sample.env_access_flaky 0) "test-project" "test-secret")
            [] (fst run) (snd run) (surjective_pairing _)
            [EvDo token_request
               (Sample.response 200 (Sample.token_body "test-token"))]
            (access_request "test-token"
               (accessURL "test-project" "test-secret"))
            (Sample.response 200
               (Sample.payload_body (Base64.EncodeToString "secret-value")))
            [] _ _).
  - vm_compute. reflexivity.
  - discriminate.
Defined.

(** X16. [StoreInProject] (either copy) sends three kinds of requests and
    no other: the token request to the metadata server, POSTs to the create
    URL whose body is the marshalled replication policy, and POSTs to the
    add-version URL whose body holds the base64 text of the value; both
    POSTs carry the bearer token and the JSON content type. The value
    leaves the process only inside add-version bodies. *)
Theorem X16_StoreInProject_sends_only_its_three_requests (L : Lib) (E : Env)
  (body : JSON.value) (pid name value : string) :
  all_events (store_event body pid name value)
    (StoreInProject_with L E body pid name value).
Proof. apply StoreInProject_events. Qed.

(** X17. Success ends the operation. In [FetchFromProject] an answer to the
    access request that serves the secret (status 200, payload data that
    base64-decodes) is the last event, and the function returns the decoded
    value with a nil error. In [StoreInProject] (either copy) a 200 answer
    to the add-version request is the last event and the function returns
    nil: a version that was added is never sent again. *)
Theorem X17_success_ends_the_operation (L : Lib) (E : Env)
  (pid name : string) :
  ends_on (served_from L (accessURL pid name)) (fetched L)
    (FetchFromProject L E pid name)
  /\ (forall body value,
         ends_on (ok_from (versionURL pid name)) stored
           (StoreInProject_with L E body pid name value)).
Proof.
  split.
  - apply ends_on_of_stops, FetchFromProject_served.
  - intros body value. apply ends_on_of_stops, StoreInProject_stored.
Qed.

Lemma X17_witness :
  fst (StoreInProject Sample.lib Sample.env_new_secret
         "test-project" "test-secret" "test-value" [])
  = None.
Proof.
  pose proof (X17_success_ends_the_operation Sample.lib
                Sample.env_new_secret "test-project" "test-secret")
    as (_ & H).
  pose (run := StoreInProject Sample.lib Sample.env_new_secret
                 "test-project" "test-secret" "test-value" []).
  assert (Hev : ok_from (versionURL "test-project" "test-secret")
                  (nth 2 (snd run) (EvWait TimerFired))).
  { eexists _, _. vm_compute. repeat split. }
  destruct (H createReqBody "test-value" [] (fst run) (snd run)
              (surjective_pairing _) (firstn 2 (snd run)) _ []
              eq_refl Hev) as [_ HQ].
  exact HQ.
Defined.

(** X18. In [StoreInProject] (either copy) create comes before add-version.
    Every add-version request of a run is preceded by a create request of
    that run, and once an add-version request has been sent only retry
    waits and further add-version requests follow: the create call is
    never repeated. *)
Theorem X18_create_precedes_add_version (L : Lib) (E : Env)
  (body : JSON.value) (pid name value : string) :
  create_precedes_version pid name
    (StoreInProject_with L E body pid name value).
Proof. apply StoreInProject_phases. Qed.

Lemma X18_witness :
  exists pre1 creq cr pre2,
    firstn 2 (snd (StoreInProject Sample.lib Sample.env_addVersion_flaky
                     "test-project" "test-secret" "test-value" []))
    = (pre1 ++ EvDo creq cr :: pre2)%list
    /\ URL creq = createURL "test-project" "test-secret".
Proof.
  pose (run := StoreInProject Sample.lib Sample.env_addVersion_flaky
                 "test-project" "test-secret" "test-value" []).
  refine (proj1 (X18_create_precedes_add_version Sample.lib
                   Sample.env_addVersion_flaky createReqBody
                   "test-project" "test-secret" "test-value"
                   [] (fst run) (snd run) (surjective_pairing _)
                   (firstn 2 (snd run))
                   (post_request "test-token"
                      (versionURL "test-project" "test-secret")
                      (JSON.Marshal (versionReqBody "test-value")))
                   (Sample.response 500 "")
                   (skipn 3 (snd run)) _ _)).
  - vm_compute. reflexivity.
  - reflexivity.
Defined.
